(** * Build-a-bear configurator: configuration state and scene updates

    The repository holds three revisions of one browser program:

    - [Draft]  : [src/script.js], first part.  A placeholder cube stands in
      for the bear; recolouring goes by mesh name ("Body", "Eye").
    - [Forms]  : [src/script.js], second part.  Three bear forms are loaded,
      recolouring goes by the material name "EyeBlack", materials are cloned
      before they are written.
    - [Skins]  : [src/unnamed/part_000].  One bear, textured skins, eye and
      nose colours, two mutually exclusive hats, a scarf, and a timer that
      enables the controls when loading takes too long.

    JavaScript objects are mutable and shared by reference.  Materials and
    loaded models therefore live in stores (lists addressed by index), and
    meshes and registries hold references into them.  An object used as a
    table ([CONFIG.colors.fur], [textures], [bearModels], [accessories])
    is a finite map over its own keys; names it would inherit from
    [Object.prototype] are not represented. *)

From Stdlib Require Import Ascii String ZArith QArith Lia.
From stdpp Require Import base strings gmap list.

(** ** JavaScript strings *)

Module JS.

(** [hay.includes(needle)] *)
Fixpoint includes (hay needle : string) : bool :=
  String.prefix needle hay ||
  match hay with
  | EmptyString => false
  | String _ rest => includes rest needle
  end.

(** [c.toLowerCase()] on one ASCII character. *)
Definition lowerAscii (c : ascii) : ascii :=
  let n := Ascii.nat_of_ascii c in
  if (65 <=? n)%nat && (n <=? 90)%nat then Ascii.ascii_of_nat (n + 32) else c.

(** [s.toLowerCase()] on ASCII names. *)
Fixpoint toLowerCase (s : string) : string :=
  match s with
  | EmptyString => EmptyString
  | String c rest => String (lowerAscii c) (toLowerCase rest)
  end.

End JS.

(** ** The part of the 3D engine the program relies on *)

Module UserData.
(** The three keys the program writes into [material.userData]. *)
Record t := mk { isCloned : bool; isEyeCloned : bool; isNoseCloned : bool }.
Definition empty : t := mk false false false.
Definition set_isCloned (u : t) : t := mk true (isEyeCloned u) (isNoseCloned u).
Definition set_isEyeCloned (u : t) : t := mk (isCloned u) true (isNoseCloned u).
Definition set_isNoseCloned (u : t) : t := mk (isCloned u) (isEyeCloned u) true.
End UserData.

Module Material.
(** A colour is represented by the hex triplet it was set from, a texture
    by the key it is stored under in the program's texture table. *)
Record t := mk {
  name : string;
  color : Z;
  map : option string;
  userData : UserData.t
}.
Definition set_color (c : Z) (m : t) : t := mk (name m) c (map m) (userData m).
Definition set_map (tx : option string) (m : t) : t := mk (name m) (color m) tx (userData m).
Definition set_userData (u : UserData.t) (m : t) : t := mk (name m) (color m) (map m) u.
End Material.

Module THREE.

(** [new THREE.Color(v)]: the components start at 1 and [set] only
    overwrites them when it is given a number, so an undefined argument
    leaves white. *)
Definition Color (v : option Z) : Z := default 0xFFFFFF%Z v.

(** [new THREE.MeshStandardMaterial({ color })] *)
Definition MeshStandardMaterial (c : Z) : Material.t :=
  Material.mk EmptyString c None UserData.empty.

(** The material store.  A reference outside the store stands for an
    absent material; the engine gives every mesh one. *)
Abbreviation Materials := (list Material.t).

(** [material.clone()]: a copy of every field, [userData] included, at a
    fresh address. *)
Definition clone (r : nat) (h : Materials) : nat * Materials :=
  match h !! r with
  | Some m => (length h, h ++ [m])
  | None => (r, h)
  end.

(** A node met by [traverse]: the object itself or one of its
    descendants.  [Mesh] nodes are those with [isMesh]; [positionCount]
    is [geometry.attributes.position.count]. *)
Inductive Node :=
| Group (name : string)
| Mesh (name : string) (material : nat) (positionCount : nat).

Definition nodeMaterial (h : Materials) (n : Node) : option Material.t :=
  match n with Mesh _ r _ => h !! r | Group _ => None end.

Record Vector3 := vec3 { x : Q; y : Q; z : Q }.

Definition setScalar (s : Q) : Vector3 := vec3 s s s.

(** A loaded model (the [scene] of a glTF file).  [nodes] lists the
    object and its descendants in [traverse] order. *)
Record Object3D := mkObject {
  visible : bool;
  position : Vector3;
  scale : Vector3;
  nodes : list Node
}.

Definition set_visible (v : bool) (o : Object3D) : Object3D :=
  mkObject v (position o) (scale o) (nodes o).
Definition set_position (p : Vector3) (o : Object3D) : Object3D :=
  mkObject (visible o) p (scale o) (nodes o).
Definition set_scale (s : Vector3) (o : Object3D) : Object3D :=
  mkObject (visible o) (position o) s (nodes o).
Definition set_nodes (ns : list Node) (o : Object3D) : Object3D :=
  mkObject (visible o) (position o) (scale o) ns.

(** [object.traverse(callback)] for a callback that may rebind the
    node's material and write to the material store.  The callback also
    receives the position of the node in the traversal, which stands for
    the identity of the node object. *)
Fixpoint traverseFrom (i : nat) (f : nat -> Node -> Materials -> Node * Materials)
    (ns : list Node) (h : Materials) : list Node * Materials :=
  match ns with
  | [] => ([], h)
  | n :: rest =>
      let '(n', h1) := f i n h in
      let '(rest', h2) := traverseFrom (S i) f rest h1 in
      (n' :: rest', h2)
  end.

Definition traverse (f : Node -> Materials -> Node * Materials) :=
  traverseFrom 0 (λ _, f).

End THREE.

Export THREE.

(** The clone-on-first-write block of [updateFurColor], [updateEyeColor],
    [updateBearSkin] and [updatePartColor]:
    [if (!material.userData.flag) { child.material = child.material.clone();
    child.material.userData.flag = true; }].  Returns the reference the
    mesh holds afterwards. *)
Definition ownMaterial (flag : UserData.t -> bool) (setFlag : UserData.t -> UserData.t)
    (r : nat) (h : Materials) : nat * Materials :=
  match h !! r with
  | None => (r, h)
  | Some m =>
      if flag (Material.userData m) then (r, h)
      else
        let '(r', h') := clone r h in
        (r', alter (λ m', Material.set_userData (setFlag (Material.userData m')) m') r' h')
  end.

(** ** What the glTF loader delivers *)

Module GLTF.

(** The argument of a completion callback: a scene whose meshes refer to
    the materials that came in the same file. *)
Record Gltf := mkGltf { scene : Object3D; fileMaterials : list Material.t }.

(** Mesh references are relative to the file; adding the file's
    materials to the store at offset [off] shifts them. *)
Definition relocate (off : nat) (n : Node) : Node :=
  match n with
  | Mesh nm r cnt => Mesh nm (off + r) cnt
  | Group nm => Group nm
  end.

Definition install (off : nat) (g : Gltf) : Object3D :=
  set_nodes (relocate off <$> nodes (scene g)) (scene g).

End GLTF.

(** ** Configuration shared by both parts of [script.js] *)

Module Config.

Definition colors_fur : gmap string Z :=
  {[ "brown" := 0x8B4513%Z; "beige" := 0xD2B48C%Z;
     "white" := 0xF5F5DC%Z; "pink" := 0xFFB6C1%Z ]}.

Definition colors_eyes : gmap string Z :=
  {[ "black" := 0x000000%Z; "blue" := 0x4169E1%Z;
     "brown" := 0x654321%Z; "green" := 0x228B22%Z ]}.

(** Accessory flag objects ([{ hat: false, ... }]) are JavaScript objects
    too: they live in a store and are held by reference. *)
Abbreviation Flags := (list (gmap string bool)).

(** [CONFIG.defaultState]; [accessories] is a reference into [Flags]. *)
Record DefaultState := mkDefault {
  form : string;
  furColor : string;
  eyeColor : string;
  accessories : nat
}.

Definition defaultState : DefaultState :=
  mkDefault "sitting" "brown" "black" 0.

Definition defaultAccessories : gmap string bool :=
  {[ "hat" := false; "bow" := false; "scarf" := false ]}.

(** The flag store once [CONFIG] has been evaluated. *)
Definition initialFlags : Flags := [defaultAccessories].

(** [{ ...obj }]: a fresh object with the own properties of [obj]. *)
Definition spread (r : nat) (fl : Flags) : nat * Flags :=
  (length fl, fl ++ [default ∅ (fl !! r)]).

End Config.

(** ** [class BearState] (identical in both parts of [script.js]) *)

Module BearState.

Record t := mk {
  currentForm : string;
  furColor : string;
  eyeColor : string;
  accessories : nat
}.

(** [constructor()] *)
Definition new (fl : Config.Flags) : t * Config.Flags :=
  let '(a, fl') := Config.spread (Config.accessories Config.defaultState) fl in
  (mk (Config.form Config.defaultState)
      (Config.furColor Config.defaultState)
      (Config.eyeColor Config.defaultState)
      a, fl').

(** [reset()] *)
Definition reset (s : t) (fl : Config.Flags) : t * Config.Flags :=
  let '(a, fl') := Config.spread (Config.accessories Config.defaultState) fl in
  (mk (Config.form Config.defaultState)
      (Config.furColor Config.defaultState)
      (Config.eyeColor Config.defaultState)
      a, fl').

Definition set_currentForm (f : string) (s : t) : t :=
  mk f (furColor s) (eyeColor s) (accessories s).
Definition set_furColor (c : string) (s : t) : t :=
  mk (currentForm s) c (eyeColor s) (accessories s).
Definition set_eyeColor (c : string) (s : t) : t :=
  mk (currentForm s) (furColor s) c (accessories s).

(** [bearState.accessories[accessory] = isChecked] *)
Definition set_accessory (a : string) (v : bool) (s : t) (fl : Config.Flags)
    : Config.Flags :=
  alter (insert a v) (accessories s) fl.

(** Deep equality of a state with [CONFIG.defaultState] as written in
    the source. *)
Definition isDefault (s : t) (fl : Config.Flags) : Prop :=
  currentForm s = "sitting" ∧ furColor s = "brown" ∧ eyeColor s = "black" ∧
  fl !! accessories s = Some Config.defaultAccessories.

End BearState.

(** ** The scene manager's state (both parts of [script.js]) *)

Module Scene.

Record t := mk {
  materials : Materials;
  objects : list Object3D;
  bearModels : gmap string nat;
  accessories : gmap string nat;
  currentBear : option nat
}.

Definition set_materials (h : Materials) (s : t) : t :=
  mk h (objects s) (bearModels s) (accessories s) (currentBear s).
Definition set_objects (os : list Object3D) (s : t) : t :=
  mk (materials s) os (bearModels s) (accessories s) (currentBear s).
Definition set_bearModels (m : gmap string nat) (s : t) : t :=
  mk (materials s) (objects s) m (accessories s) (currentBear s).
Definition set_accessories (m : gmap string nat) (s : t) : t :=
  mk (materials s) (objects s) (bearModels s) m (currentBear s).
Definition set_currentBear (b : option nat) (s : t) : t :=
  mk (materials s) (objects s) (bearModels s) (accessories s) b.

(** [obj.visible = v] through a reference. *)
Definition setVisible (r : nat) (v : bool) (s : t) : t :=
  set_objects (alter (set_visible v) r (objects s)) s.

(** [new SceneManager(canvas)]: empty registries, no current bear. *)
Definition new : t := mk [] [] ∅ ∅ None.

(** Is the object behind [r] shown? *)
Definition isVisible (s : t) (r : nat) : bool :=
  match objects s !! r with Some o => visible o | None => false end.

(** The registered model variants that are currently visible. *)
Definition visibleVariants (s : t) : list nat :=
  filter (λ r, isVisible s r = true) (elements (map_img (bearModels s) : gset nat)).

(** The material shown by the [i]-th node of object [b]. *)
Definition surface (s : t) (b i : nat) : option Material.t :=
  o ← objects s !! b; n ← nodes o !! i; nodeMaterial (materials s) n.

(** Its colour. *)
Definition surfaceColor (s : t) (b i : nat) : option Z :=
  Material.color <$> surface s b i.

(** [this.currentBear.traverse(callback)] for the current bear [b]. *)
Definition traverseCurrent (f : Node -> Materials -> Node * Materials)
    (b : nat) (s : t) : t :=
  match objects s !! b with
  | None => s
  | Some o =>
      let '(ns, h) := traverse f (nodes o) (materials s) in
      set_materials h (set_objects (<[b := set_nodes ns o]> (objects s)) s)
  end.

End Scene.

(** The methods of [class SceneManager] that the UI controller calls. *)
Class SceneManagerOps := {
  switchBearForm : string -> Scene.t -> Scene.t;
  updateFurColor : string -> Scene.t -> Scene.t;
  updateEyeColor : string -> Scene.t -> Scene.t;
  toggleAccessory : string -> bool -> Scene.t -> Scene.t
}.

(** ** [class SceneManager], first part of [script.js] *)

Module Draft.

(** [switchBearForm(formName)] *)
Definition switchBearForm (formName : string) (s : Scene.t) : Scene.t :=
  let s1 :=
    match Scene.currentBear s with
    | Some b => Scene.setVisible b false s
    | None => s
    end in
  match Scene.bearModels s1 !! formName with
  | Some newBear => Scene.set_currentBear (Some newBear) (Scene.setVisible newBear true s1)
  | None => s1
  end.

(** The callback of [updateFurColor]. *)
Definition furCallback (color : Z) (child : Node) (h : Materials) : Node * Materials :=
  match child with
  | Mesh nm r _ =>
      if JS.includes nm "Body"
      then (child, alter (Material.set_color color) r h)
      else (child, h)
  | Group _ => (child, h)
  end.

(** [updateFurColor(colorName)] *)
Definition updateFurColor (colorName : string) (s : Scene.t) : Scene.t :=
  match Scene.currentBear s with
  | None => s
  | Some b =>
      let color := Color (Config.colors_fur !! colorName) in
      Scene.traverseCurrent (furCallback color) b s
  end.

(** The callback of [updateEyeColor]. *)
Definition eyeCallback (color : Z) (child : Node) (h : Materials) : Node * Materials :=
  match child with
  | Mesh nm r _ =>
      if JS.includes nm "Eye"
      then (child, alter (Material.set_color color) r h)
      else (child, h)
  | Group _ => (child, h)
  end.

(** [updateEyeColor(colorName)] *)
Definition updateEyeColor (colorName : string) (s : Scene.t) : Scene.t :=
  match Scene.currentBear s with
  | None => s
  | Some b =>
      let color := Color (Config.colors_eyes !! colorName) in
      Scene.traverseCurrent (eyeCallback color) b s
  end.

(** [toggleAccessory(accessoryName, visible)] *)
Definition toggleAccessory (accessoryName : string) (v : bool) (s : Scene.t) : Scene.t :=
  match Scene.accessories s !! accessoryName with
  | Some a => Scene.setVisible a v s
  | None => s
  end.

#[export] Instance ops : SceneManagerOps :=
  Build_SceneManagerOps switchBearForm updateFurColor updateEyeColor toggleAccessory.

(** [addPlaceholder()]: a unit cube in the brown fur colour becomes the
    current bear.  It is not entered into [bearModels]. *)
Definition addPlaceholder (s : Scene.t) : Scene.t :=
  let h := Scene.materials s in
  let cube := mkObject true (vec3 0 0 0) (vec3 1 1 1) [Mesh EmptyString (length h) 24] in
  Scene.mk (h ++ [MeshStandardMaterial 0x8B4513%Z])
           (Scene.objects s ++ [cube])
           (Scene.bearModels s) (Scene.accessories s)
           (Some (length (Scene.objects s))).

End Draft.

(** ** [class SceneManager], second part of [script.js] *)

Module Forms.

(** One entry of the [positions] table of [repositionAccessories]. *)
Record Placement := place { hat_y : Q; hat_scale : Q;
                            bow_x : Q; bow_y : Q; bow_scale : Q;
                            scarf_y : Q; scarf_scale : Q }.

Definition positions : gmap string Placement :=
  {[ "sitting"  := place 1.7 1.0  0.3 1.6 0.8   1.0 1.0;
     "standing" := place 2.0 1.0  0.28 1.9 0.8  1.5 1.0;
     "compact"  := place 1.4 0.9  0.3 1.3 0.7   0.8 0.9 ]}.

Definition set_y (v : Q) (p : Vector3) : Vector3 := vec3 (x p) v (z p).

(** [this.accessories[k]] moved, when it is loaded. *)
Definition placeAccessory (k : string) (f : Object3D -> Object3D) (s : Scene.t) : Scene.t :=
  match Scene.accessories s !! k with
  | Some a => Scene.set_objects (alter f a (Scene.objects s)) s
  | None => s
  end.

(** [repositionAccessories(formName)] *)
Definition repositionAccessories (formName : string) (s : Scene.t) : Scene.t :=
  match positions !! formName with
  | None => s
  | Some pos =>
      let s1 := placeAccessory "hat"
        (λ o, set_scale (setScalar (hat_scale pos))
                (set_position (set_y (hat_y pos) (position o)) o)) s in
      let s2 := placeAccessory "bow"
        (λ o, set_scale (setScalar (bow_scale pos))
                (set_position (vec3 (bow_x pos) (bow_y pos) 0) o)) s1 in
      placeAccessory "scarf"
        (λ o, set_scale (setScalar (scarf_scale pos))
                (set_position (set_y (scarf_y pos) (position o)) o)) s2
  end.

(** [switchBearForm(formName)] *)
Definition switchBearForm (formName : string) (s : Scene.t) : Scene.t :=
  let s1 :=
    match Scene.currentBear s with
    | Some b => Scene.setVisible b false s
    | None => s
    end in
  match Scene.bearModels s1 !! formName with
  | Some newBear =>
      repositionAccessories formName
        (Scene.set_currentBear (Some newBear) (Scene.setVisible newBear true s1))
  | None => s1
  end.

(** The callback of [updateFurColor]. *)
Definition furCallback (color : Z) (child : Node) (h : Materials) : Node * Materials :=
  match child with
  | Mesh nm r cnt =>
      match h !! r with
      | Some m =>
          if negb (String.eqb (Material.name m) "EyeBlack") then
            let '(r', h') := ownMaterial UserData.isCloned UserData.set_isCloned r h in
            (Mesh nm r' cnt, alter (Material.set_color color) r' h')
          else (child, h)
      | None => (child, h)
      end
  | Group _ => (child, h)
  end.

(** [updateFurColor(colorName)] *)
Definition updateFurColor (colorName : string) (s : Scene.t) : Scene.t :=
  match Scene.currentBear s with
  | None => s
  | Some b =>
      let color := Color (Config.colors_fur !! colorName) in
      Scene.traverseCurrent (furCallback color) b s
  end.

(** The callback of [updateEyeColor]. *)
Definition eyeCallback (color : Z) (child : Node) (h : Materials) : Node * Materials :=
  match child with
  | Mesh nm r cnt =>
      match h !! r with
      | Some m =>
          if String.eqb (Material.name m) "EyeBlack" then
            let '(r', h') := ownMaterial UserData.isEyeCloned UserData.set_isEyeCloned r h in
            (Mesh nm r' cnt, alter (Material.set_color color) r' h')
          else (child, h)
      | None => (child, h)
      end
  | Group _ => (child, h)
  end.

(** [updateEyeColor(colorName)] *)
Definition updateEyeColor (colorName : string) (s : Scene.t) : Scene.t :=
  match Scene.currentBear s with
  | None => s
  | Some b =>
      let color := Color (Config.colors_eyes !! colorName) in
      Scene.traverseCurrent (eyeCallback color) b s
  end.

(** [toggleAccessory(accessoryName, visible)] *)
Definition toggleAccessory (accessoryName : string) (v : bool) (s : Scene.t) : Scene.t :=
  match Scene.accessories s !! accessoryName with
  | Some a => Scene.setVisible a v s
  | None => s
  end.

#[export] Instance ops : SceneManagerOps :=
  Build_SceneManagerOps switchBearForm updateFurColor updateEyeColor toggleAccessory.

End Forms.

(** ** The application: configuration state, scene manager, UI controller *)

Module App.

Record t := mk {
  flags : Config.Flags;
  bearState : BearState.t;
  sceneManager : Scene.t
}.

Definition set_bearState (b : BearState.t) (a : t) : t :=
  mk (flags a) b (sceneManager a).
Definition set_sceneManager (s : Scene.t) (a : t) : t :=
  mk (flags a) (bearState a) s.

(** [this.bearState.reset()] inside the application. *)
Definition resetState (a : t) : t :=
  let '(b, fl) := BearState.reset (bearState a) (flags a) in
  mk fl b (sceneManager a).

(** [new BearState()] and [new SceneManager(canvas)] on page load. *)
Definition new : t :=
  let '(b, fl) := BearState.new Config.initialFlags in
  mk fl b Scene.new.

End App.

(** [class UIController]: the listeners, written once for both parts.  The
    "active" markers and check boxes of the page are not represented. *)
Section UIController.

Context {ops : SceneManagerOps}.

(** click on a [[data-form]] button *)
Definition onFormClick (form : string) (a : App.t) : App.t :=
  let a1 := App.set_bearState (BearState.set_currentForm form (App.bearState a)) a in
  App.set_sceneManager (switchBearForm form (App.sceneManager a1)) a1.

(** click on a [[data-color]] button *)
Definition onColorClick (color : string) (a : App.t) : App.t :=
  let a1 := App.set_bearState (BearState.set_furColor color (App.bearState a)) a in
  App.set_sceneManager (updateFurColor color (App.sceneManager a1)) a1.

(** click on a [[data-eye]] button *)
Definition onEyeClick (color : string) (a : App.t) : App.t :=
  let a1 := App.set_bearState (BearState.set_eyeColor color (App.bearState a)) a in
  App.set_sceneManager (updateEyeColor color (App.sceneManager a1)) a1.

(** change of a [[data-accessory]] check box *)
Definition onAccessoryChange (accessory : string) (isChecked : bool) (a : App.t) : App.t :=
  App.mk (BearState.set_accessory accessory isChecked (App.bearState a) (App.flags a))
         (App.bearState a)
         (toggleAccessory accessory isChecked (App.sceneManager a)).

(** [resetAll()] *)
Definition resetAll (a : App.t) : App.t :=
  let a1 := App.resetState a in
  let s1 := switchBearForm (Config.form Config.defaultState) (App.sceneManager a1) in
  let s2 := updateFurColor (Config.furColor Config.defaultState) s1 in
  let s3 := updateEyeColor (Config.eyeColor Config.defaultState) s2 in
  let s4 := foldl (λ s acc, toggleAccessory acc false s) s3 ["hat"; "bow"; "scarf"] in
  App.set_sceneManager s4 a1.

Inductive UIEvent :=
| FormClick (form : string)
| ColorClick (color : string)
| EyeClick (color : string)
| AccessoryChange (accessory : string) (isChecked : bool)
| ResetAllClick.

Definition handle (e : UIEvent) (a : App.t) : App.t :=
  match e with
  | FormClick f => onFormClick f a
  | ColorClick c => onColorClick c a
  | EyeClick c => onEyeClick c a
  | AccessoryChange acc v => onAccessoryChange acc v a
  | ResetAllClick => resetAll a
  end.

End UIController.

(** ** Asset loading, second part of [script.js] *)

Module Loader.

(** The completion callback of [loadModel] up to [callback(model)]: the
    model is hidden and added to the scene.  Centring, scaling by the
    bounding box and the shadow flags are not represented.  Returns the
    reference to the new model. *)
Definition loadModel (g : GLTF.Gltf) (s : Scene.t) : nat * Scene.t :=
  let model := set_visible false (GLTF.install (length (Scene.materials s)) g) in
  (length (Scene.objects s),
   Scene.mk (Scene.materials s ++ GLTF.fileMaterials g)
            (Scene.objects s ++ [model])
            (Scene.bearModels s) (Scene.accessories s) (Scene.currentBear s)).

Definition registerBear (nm : string) (r : nat) (s : Scene.t) : Scene.t :=
  Scene.set_bearModels (<[nm := r]> (Scene.bearModels s)) s.

Definition registerAccessory (nm : string) (r : nat) (s : Scene.t) : Scene.t :=
  Scene.set_accessories (<[nm := r]> (Scene.accessories s)) s.

(** The six requests of [loadAssets()], named by what they load. *)
Inductive Asset := sitting | standing | compact | hat | bow | scarf.

(** Completion of one request of [loadAssets()]. *)
Definition onLoad (what : Asset) (g : GLTF.Gltf) (a : App.t) : App.t :=
  let '(model, s) := loadModel g (App.sceneManager a) in
  let s' :=
    match what with
    | sitting =>
        let s1 := Scene.set_currentBear (Some model) (registerBear "sitting" model s) in
        let s2 := Scene.setVisible model true s1 in
        let s3 := Forms.updateFurColor (BearState.furColor (App.bearState a)) s2 in
        Forms.updateEyeColor (BearState.eyeColor (App.bearState a)) s3
    | standing => registerBear "standing" model s
    | compact => registerBear "compact" model s
    | hat =>
        let s1 := Scene.setVisible model false (registerAccessory "hat" model s) in
        Scene.set_objects (alter (set_position (vec3 0 1.7 0)) model (Scene.objects s1)) s1
    | bow =>
        let s1 := Scene.setVisible model false (registerAccessory "bow" model s) in
        Scene.set_objects
          (alter (λ o, set_scale (vec3 0.8 0.8 0.8) (set_position (vec3 0.3 1.6 0) o))
                 model (Scene.objects s1)) s1
    | scarf =>
        let s1 := Scene.setVisible model false (registerAccessory "scarf" model s) in
        Scene.set_objects (alter (set_position (vec3 0 1.0 0)) model (Scene.objects s1)) s1
    end in
  App.set_sceneManager s' a.

(** What can happen once the page is up: a load completes or the user
    operates a control. *)
Inductive Event :=
| Loaded (what : Asset) (g : GLTF.Gltf)
| UI (e : UIEvent).

Definition step (e : Event) (a : App.t) : App.t :=
  match e with
  | Loaded what g => onLoad what g a
  | UI e => handle (ops := Forms.ops) e a
  end.

Definition run (es : list Event) (a : App.t) : App.t :=
  foldl (λ a e, step e a) a es.

End Loader.

(** ** The textured bear: [src/unnamed/part_000] *)

Module Skins.

(** [CONFIG.textures]; the table [textures] holds one texture object per
    key, created when the script starts. *)
Definition textures : gmap string string :=
  {[ "brown" := "textures/bear_brown.png"; "panda" := "textures/bear_panda.png";
     "pink" := "textures/bear_pink.png"; "blue" := "textures/bear_blue.png" ]}.

(** [const state] *)
Record State := mkState {
  skin : string;
  eyeColor : Z;
  noseColor : Z;
  currentHat : string;
  scarfVisible : bool;
  currentAccessoryColor : Z
}.

(** [CONFIG.defaults], with [scarfVisible: false] as written in [state]. *)
Definition defaults : State :=
  mkState "brown" 0x000000%Z 0x000000%Z "none" false 0xFFFFFF%Z.

(** [bearParts]: the meshes found at load time, by position in the
    bear's traversal. *)
Record BearParts := mkParts {
  body : option nat;
  eyes : option (list nat);
  nose : option nat
}.

(** The page: the [disabled] property of every [button] and [input], the
    [hidden] class of the loading indicator when the page has one, and
    whether the accessory colour section is displayed. *)
Record Dom := mkDom {
  disabled : list bool;
  loadingIndicator : option bool;
  accessoryColorSection : bool
}.

Record World := mkWorld {
  materials : Materials;
  bear : option Object3D;
  bearParts : BearParts;
  accessories : gmap string Object3D;
  state : State;
  loadingStatus : gmap string bool;
  dom : Dom
}.

Definition set_materials (h : Materials) (w : World) : World :=
  mkWorld h (bear w) (bearParts w) (accessories w) (state w) (loadingStatus w) (dom w).
Definition set_bear (b : option Object3D) (w : World) : World :=
  mkWorld (materials w) b (bearParts w) (accessories w) (state w) (loadingStatus w) (dom w).
Definition set_accessories (a : gmap string Object3D) (w : World) : World :=
  mkWorld (materials w) (bear w) (bearParts w) a (state w) (loadingStatus w) (dom w).
Definition set_state (s : State) (w : World) : World :=
  mkWorld (materials w) (bear w) (bearParts w) (accessories w) s (loadingStatus w) (dom w).
Definition set_loadingStatus (l : gmap string bool) (w : World) : World :=
  mkWorld (materials w) (bear w) (bearParts w) (accessories w) (state w) l (dom w).
Definition set_dom (d : Dom) (w : World) : World :=
  mkWorld (materials w) (bear w) (bearParts w) (accessories w) (state w) (loadingStatus w) d.

Definition set_skin (v : string) (s : State) : State :=
  mkState v (eyeColor s) (noseColor s) (currentHat s) (scarfVisible s) (currentAccessoryColor s).
Definition set_eyeColor (v : Z) (s : State) : State :=
  mkState (skin s) v (noseColor s) (currentHat s) (scarfVisible s) (currentAccessoryColor s).
Definition set_noseColor (v : Z) (s : State) : State :=
  mkState (skin s) (eyeColor s) v (currentHat s) (scarfVisible s) (currentAccessoryColor s).
Definition set_currentHat (v : string) (s : State) : State :=
  mkState (skin s) (eyeColor s) (noseColor s) v (scarfVisible s) (currentAccessoryColor s).
Definition set_scarfVisible (v : bool) (s : State) : State :=
  mkState (skin s) (eyeColor s) (noseColor s) (currentHat s) v (currentAccessoryColor s).
Definition set_currentAccessoryColor (v : Z) (s : State) : State :=
  mkState (skin s) (eyeColor s) (noseColor s) (currentHat s) (scarfVisible s) v.

(** [document.querySelectorAll('button, input').forEach(el => el.disabled = v)] *)
Definition setDisabled (v : bool) (d : Dom) : Dom :=
  mkDom ((λ _, v) <$> disabled d) (loadingIndicator d) (accessoryColorSection d).

(** [if (loadingIndicator) loadingIndicator.classList.add('hidden')] *)
Definition hideLoadingIndicator (d : Dom) : Dom :=
  mkDom (disabled d) ((λ _, true) <$> loadingIndicator d) (accessoryColorSection d).

(** [Object.values(loadingStatus).every(status => status === true)] *)
Definition allLoaded (l : gmap string bool) : bool :=
  bool_decide (map_Forall (λ _ status, status = true) l).

(** [checkAllLoaded()] *)
Definition checkAllLoaded (w : World) : bool * World :=
  let all := allLoaded (loadingStatus w) in
  (all, if all then set_dom (hideLoadingIndicator (setDisabled false (dom w))) w else w).

(** [bearParts.eyes && bearParts.eyes.includes(child)], for the node at
    position [i]. *)
Definition isEye (parts : BearParts) (i : nat) : bool :=
  match eyes parts with
  | Some es => bool_decide (i ∈ es)
  | None => false
  end.

(** [bearParts.nose === child] *)
Definition isNose (parts : BearParts) (i : nat) : bool :=
  bool_decide (nose parts = Some i).

(** The callback of [updateBearSkin].  [i] identifies [child].  The
    [needsUpdate] request to the renderer is not represented. *)
Definition skinCallback (parts : BearParts) (skinName : string)
    (i : nat) (child : Node) (h : Materials) : Node * Materials :=
  match child with
  | Mesh nm r cnt =>
      if negb (isEye parts i) && negb (isNose parts i) then
        let '(r', h') := ownMaterial UserData.isCloned UserData.set_isCloned r h in
        (Mesh nm r' cnt, alter (Material.set_map (Some skinName)) r' h')
      else (child, h)
  | Group _ => (child, h)
  end.

(** [updateBearSkin(skinName)] *)
Definition updateBearSkin (skinName : string) (w : World) : World :=
  match textures !! skinName, bear w with
  | Some _, Some b =>
      let '(ns, h) := traverseFrom 0 (skinCallback (bearParts w) skinName)
                        (nodes b) (materials w) in
      let w1 := set_materials h (set_bear (Some (set_nodes ns b)) w) in
      set_state (set_skin skinName (state w1)) w1
  | _, _ => w
  end.

(** One mesh of [updatePartColor]: clone on first write, then
    [mesh.material.color.setHex(colorHex)]. *)
Definition colorMesh (flag : UserData.t -> bool) (setFlag : UserData.t -> UserData.t)
    (colorHex : Z) (acc : list Node * Materials) (i : nat) : list Node * Materials :=
  let '(ns, h) := acc in
  match ns !! i with
  | Some (Mesh nm r cnt) =>
      let '(r', h') := ownMaterial flag setFlag r h in
      (<[i := Mesh nm r' cnt]> ns, alter (Material.set_color colorHex) r' h')
  | _ => (ns, h)
  end.

Definition bearNodes (w : World) : list Node :=
  match bear w with Some b => nodes b | None => [] end.

(** The material shown by the [i]-th node of the bear. *)
Definition surface (w : World) (i : nat) : option Material.t :=
  n ← bearNodes w !! i; nodeMaterial (materials w) n.

Definition set_bearNodes (ns : list Node) (w : World) : World :=
  match bear w with
  | Some b => set_bear (Some (set_nodes ns b)) w
  | None => w
  end.

(** [updatePartColor(part, colorHex)] *)
Definition updatePartColor (part : string) (colorHex : Z) (w : World) : World :=
  if String.eqb part "eyes" then
    match eyes (bearParts w) with
    | None | Some [] => w
    | Some eyeMeshes =>
        let '(ns, h) :=
          foldl (colorMesh UserData.isEyeCloned UserData.set_isEyeCloned colorHex)
                (bearNodes w, materials w) eyeMeshes in
        let w1 := set_materials h (set_bearNodes ns w) in
        set_state (set_eyeColor colorHex (state w1)) w1
    end
  else if String.eqb part "nose" then
    match nose (bearParts w) with
    | None => w
    | Some noseMesh =>
        let '(ns, h) :=
          colorMesh UserData.isNoseCloned UserData.set_isNoseCloned colorHex
                    (bearNodes w, materials w) noseMesh in
        let w1 := set_materials h (set_bearNodes ns w) in
        set_state (set_noseColor colorHex (state w1)) w1
    end
  else w.

(** The callback of [updateAccessoryColor]. *)
Definition accessoryCallback (colorHex : Z) (child : Node) (h : Materials)
    : Node * Materials :=
  match child with
  | Mesh _ r _ => (child, alter (Material.set_color colorHex) r h)
  | Group _ => (child, h)
  end.

(** [updateAccessoryColor(name, colorHex)] *)
Definition updateAccessoryColor (name : string) (colorHex : Z) (w : World) : World :=
  match accessories w !! name with
  | None => w
  | Some accessory =>
      let '(ns, h) := traverse (accessoryCallback colorHex) (nodes accessory) (materials w) in
      set_materials h (set_accessories (<[name := set_nodes ns accessory]> (accessories w)) w)
  end.

(** [updateAccessoryColorSection()]; the section is taken to be in the
    page. *)
Definition updateAccessoryColorSection (w : World) : World :=
  let hasAccessory :=
    negb (String.eqb (currentHat (state w)) "none") || scarfVisible (state w) in
  set_dom (mkDom (disabled (dom w)) (loadingIndicator (dom w)) hasAccessory) w.

(** [if (accessories[k]) accessories[k].visible = v] *)
Definition setVisible (k : string) (v : bool) (w : World) : World :=
  set_accessories (alter (set_visible v) k (accessories w)) w.

(** [updateHat(hatType)] *)
Definition updateHat (hatType : string) (w : World) : World :=
  let w1 := setVisible "hat" false w in
  let w2 := setVisible "beanie" false w1 in
  let w3 :=
    if negb (String.eqb hatType "none") && bool_decide (is_Some (accessories w2 !! hatType))
    then updateAccessoryColor hatType (currentAccessoryColor (state w2))
           (setVisible hatType true w2)
    else w2 in
  updateAccessoryColorSection (set_state (set_currentHat hatType (state w3)) w3).

(** [toggleScarf(visible)] *)
Definition toggleScarf (v : bool) (w : World) : World :=
  let w1 :=
    match accessories w !! "scarf" with
    | Some _ =>
        let w0 := setVisible "scarf" v w in
        if v then updateAccessoryColor "scarf" (currentAccessoryColor (state w0)) w0
        else w0
    | None => w
    end in
  updateAccessoryColorSection (set_state (set_scarfVisible v (state w1)) w1).

(** [updateCurrentAccessoryColor(colorHex)] *)
Definition updateCurrentAccessoryColor (colorHex : Z) (w : World) : World :=
  let w1 := set_state (set_currentAccessoryColor colorHex (state w)) w in
  let w2 :=
    if negb (String.eqb (currentHat (state w1)) "none")
    then updateAccessoryColor (currentHat (state w1)) colorHex w1
    else w1 in
  if scarfVisible (state w2) then updateAccessoryColor "scarf" colorHex w2 else w2.

(** The six assignments to [state] at the head of [resetAll()]: the
    program's reset of its configuration state. *)
Definition resetState (w : World) : World := set_state defaults w.

(** [resetAll()].  The "active" markers, the radio button and the check
    box of the page are not represented. *)
Definition resetAll (w : World) : World :=
  let w0 := resetState w in
  let w1 := updateBearSkin (skin defaults) w0 in
  let w2 := updatePartColor "eyes" (eyeColor defaults) w1 in
  let w3 := updatePartColor "nose" (noseColor defaults) w2 in
  let w4 := updateHat "none" w3 in
  let w5 := toggleScarf false w4 in
  let w6 := updateCurrentAccessoryColor (currentAccessoryColor defaults) w5 in
  updateAccessoryColorSection w6.

(** One step of the traversal in [loadBear] that fills [bearParts]. *)
Definition findPart (ns : list Node) (parts : BearParts) (ic : nat * Node) : BearParts :=
  match ic with
  | (_, Group _) => parts
  | (i, Mesh nm _ cnt) =>
      let name := JS.toLowerCase nm in
      if JS.includes name "nose" then mkParts (body parts) (eyes parts) (Some i)
      else if JS.includes name "eye" then
        mkParts (body parts) (Some (default [] (eyes parts) ++ [i])) (nose parts)
      else
        match body parts with
        | None => mkParts (Some i) (eyes parts) (nose parts)
        | Some j =>
            match ns !! j with
            | Some (Mesh _ _ cntBody) =>
                if (cntBody <? cnt)%nat then mkParts (Some i) (eyes parts) (nose parts)
                else parts
            | _ => parts
            end
        end
  end.

(** The completion callback of [loadBear()].  Rotation, centring, scaling
    and the shadow flags are not represented. *)
Definition onBearLoaded (g : GLTF.Gltf) (w : World) : World :=
  let b := GLTF.install (length (materials w)) g in
  let parts := foldl (findPart (nodes b)) (bearParts w) (imap pair (nodes b)) in
  let w1 := mkWorld (materials w ++ GLTF.fileMaterials g) (Some b) parts
              (accessories w) (state w) (loadingStatus w) (dom w) in
  let w2 := updateBearSkin (skin (state w1)) w1 in
  let w3 := updatePartColor "eyes" (eyeColor (state w2)) w2 in
  let w4 := updatePartColor "nose" (noseColor (state w3)) w3 in
  let w5 := set_loadingStatus (<["bear" := true]> (loadingStatus w4)) w4 in
  (checkAllLoaded w5).2.

(** One row of the [positions] table of [loadAccessory]. *)
Definition positions : gmap string (Vector3 * Q) :=
  {[ "hat" := (vec3 0 1.96 (-0.1), 1%Q);
     "beanie" := (vec3 0.22 1.75 (-0.1), 1%Q);
     "scarf" := (vec3 0 1.15 0.125, 0.85%Q) ]}.

(** [child.material = new THREE.MeshStandardMaterial({ color: ... })] for
    every mesh of a loaded accessory. *)
Definition freshMaterial (child : Node) (h : Materials) : Node * Materials :=
  match child with
  | Mesh nm _ cnt => (Mesh nm (length h) cnt,
                      h ++ [MeshStandardMaterial (currentAccessoryColor defaults)])
  | Group _ => (child, h)
  end.

(** The completion callback of [loadAccessory(name, path)].  The rotation
    is not represented. *)
Definition onAccessoryLoaded (name : string) (g : GLTF.Gltf) (w : World) : World :=
  let pos := default (vec3 0 1.5 0, 0.5%Q) (positions !! name) in
  let '(ns, h) := traverse freshMaterial (nodes (GLTF.scene g)) (materials w) in
  let accessory := mkObject false pos.1 (setScalar pos.2) ns in
  let w1 := set_materials h (set_accessories (<[name := accessory]> (accessories w)) w) in
  let w2 := set_loadingStatus (<[name := true]> (loadingStatus w1)) w1 in
  (checkAllLoaded w2).2.

(** The script's top level: state and tables are created and every
    control of the page is disabled before the loads are requested.  An
    accessory that is still [null] is an absent key. *)
Definition init (page : Dom) : World :=
  mkWorld [] None (mkParts None None None) ∅ defaults
    {[ "bear" := false; "hat" := false; "beanie" := false; "scarf" := false ]}
    (setDisabled true page).

(** The callback given to [setTimeout(..., 3000)]. *)
Definition onTimeout (w : World) : World :=
  let '(all, w1) := checkAllLoaded w in
  if negb all then set_dom (hideLoadingIndicator (setDisabled false (dom w1))) w1
  else w1.

(** What can happen after [init]: loads complete, the timer fires, the
    user operates a control. *)
Inductive Event :=
| BearLoaded (g : GLTF.Gltf)
| AccessoryLoaded (name : string) (g : GLTF.Gltf)
| Timeout
| SkinClick (skinName : string)
| PartClick (part : string) (colorHex : Z)
| HatChange (hatType : string)
| ScarfChange (checked : bool)
| AccessoryColorClick (colorHex : Z)
| ResetAllClick.

Definition handle (e : Event) (w : World) : World :=
  match e with
  | BearLoaded g => onBearLoaded g w
  | AccessoryLoaded name g => onAccessoryLoaded name g w
  | Timeout => onTimeout w
  | SkinClick s => updateBearSkin s w
  | PartClick p c => updatePartColor p c w
  | HatChange v => updateHat v w
  | ScarfChange v => toggleScarf v w
  | AccessoryColorClick c => updateCurrentAccessoryColor c w
  | ResetAllClick => resetAll w
  end.

Definition run (es : list Event) (w : World) : World :=
  foldl (λ w e, handle e w) w es.

End Skins.

(** ** Sample assets and states *)

Module Sample.

Definition fur : Material.t := Material.mk "Fur" 0xFFFFFF%Z None UserData.empty.
Definition eyeBlack : Material.t := Material.mk "EyeBlack" 0x000000%Z None UserData.empty.

(** A bear whose body and head meshes share one material, and whose eyes
    and nose share the "EyeBlack" material. *)
Definition bear : GLTF.Gltf :=
  GLTF.mkGltf
    (mkObject true (vec3 0 0 0) (vec3 1 1 1)
       [Group "Scene"; Mesh "Body" 0 1200; Mesh "Head" 0 800;
        Mesh "EyeLeft" 1 60; Mesh "EyeRight" 1 60; Mesh "Nose" 1 40])
    [fur; eyeBlack].

(** The second part of [script.js] once the sitting bear has arrived and
    the other requests are still pending. *)
Definition sittingOnly : App.t := Loader.run [Loader.Loaded Loader.sitting bear] App.new.

(** The first part of [script.js] after [loadAssets()]: the placeholder
    cube is the current bear and no variant is registered. *)
Definition placeholder : Scene.t := Draft.addPlaceholder Scene.new.

(** A scene for the first part of [script.js] as its commented-out load
    would leave it: the sitting bear is registered, current and shown. *)
Definition draftBear : Scene.t :=
  Scene.mk [Material.set_color 0x8B4513%Z fur; eyeBlack]
           [set_visible true (GLTF.scene bear)]
           {[ "sitting" := 0 ]} ∅ (Some 0).


(** A page with three controls and a loading indicator. *)
Definition page : Skins.Dom := Skins.mkDom [false; false; false] (Some false) false.

Definition topHat : GLTF.Gltf :=
  GLTF.mkGltf
    (mkObject true (vec3 0 0 0) (vec3 1 1 1)
       [Group "TopHat"; Mesh "Brim" 0 96; Mesh "Crown" 0 128])
    [Material.mk "Felt" 0x111111%Z None UserData.empty].

Definition scarf : GLTF.Gltf :=
  GLTF.mkGltf
    (mkObject true (vec3 0 0 0) (vec3 1 1 1) [Mesh "Scarf" 0 300])
    [Material.mk "Wool" 0xAA0000%Z None UserData.empty].

(** The textured bear's page once the bear, the top hat and the scarf
    have loaded and the user has picked an accessory colour. *)
Definition dressed : Skins.World :=
  Skins.run [Skins.BearLoaded bear; Skins.AccessoryLoaded "hat" topHat;
             Skins.AccessoryLoaded "scarf" scarf;
             Skins.AccessoryColorClick 0x4169E1%Z]
            (Skins.init page).

(** The same after the user has chosen the top hat. *)
Definition hatOn : Skins.World := Skins.updateHat "hat" dressed.

(** The second part of [script.js] after some use: the hat is ticked,
    the standing form and the pink fur are chosen. *)
Definition configured : App.t :=
  Loader.run [Loader.UI (AccessoryChange "hat" true);
              Loader.UI (FormClick "standing");
              Loader.UI (ColorClick "pink")] sittingOnly.

End Sample.

(** * Vocabulary of the properties *)

(** ** Form switching *)

(** Every registered reference points at a loaded model. *)
Definition registryValid (s : Scene.t) : Prop :=
  ∀ k r, Scene.bearModels s !! k = Some r -> r < length (Scene.objects s).

(** The current bear is the one visible registered variant. *)
Definition oneVisible (s : Scene.t) (b : nat) : Prop :=
  Scene.currentBear s = Some b ∧ Scene.visibleVariants s = [b].

(** ** Accessories *)

(** The two hat-like accessories. *)
Definition hatGroup : list string := ["hat"; "beanie"].

(** Every mesh of the object carries the colour [c]. *)
Definition carriesColor (h : Materials) (o : Object3D) (c : Z) : Prop :=
  ∀ nm r cnt, Mesh nm r cnt ∈ nodes o -> Material.color <$> h !! r = Some c.

(** Every mesh in the list refers to a material below [k]. *)
Definition meshRefsBelow (k : nat) (ns : list Node) : bool :=
  forallb (λ n, match n with Mesh _ r _ => (r <? k)%nat | Group _ => true end) ns.

(** Every mesh of the object has its material in the store. *)
Definition materialsPresent (h : Materials) (o : Object3D) : Prop :=
  meshRefsBelow (length h) (nodes o) = true.

(** [w'] has at least the materials of [w], and its accessories are
    accessories of [w] with the same meshes. *)
Definition extends (w w' : Skins.World) : Prop :=
  length (Skins.materials w) ≤ length (Skins.materials w') ∧
  ∀ name o', Skins.accessories w' !! name = Some o' ->
    ∃ o, Skins.accessories w !! name = Some o ∧ nodes o' = nodes o.

(** Every mesh of every loaded accessory has its material in the store. *)
Definition accessoriesPresent (w : Skins.World) : Prop :=
  ∀ name o, Skins.accessories w !! name = Some o ->
    materialsPresent (Skins.materials w) o.

(** ** Configuration state *)

(** The flag object of [CONFIG.defaultState] still holds the defaults. *)
Definition configIntact (fl : Config.Flags) : Prop :=
  fl !! Config.accessories Config.defaultState = Some Config.defaultAccessories.

(** The defaults in [CONFIG] are intact and the state's flag object is
    not the one of [CONFIG]. *)
Definition flagsOwned (a : App.t) : Prop :=
  configIntact (App.flags a) ∧
  BearState.accessories (App.bearState a) ≠ Config.accessories Config.defaultState.

(** ** Materials and the meshes that show them *)

(** One run of a traversal callback, seen on the whole node list: the node
    at position [i] is handed to the callback and replaced by its result. *)
Definition stepAt (f : nat -> Node -> Materials -> Node * Materials)
    (acc : list Node * Materials) (i : nat) : list Node * Materials :=
  match acc.1 !! i with
  | Some n => let '(n', h') := f i n acc.2 in (<[i := n']> acc.1, h')
  | None => acc
  end.

(** The material shown by the [j]-th node. *)
Definition shown (acc : list Node * Materials) (j : nat) : option Material.t :=
  n ← acc.1 !! j; nodeMaterial acc.2 n.

(** The material carries one of the program's clone marks. *)
Definition flagged (m : Material.t) : bool :=
  UserData.isCloned (Material.userData m) ||
  UserData.isEyeCloned (Material.userData m) ||
  UserData.isNoseCloned (Material.userData m).

(** Every mesh has its material in the store. *)
Definition wellFormed (acc : list Node * Materials) : Prop :=
  ∀ i nm r cnt, acc.1 !! i = Some (Mesh nm r cnt) -> r < length acc.2.

(** A material that two meshes share carries no clone mark: marked
    materials are private to one mesh. *)
Definition unshared (acc : list Node * Materials) : Prop :=
  ∀ i j nm r cnt nm' cnt' m,
    i ≠ j ->
    acc.1 !! i = Some (Mesh nm r cnt) -> acc.1 !! j = Some (Mesh nm' r cnt') ->
    acc.2 !! r = Some m -> flagged m = false.

Definition ownsClones (acc : list Node * Materials) : Prop :=
  wellFormed acc ∧ unshared acc.

(** What one callback run of a recolouring operation does to the meshes
    and the material store: nothing; or a write to the material of mesh
    [i], which is already marked; or a marked copy of it appended to the
    store, to which mesh [i] is rebound.  [P] records which materials
    the operation selects. *)
Inductive Touch (P : Material.t -> Prop) (i : nat) :
    list Node * Materials -> list Node * Materials -> Prop :=
| touch_none acc : Touch P i acc acc
| touch_write ns h nm r cnt m m' :
    ns !! i = Some (Mesh nm r cnt) -> h !! r = Some m -> P m ->
    flagged m = true ->
    Material.name m' = Material.name m ->
    Material.userData m' = Material.userData m ->
    Touch P i (ns, h) (ns, <[r := m']> h)
| touch_clone ns h nm r cnt m m' :
    ns !! i = Some (Mesh nm r cnt) -> h !! r = Some m -> P m ->
    flagged m' = true ->
    Material.name m' = Material.name m ->
    Touch P i (ns, h) (<[i := Mesh nm (length h) cnt]> ns, h ++ [m']).

(** The bear of the textured program, as a node list with its store. *)
Definition bearScene (w : Skins.World) : list Node * Materials :=
  (Skins.bearNodes w, Skins.materials w).

(** A file whose meshes refer to materials of the file and whose
    materials carry no clone mark. *)
Definition cleanGltf (g : GLTF.Gltf) : bool :=
  meshRefsBelow (length (GLTF.fileMaterials g)) (nodes (GLTF.scene g)) &&
  forallb (λ m, negb (flagged m)) (GLTF.fileMaterials g).

Definition cleanEvent (e : Skins.Event) : bool :=
  match e with
  | Skins.BearLoaded g => cleanGltf g
  | _ => true
  end.

(** ** Placement of the accessories *)

(** [if (this.accessories[k]) { ... }] on the object list, for the
    reference [a] that the key holds. *)
Definition placeObjs (a : option nat) (f : Object3D -> Object3D)
    (os : list Object3D) : list Object3D :=
  match a with Some a => alter f a os | None => os end.

(** The objects after [repositionAccessories(formName)]. *)
Definition reposObjs (F : string) (ac : gmap string nat) (os : list Object3D)
    : list Object3D :=
  match Forms.positions !! F with
  | None => os
  | Some pos =>
      placeObjs (ac !! "scarf")
        (λ o, set_scale (setScalar (Forms.scarf_scale pos))
                (set_position (Forms.set_y (Forms.scarf_y pos) (position o)) o))
        (placeObjs (ac !! "bow")
           (λ o, set_scale (setScalar (Forms.bow_scale pos))
                   (set_position (vec3 (Forms.bow_x pos) (Forms.bow_y pos) 0) o))
           (placeObjs (ac !! "hat")
              (λ o, set_scale (setScalar (Forms.hat_scale pos))
                      (set_position (Forms.set_y (Forms.hat_y pos) (position o)) o))
              os))
  end.


(** ** Further sample states *)

(** The second part of [script.js] once the sitting and the standing
    bear have arrived. *)
Definition twoForms : App.t :=
  Loader.run [Loader.Loaded Loader.sitting Sample.bear;
              Loader.Loaded Loader.standing Sample.bear] App.new.

(** ** Writes to the material a mesh shows *)

(** Clone on first write followed by the write [upd], for the mesh at
    position [i] of the node list. *)
Definition ownWrite (flag : UserData.t -> bool) (setFlag : UserData.t -> UserData.t)
    (upd : Material.t -> Material.t) (acc : list Node * Materials)
    (i : nat) (nm : string) (r cnt : nat) : list Node * Materials :=
  let '(r', h') := ownMaterial flag setFlag r acc.2 in
  (<[i := Mesh nm r' cnt]> acc.1, alter upd r' h').

(** ** Accessories of the textured bear, across a run *)

(** The hat and the beanie are not both shown. *)
Definition hatsExclusive (acc : gmap string Object3D) : Prop :=
  ∀ oh ob, acc !! "hat" = Some oh -> acc !! "beanie" = Some ob ->
    visible oh && visible ob = false.

(** A session in which the hat, the beanie and the scarf have arrived and
    the user has chosen the hat and then the beanie. *)
Definition twoHats : Skins.World :=
  Skins.run [Skins.AccessoryLoaded "hat" Sample.topHat;
             Skins.AccessoryLoaded "beanie" Sample.topHat;
             Skins.AccessoryLoaded "scarf" Sample.scarf;
             Skins.HatChange "hat"; Skins.ScarfChange true; Skins.HatChange "beanie"]
            (Skins.init Sample.page).

(** The accessory colour section is displayed exactly when a hat is
    selected or the scarf is switched on. *)
Definition sectionTracks (w : Skins.World) : Prop :=
  Skins.accessoryColorSection (Skins.dom w) =
  negb (String.eqb (Skins.currentHat (Skins.state w)) "none")
  || Skins.scarfVisible (Skins.state w).

(** ** Loading and the controls of the textured bear's page *)

(** The keys [loadingStatus] starts with. *)
Definition awaited : list string := ["bear"; "hat"; "beanie"; "scarf"].

(** Does the event complete the load recorded under [k]? *)
Definition arrives (k : string) (e : Skins.Event) : bool :=
  match e with
  | Skins.BearLoaded _ => String.eqb k "bear"
  | Skins.AccessoryLoaded name _ => String.eqb k name
  | _ => false
  end.

(** Have the bear, the hat, the beanie and the scarf all arrived? *)
Definition allArrived (es : list Skins.Event) : bool :=
  forallb (λ k, existsb (arrives k) es) awaited.

Definition isTimeout (e : Skins.Event) : bool :=
  match e with Skins.Timeout => true | _ => false end.

(** Has the fallback timer fired? *)
Definition timerFired (es : list Skins.Event) : bool := existsb isTimeout es.

(** ** The parts of the bear found at load time *)

(** [name.includes('nose')] on the lower-cased mesh name. *)
Definition noseName (nm : string) : bool := JS.includes (JS.toLowerCase nm) "nose".

(** The second branch of the search: not a nose, and
    [name.includes('eye')]. *)
Definition eyeName (nm : string) : bool :=
  negb (noseName nm) && JS.includes (JS.toLowerCase nm) "eye".

(** What the search has found after the first [k] nodes of [ns]. *)
Definition partsFound (ns : list Node) (k : nat) (parts : Skins.BearParts) : Prop :=
  (∀ i, Skins.isEye parts i = true ↔
        i < k ∧ ∃ nm r cnt, ns !! i = Some (Mesh nm r cnt) ∧ eyeName nm = true) ∧
  (∀ i, Skins.nose parts = Some i ↔
        i < k ∧ (∃ nm r cnt, ns !! i = Some (Mesh nm r cnt) ∧ noseName nm = true) ∧
        ∀ i' nm r cnt, i < i' < k -> ns !! i' = Some (Mesh nm r cnt) -> noseName nm = false) ∧
  (∀ i, Skins.body parts = Some i ->
        i < k ∧ ∃ nm r cnt, ns !! i = Some (Mesh nm r cnt) ∧
          noseName nm = false ∧ eyeName nm = false ∧
          ∀ i' nm' r' cnt', i' < k -> ns !! i' = Some (Mesh nm' r' cnt') ->
            noseName nm' = false -> eyeName nm' = false -> cnt' ≤ cnt) ∧
  (Skins.body parts = None ->
   ∀ i' nm' r' cnt', i' < k -> ns !! i' = Some (Mesh nm' r' cnt') ->
     noseName nm' = false -> eyeName nm' = false -> False).

(** ** The colour of the accessories that are shown *)

(** The values of the page's hat selector. *)
Definition hatValues : list string := ["hat"; "beanie"; "none"].

(** A hat selection made on the page chooses among those values. *)
Definition pageEvent (e : Skins.Event) : bool :=
  match e with
  | Skins.HatChange v => bool_decide (v ∈ hatValues)
  | _ => true
  end.

(** From store [h] to store [h'], a material without clone mark stays
    without one, and keeps the colour [c] if it had it. *)
Definition repaints (c : Z) (h h' : Materials) : Prop :=
  ∀ r m, h !! r = Some m -> flagged m = false ->
    ∃ m', h' !! r = Some m' ∧ flagged m' = false ∧
          (Material.color m = c -> Material.color m' = c).

(** Every accessory mesh has a material without clone mark. *)
Definition accessoryMaterials (w : Skins.World) : Prop :=
  ∀ name o nm r cnt, Skins.accessories w !! name = Some o -> Mesh nm r cnt ∈ nodes o ->
    ∃ m, Skins.materials w !! r = Some m ∧ flagged m = false.

(** The accessories that are shown are the selected ones, and they carry
    the selected colour. *)
Definition accessoriesCurrent (w : Skins.World) : Prop :=
  Skins.currentHat (Skins.state w) ∈ hatValues ∧
  accessoryMaterials w ∧
  ∀ name o, Skins.accessories w !! name = Some o -> visible o = true ->
    ((name = Skins.currentHat (Skins.state w) ∧ name ∈ hatGroup) ∨
     (name = "scarf" ∧ Skins.scarfVisible (Skins.state w) = true)) ∧
    carriesColor (Skins.materials w) o (Skins.currentAccessoryColor (Skins.state w)).

(** ** The models of the second part of [script.js], across a run *)

(** Is the object behind [r] in the list shown? *)
Definition shownIn (os : list Object3D) (r : nat) : bool :=
  match os !! r with Some o => visible o | None => false end.

(** Registered references point at loaded objects, and no object is both
    a bear variant and an accessory. *)
Definition refsValid (s : Scene.t) : Prop :=
  (∀ k r, Scene.bearModels s !! k = Some r -> r < length (Scene.objects s)) ∧
  (∀ k r, Scene.accessories s !! k = Some r -> r < length (Scene.objects s)) ∧
  (∀ k r k', Scene.bearModels s !! k = Some r -> Scene.accessories s !! k' ≠ Some r).

(** A registered variant that is shown is the current bear. *)
Definition onlyCurrentShown (s : Scene.t) : Prop :=
  ∀ k r, Scene.bearModels s !! k = Some r -> Scene.isVisible s r = true ->
    Scene.currentBear s = Some r.

(** Completion of the request for the sitting bear. *)
Definition isSittingLoad (e : Loader.Event) : bool :=
  match e with
  | Loader.Loaded Loader.sitting _ => true
  | _ => false
  end.

(** ** Recolouring by mesh name, first part of [script.js] *)

(** Does a mesh whose name satisfies [sel] refer to material [r]? *)
Definition usedBy (sel : string -> bool) (ns : list Node) (r : nat) : bool :=
  existsb (λ n, match n with
                | Mesh nm r' _ => sel nm && (r' =? r)%nat
                | Group _ => false
                end) ns.

(** ** Bear and accessories share no material *)

(** No material is referred to both by a mesh of the bear and by a mesh
    of an accessory. *)
Definition bearApart (w : Skins.World) : Prop :=
  ∀ j nm r cnt name o nm' cnt',
    Skins.bearNodes w !! j = Some (Mesh nm r cnt) ->
    Skins.accessories w !! name = Some o ->
    Mesh nm' r cnt' ∉ nodes o.

(** * Properties *)

(** ** Switching forms *)

Section SwitchBearForm.

Implicit Types (s : Scene.t) (F : string).

Lemma setVisible_bearModels r v s :
  Scene.bearModels (Scene.setVisible r v s) = Scene.bearModels s.
Proof. reflexivity. Qed.

Lemma setVisible_currentBear r v s :
  Scene.currentBear (Scene.setVisible r v s) = Scene.currentBear s.
Proof. reflexivity. Qed.

Lemma isVisible_setVisible r r' v s :
  Scene.isVisible (Scene.setVisible r v s) r' =
  if decide (r = r') then
    (if decide (r < length (Scene.objects s)) then v else false)
  else Scene.isVisible s r'.
Proof.
  unfold Scene.isVisible, Scene.setVisible; simpl.
  destruct (decide (r = r')) as [<-|Hne].
  - rewrite list_lookup_alter_eq.
    destruct (decide (r < length (Scene.objects s))) as [Hlt|Hge].
    + destruct (lookup_lt_is_Some_2 _ _ Hlt) as [o ->]. reflexivity.
    + rewrite lookup_ge_None_2 by lia. reflexivity.
  - rewrite list_lookup_alter_ne by done. reflexivity.
Qed.

(** What both versions of [switchBearForm] do for a form that is not in
    the registry: the current bear is hidden and nothing else happens. *)
Lemma Draft_switchBearForm_unregistered F s :
  Scene.bearModels s !! F = None ->
  Draft.switchBearForm F s =
  match Scene.currentBear s with
  | Some b => Scene.setVisible b false s
  | None => s
  end.
Proof.
  intros HF. unfold Draft.switchBearForm.
  destruct (Scene.currentBear s); simpl; rewrite HF; reflexivity.
Qed.

Lemma Forms_switchBearForm_unregistered F s :
  Scene.bearModels s !! F = None ->
  Forms.switchBearForm F s =
  match Scene.currentBear s with
  | Some b => Scene.setVisible b false s
  | None => s
  end.
Proof.
  intros HF. unfold Forms.switchBearForm.
  destruct (Scene.currentBear s); simpl; rewrite HF; reflexivity.
Qed.

End SwitchBearForm.

(** C2.  The specification has [switchBearForm] leave all state unchanged
    for a form with no registered variant: the visible variant stays
    visible and [currentBear] is unchanged.  The code hides the current
    bear first: with only the sitting bear loaded,
    [switchBearForm("standing")] keeps [currentBear] but hides the sitting
    bear, in the second part of [script.js]; in the first part it hides
    the placeholder cube. *)
Theorem switchBearForm_unregistered_hides_current :
  let s := App.sceneManager Sample.sittingOnly in
  let s' := Forms.switchBearForm "standing" s in
  let d := Sample.placeholder in
  let d' := Draft.switchBearForm "standing" d in
  (Scene.bearModels s !! "standing" = None ∧
   Scene.currentBear s = Some 0 ∧ Scene.isVisible s 0 = true ∧
   Scene.currentBear s' = Some 0 ∧ Scene.isVisible s' 0 = false ∧ s' ≠ s) ∧
  (Scene.bearModels d !! "standing" = None ∧
   Scene.currentBear d = Some 0 ∧ Scene.isVisible d 0 = true ∧
   Scene.currentBear d' = Some 0 ∧ Scene.isVisible d' 0 = false ∧ d' ≠ d).
Proof.
  repeat split; try (vm_compute; reflexivity).
  - intros E. apply (f_equal (λ s, Scene.isVisible s 0)) in E.
    vm_compute in E. discriminate.
  - intros E. apply (f_equal (λ s, Scene.isVisible s 0)) in E.
    vm_compute in E. discriminate.
Qed.

(** C3.  The specification has exactly one registered variant visible
    after any sequence of [switchBearForm] calls from a state with exactly
    one registered variant visible.  In the code, from the state with the
    sitting bear as the one visible variant, one call for a form that has
    not loaded leaves no variant visible. *)
Theorem switchBearForm_can_leave_no_variant_visible :
  let s := App.sceneManager Sample.sittingOnly in
  Scene.visibleVariants s = [0] ∧
  Scene.visibleVariants (foldl (λ s F, Forms.switchBearForm F s) s ["standing"]) = [] ∧
  Scene.visibleVariants Sample.draftBear = [0] ∧
  Scene.visibleVariants
    (foldl (λ s F, Draft.switchBearForm F s) Sample.draftBear ["standing"]) = [].
Proof. repeat split; vm_compute; reflexivity. Qed.

(** *** The invariant holds as long as every requested form is registered *)

Section OneVisible.

Implicit Types (s : Scene.t) (F : string).

Lemma nodup_all_eq (l : list nat) b :
  NoDup l -> b ∈ l -> (∀ r, r ∈ l -> r = b) -> l = [b].
Proof.
  intros Hnd Hb Hall. destruct l as [|a l]; [by apply elem_of_nil in Hb|].
  assert (a = b) as -> by (apply Hall; left).
  destruct l as [|c l]; [done|]. exfalso.
  assert (c = b) as -> by (apply Hall; right; left).
  apply NoDup_cons in Hnd as [Hnin _]. apply Hnin. left.
Qed.

Lemma visibleVariants_singleton s b :
  Scene.visibleVariants s = [b] ↔
  (∃ k, Scene.bearModels s !! k = Some b) ∧ Scene.isVisible s b = true ∧
  (∀ k r, Scene.bearModels s !! k = Some r -> Scene.isVisible s r = true -> r = b).
Proof.
  unfold Scene.visibleVariants. split.
  - intros E.
    assert (Hb : b ∈ filter (λ r, Scene.isVisible s r = true)
                       (elements (map_img (Scene.bearModels s) : gset nat)))
      by (rewrite E; left).
    apply list_elem_of_filter in Hb as [Hv Hb].
    apply elem_of_elements, elem_of_map_img in Hb.
    split; [done|]. split; [done|].
    intros k r Hk Hr.
    assert (Hin : r ∈ filter (λ r, Scene.isVisible s r = true)
                        (elements (map_img (Scene.bearModels s) : gset nat))).
    { apply list_elem_of_filter. split; [done|].
      apply elem_of_elements, elem_of_map_img. eauto. }
    rewrite E in Hin. by apply list_elem_of_singleton in Hin.
  - intros (Hreg & Hv & Hall). apply nodup_all_eq.
    + apply NoDup_filter, NoDup_elements.
    + apply list_elem_of_filter. split; [done|].
      by apply elem_of_elements, elem_of_map_img.
    + intros r Hr. apply list_elem_of_filter in Hr as [Hrv Hr].
      apply elem_of_elements, elem_of_map_img in Hr as [k Hk]. eauto.
Qed.

Lemma isVisible_placeAccessory k f s r :
  (∀ o, visible (f o) = visible o) ->
  Scene.isVisible (Forms.placeAccessory k f s) r = Scene.isVisible s r.
Proof.
  intros Hf. unfold Forms.placeAccessory, Scene.isVisible.
  destruct (Scene.accessories s !! k) as [a|]; [|done]. simpl.
  rewrite list_lookup_alter. case_decide; [subst|done].
  destruct (Scene.objects s !! r); simpl; [apply Hf|done].
Qed.

Lemma repositionAccessories_frame F s :
  Scene.bearModels (Forms.repositionAccessories F s) = Scene.bearModels s ∧
  Scene.currentBear (Forms.repositionAccessories F s) = Scene.currentBear s ∧
  length (Scene.objects (Forms.repositionAccessories F s)) = length (Scene.objects s) ∧
  ∀ r, Scene.isVisible (Forms.repositionAccessories F s) r = Scene.isVisible s r.
Proof.
  unfold Forms.repositionAccessories.
  destruct (Forms.positions !! F) as [pos|]; [|done].
  assert (Hpa : ∀ k f s0,
    Scene.bearModels (Forms.placeAccessory k f s0) = Scene.bearModels s0 ∧
    Scene.currentBear (Forms.placeAccessory k f s0) = Scene.currentBear s0 ∧
    length (Scene.objects (Forms.placeAccessory k f s0)) = length (Scene.objects s0)).
  { intros k f s0. unfold Forms.placeAccessory.
    destruct (Scene.accessories s0 !! k); simpl; [|done].
    by rewrite length_alter. }
  repeat split.
  - by rewrite !(proj1 (Hpa _ _ _)).
  - by rewrite !(proj1 (proj2 (Hpa _ _ _))).
  - by rewrite !(proj2 (proj2 (Hpa _ _ _))).
  - intros r. by rewrite !isVisible_placeAccessory.
Qed.

(** One call for a registered form hides the previous variant and shows
    the requested one. *)
Lemma switchBearForm_registered F s b nb :
  registryValid s -> oneVisible s b ->
  Scene.bearModels s !! F = Some nb ->
  registryValid (Forms.switchBearForm F s) ∧ oneVisible (Forms.switchBearForm F s) nb.
Proof.
  intros Hval [Hcur Hone] HF.
  apply visibleVariants_singleton in Hone as (Hreg & Hvb & Hall).
  unfold Forms.switchBearForm. rewrite Hcur. simpl. rewrite HF.
  set (s2 := Scene.set_currentBear (Some nb)
               (Scene.setVisible nb true (Scene.setVisible b false s))).
  destruct (repositionAccessories_frame F s2) as (Hbm & Hcb & Hlen & Hvis).
  assert (Hnb : nb < length (Scene.objects s)) by eauto.
  assert (Hvis2 : ∀ r, Scene.isVisible s2 r =
            if decide (nb = r) then true
            else if decide (b = r) then false else Scene.isVisible s r).
  { intros r. unfold s2.
    change (Scene.isVisible (Scene.set_currentBear ?c ?t) r) with (Scene.isVisible t r).
    rewrite isVisible_setVisible.
    destruct (decide (nb = r)) as [->|Hne].
    - rewrite decide_True; [done|].
      unfold Scene.setVisible; simpl. by rewrite length_alter.
    - rewrite isVisible_setVisible.
      destruct (decide (b = r)) as [->|]; [|done].
      by destruct (decide _). }
  split.
  - intros k r Hk. rewrite Hlen. rewrite Hbm in Hk.
    unfold s2, Scene.setVisible; simpl. rewrite !length_alter. eauto.
  - split; [by rewrite Hcb|].
    apply visibleVariants_singleton. rewrite Hbm. split; [eauto|]. split.
    + rewrite Hvis, Hvis2. by rewrite decide_True.
    + intros k r Hk. rewrite Hvis, Hvis2.
      destruct (decide (nb = r)); [done|].
      destruct (decide (b = r)); [done|].
      intros Hr. exfalso. apply (Hall k r Hk) in Hr. congruence.
Qed.

(** Any sequence of calls for registered forms keeps exactly one
    registered variant visible. *)
Lemma switchBearForm_registered_sequence (Fs : list string) s b :
  registryValid s -> oneVisible s b ->
  Forall (λ F, is_Some (Scene.bearModels s !! F)) Fs ->
  ∃ b', oneVisible (foldl (λ s F, Forms.switchBearForm F s) s Fs) b'.
Proof.
  revert s b. induction Fs as [|F Fs IH]; intros s b Hval Hone HFs; simpl.
  - eauto.
  - apply Forall_cons in HFs as [[nb HF] HFs].
    destruct (switchBearForm_registered F s b nb Hval Hone HF) as [Hval' Hone'].
    apply (IH _ nb Hval' Hone').
    assert (Hbm : Scene.bearModels (Forms.switchBearForm F s) = Scene.bearModels s).
    { unfold Forms.switchBearForm. destruct (Scene.currentBear s); simpl; rewrite HF;
        by rewrite (proj1 (repositionAccessories_frame _ _)). }
    by rewrite Hbm.
Qed.

End OneVisible.

(** ** Accessories of the textured bear *)

Section Accessories.

Import Skins.

Implicit Types (w : World) (h : Materials) (ns : list Node).

Lemma set_nodes_id (o : Object3D) : set_nodes (nodes o) o = o.
Proof. by destruct o. Qed.

(** The traversal of [updateAccessoryColor] rebinds no material and
    writes the colour into the material of every mesh it meets. *)
Lemma accessory_traverse_nodes c k ns h :
  (traverseFrom k (λ _, accessoryCallback c) ns h).1 = ns.
Proof.
  revert k h. induction ns as [|n ns IH]; intros k h; simpl; [done|].
  destruct n as [nm|nm r cnt]; simpl.
  - specialize (IH (S k) h).
    destruct (traverseFrom (S k) _ ns h) as [ns' h']. simpl in *. by rewrite IH.
  - specialize (IH (S k) (alter (Material.set_color c) r h)).
    destruct (traverseFrom (S k) _ ns _) as [ns' h']. simpl in *. by rewrite IH.
Qed.

Lemma accessory_traverse_length c k ns h :
  length (traverseFrom k (λ _, accessoryCallback c) ns h).2 = length h.
Proof.
  revert k h. induction ns as [|n ns IH]; intros k h; simpl; [done|].
  destruct n as [nm|nm r cnt]; simpl.
  - specialize (IH (S k) h).
    by destruct (traverseFrom (S k) _ ns h) as [ns' h'].
  - specialize (IH (S k) (alter (Material.set_color c) r h)).
    rewrite length_alter in IH.
    by destruct (traverseFrom (S k) _ ns _) as [ns' h'].
Qed.

Lemma accessory_traverse_keeps c k ns h r :
  Material.color <$> h !! r = Some c ->
  Material.color <$> (traverseFrom k (λ _, accessoryCallback c) ns h).2 !! r = Some c.
Proof.
  revert k h. induction ns as [|n ns IH]; intros k h Hr; simpl; [done|].
  destruct n as [nm|nm r0 cnt]; simpl.
  - specialize (IH (S k) h Hr).
    by destruct (traverseFrom (S k) _ ns h) as [ns' h'].
  - assert (Hr' : Material.color <$> alter (Material.set_color c) r0 h !! r = Some c).
    { rewrite list_lookup_alter. case_decide; [subst|done].
      destruct (h !! r); [done|discriminate]. }
    specialize (IH (S k) _ Hr').
    by destruct (traverseFrom (S k) _ ns _) as [ns' h'].
Qed.

Lemma accessory_traverse_colors c k ns h nm r cnt :
  Mesh nm r cnt ∈ ns -> r < length h ->
  Material.color <$> (traverseFrom k (λ _, accessoryCallback c) ns h).2 !! r = Some c.
Proof.
  revert k h. induction ns as [|n ns IH]; intros k h Hin Hr; simpl.
  - by apply elem_of_nil in Hin.
  - apply elem_of_cons in Hin as [<-|Hin]; simpl.
    + pose proof (accessory_traverse_keeps c (S k) ns
                    (alter (Material.set_color c) r h) r) as Hk.
      destruct (traverseFrom (S k) _ ns _) as [ns' h']. simpl in *.
      apply Hk. rewrite list_lookup_alter_eq.
      by destruct (lookup_lt_is_Some_2 h r Hr) as [m ->].
    + destruct n as [nm0|nm0 r0 cnt0]; simpl.
      * specialize (IH (S k) h Hin Hr).
        by destruct (traverseFrom (S k) _ ns h) as [ns' h'].
      * specialize (IH (S k) (alter (Material.set_color c) r0 h) Hin).
        rewrite length_alter in IH. specialize (IH Hr).
        by destruct (traverseFrom (S k) _ ns _) as [ns' h'].
Qed.

(** [updateAccessoryColor] only writes to the material store. *)
Lemma updateAccessoryColor_eq name c w :
  updateAccessoryColor name c w =
  set_materials
    (match accessories w !! name with
     | Some a => (traverse (accessoryCallback c) (nodes a) (materials w)).2
     | None => materials w
     end) w.
Proof.
  unfold updateAccessoryColor.
  destruct (accessories w !! name) as [a|] eqn:Ha; [|by destruct w].
  pose proof (accessory_traverse_nodes c 0 (nodes a) (materials w)) as Hn.
  unfold traverse.
  destruct (traverseFrom 0 _ (nodes a) (materials w)) as [ns h]. simpl in *. subst ns.
  rewrite set_nodes_id, insert_id by done. by destruct w.
Qed.

Lemma updateAccessoryColor_accessories name c w :
  accessories (updateAccessoryColor name c w) = accessories w.
Proof. by rewrite updateAccessoryColor_eq. Qed.

Lemma updateAccessoryColor_state name c w :
  state (updateAccessoryColor name c w) = state w.
Proof. by rewrite updateAccessoryColor_eq. Qed.

Lemma updateAccessoryColor_dom name c w :
  dom (updateAccessoryColor name c w) = dom w.
Proof. by rewrite updateAccessoryColor_eq. Qed.

(** The accessories and the state after [updateHat]. *)
Lemma updateHat_accessories hatType w :
  accessories (updateHat hatType w) =
  let hidden := alter (set_visible false) "beanie"
                  (alter (set_visible false) "hat" (accessories w)) in
  if negb (String.eqb hatType "none") && bool_decide (is_Some (hidden !! hatType))
  then alter (set_visible true) hatType hidden
  else hidden.
Proof.
  unfold updateHat. simpl.
  destruct (negb (String.eqb hatType "none") && _); simpl; [|done].
  by rewrite updateAccessoryColor_accessories.
Qed.

Lemma updateHat_state hatType w :
  state (updateHat hatType w) = set_currentHat hatType (state w).
Proof.
  unfold updateHat. simpl.
  destruct (negb (String.eqb hatType "none") && _); simpl; [|done].
  by rewrite updateAccessoryColor_state.
Qed.

Lemma toggleScarf_state v w :
  state (toggleScarf v w) = set_scarfVisible v (state w).
Proof.
  unfold toggleScarf. simpl.
  destruct (accessories w !! "scarf"); simpl; [|done].
  destruct v; [|done]. by rewrite updateAccessoryColor_state.
Qed.

Lemma toggleScarf_accessories v w :
  accessories (toggleScarf v w) = alter (set_visible v) "scarf" (accessories w).
Proof.
  unfold toggleScarf. simpl.
  destruct (accessories w !! "scarf") eqn:Hs; simpl.
  - destruct v; [|done]. by rewrite updateAccessoryColor_accessories.
  - apply map_eq. intros k. rewrite lookup_alter. case_decide; [subst|done].
    by rewrite Hs.
Qed.

End Accessories.

Lemma meshRefsBelow_spec k ns nm r cnt :
  meshRefsBelow k ns = true -> Mesh nm r cnt ∈ ns -> r < k.
Proof.
  unfold meshRefsBelow. rewrite forallb_forall. intros Hall Hin.
  apply list_elem_of_In in Hin. specialize (Hall _ Hin). cbn in Hall.
  by apply Nat.ltb_lt in Hall.
Qed.

(** C6: for every member [A] of the hat group and every prior state, after
    [updateHat(A)] every other loaded member of the group is hidden. *)
Theorem updateHat_hides_other_hats (w : Skins.World) (A B : string) (o : Object3D) :
  A ∈ hatGroup -> B ∈ hatGroup -> B ≠ A ->
  Skins.accessories (Skins.updateHat A w) !! B = Some o ->
  visible o = false.
Proof.
  intros HA HB Hne. rewrite updateHat_accessories. simpl.
  set (hidden := alter (set_visible false) "beanie"
                   (alter (set_visible false) "hat" (Skins.accessories w))).
  assert (Hhid : ∀ o', hidden !! B = Some o' -> visible o' = false).
  { intros o'. unfold hidden, hatGroup in *.
    apply elem_of_cons in HB as [->|HB].
    - rewrite lookup_alter_ne by done. rewrite lookup_alter_eq.
      destruct (Skins.accessories w !! "hat"); simpl; [|done].
      by intros [= <-].
    - apply list_elem_of_singleton in HB as ->. rewrite lookup_alter_eq.
      destruct (alter _ "hat" _ !! "beanie"); simpl; [|done].
      by intros [= <-]. }
  destruct (negb (String.eqb A "none") && _).
  - rewrite lookup_alter_ne by done. apply Hhid.
  - apply Hhid.
Qed.

Lemma updateHat_hides_other_hats_witness :
  ∃ o, Skins.accessories (Skins.updateHat "beanie" Sample.hatOn) !! "hat" = Some o ∧
       visible o = false.
Proof.
  eexists. split.
  - vm_compute. reflexivity.
  - eapply (updateHat_hides_other_hats Sample.hatOn "beanie" "hat").
    + unfold hatGroup. right. left.
    + unfold hatGroup. left.
    + discriminate.
    + vm_compute. reflexivity.
Defined.

Section ShownAccessory.

Import Skins.

Implicit Types (w : World).

Lemma hatGroup_not_none A : A ∈ hatGroup -> String.eqb A "none" = false.
Proof.
  unfold hatGroup. intros HA.
  apply elem_of_cons in HA as [->|HA]; [done|].
  by apply list_elem_of_singleton in HA as ->.
Qed.

Lemma hidden_lookup (acc : gmap string Object3D) A o :
  acc !! A = Some o ->
  ∃ o', alter (set_visible false) "beanie" (alter (set_visible false) "hat" acc) !! A = Some o'
        ∧ nodes o' = nodes o.
Proof.
  intros HA. rewrite !lookup_alter.
  repeat case_decide; simplify_eq; rewrite ?HA; simpl; eauto.
Qed.

Lemma updateHat_shown A w o :
  A ∈ hatGroup -> accessories w !! A = Some o ->
  materialsPresent (materials w) o ->
  ∃ o', accessories (updateHat A w) !! A = Some o' ∧ visible o' = true ∧
        nodes o' = nodes o ∧
        carriesColor (materials (updateHat A w)) o' (currentAccessoryColor (state w)).
Proof.
  intros HA Ho Hpres.
  destruct (hidden_lookup _ _ _ Ho) as (oh & Hoh & Hnodes).
  rewrite updateHat_accessories. simpl.
  rewrite (hatGroup_not_none _ HA), Hoh. simpl.
  rewrite lookup_alter_eq, Hoh. simpl.
  eexists. split; [done|]. split; [done|]. split; [done|].
  rewrite updateAccessoryColor_eq. simpl.
  rewrite lookup_alter_eq, Hoh. simpl.
  intros nm r cnt Hin. simpl in Hin. rewrite Hnodes in Hin.
  unfold traverse. rewrite Hnodes.
  eapply accessory_traverse_colors; eauto using meshRefsBelow_spec.
Qed.

Lemma toggleScarf_shown w o :
  accessories w !! "scarf" = Some o ->
  materialsPresent (materials w) o ->
  ∃ o', accessories (toggleScarf true w) !! "scarf" = Some o' ∧ visible o' = true ∧
        nodes o' = nodes o ∧
        carriesColor (materials (toggleScarf true w)) o' (currentAccessoryColor (state w)).
Proof.
  intros Ho Hpres.
  rewrite toggleScarf_accessories, lookup_alter_eq, Ho. simpl.
  eexists. split; [done|]. split; [done|]. split; [done|].
  unfold toggleScarf. rewrite Ho. simpl.
  rewrite updateAccessoryColor_eq. simpl.
  rewrite lookup_alter_eq, Ho. simpl.
  intros nm r cnt Hin. unfold traverse.
  eapply accessory_traverse_colors; eauto using meshRefsBelow_spec.
Qed.

End ShownAccessory.



(** ** The controls of the textured bear's page *)

Section Controls.

Import Skins.

Implicit Types (w : World).

Lemma updateAccessoryColorSection_disabled w :
  disabled (dom (updateAccessoryColorSection w)) = disabled (dom w).
Proof. reflexivity. Qed.

Lemma updateAccessoryColorSection_state w :
  state (updateAccessoryColorSection w) = state w.
Proof. reflexivity. Qed.

Lemma updateBearSkin_dom s w : dom (updateBearSkin s w) = dom w.
Proof.
  unfold updateBearSkin.
  destruct (textures !! s); [|done]. destruct (bear w); [|done].
  by destruct (traverseFrom _ _ _ _).
Qed.

Lemma set_bearNodes_dom ns w : dom (set_bearNodes ns w) = dom w.
Proof. unfold set_bearNodes. by destruct (bear w). Qed.

Lemma set_bearNodes_state ns w : state (set_bearNodes ns w) = state w.
Proof. unfold set_bearNodes. by destruct (bear w). Qed.

Lemma updatePartColor_dom p c w : dom (updatePartColor p c w) = dom w.
Proof.
  unfold updatePartColor.
  destruct (String.eqb p "eyes").
  - destruct (eyes (bearParts w)) as [[|e es]|]; [done| |done].
    destruct (foldl _ _ _). simpl. apply set_bearNodes_dom.
  - destruct (String.eqb p "nose"); [|done].
    destruct (nose (bearParts w)); [|done].
    destruct (colorMesh _ _ _ _ _). simpl. apply set_bearNodes_dom.
Qed.

Lemma updateHat_disabled v w : disabled (dom (updateHat v w)) = disabled (dom w).
Proof.
  unfold updateHat. simpl.
  destruct (negb (String.eqb v "none") && _); simpl; [|done].
  by rewrite updateAccessoryColor_dom.
Qed.

Lemma toggleScarf_disabled v w : disabled (dom (toggleScarf v w)) = disabled (dom w).
Proof.
  unfold toggleScarf. simpl.
  destruct (accessories w !! "scarf"); simpl; [|done].
  destruct v; [|done]. by rewrite updateAccessoryColor_dom.
Qed.

Lemma updateCurrentAccessoryColor_dom c w :
  dom (updateCurrentAccessoryColor c w) = dom w.
Proof.
  unfold updateCurrentAccessoryColor. simpl.
  destruct (negb (String.eqb (currentHat (state w)) "none")); simpl.
  - rewrite updateAccessoryColor_state. simpl.
    destruct (scarfVisible (state w)); by rewrite ?updateAccessoryColor_dom.
  - destruct (scarfVisible (state w)); by rewrite ?updateAccessoryColor_dom.
Qed.

Lemma resetAll_disabled w : disabled (dom (resetAll w)) = disabled (dom w).
Proof.
  unfold resetAll. cbv zeta.
  rewrite updateAccessoryColorSection_disabled.
  by rewrite updateCurrentAccessoryColor_dom, toggleScarf_disabled, updateHat_disabled,
    !updatePartColor_dom, updateBearSkin_dom.
Qed.

Lemma checkAllLoaded_disabled_length w :
  length (disabled (dom (checkAllLoaded w).2)) = length (disabled (dom w)).
Proof.
  unfold checkAllLoaded. simpl. destruct (allLoaded _); simpl; [|done].
  by rewrite length_fmap.
Qed.

(** Whatever has loaded, the timer's callback leaves every control
    enabled. *)
Lemma onTimeout_disabled w :
  disabled (dom (onTimeout w)) = (λ _, false) <$> disabled (dom w).
Proof.
  unfold onTimeout, checkAllLoaded. by destruct (allLoaded _).
Qed.

(** No event adds or removes a control. *)
Lemma handle_disabled_length e w :
  length (disabled (dom (handle e w))) = length (disabled (dom w)).
Proof.
  destruct e; unfold handle.
  - unfold onBearLoaded. cbv zeta. rewrite checkAllLoaded_disabled_length.
    change (dom (set_loadingStatus ?l ?x)) with (dom x).
    by rewrite !updatePartColor_dom, updateBearSkin_dom.
  - unfold onAccessoryLoaded. destruct (traverse _ _ _).
    by rewrite checkAllLoaded_disabled_length.
  - by rewrite onTimeout_disabled, length_fmap.
  - by rewrite updateBearSkin_dom.
  - by rewrite updatePartColor_dom.
  - by rewrite updateHat_disabled.
  - by rewrite toggleScarf_disabled.
  - by rewrite updateCurrentAccessoryColor_dom.
  - by rewrite resetAll_disabled.
Qed.

Lemma run_disabled_length es w :
  length (disabled (dom (run es w))) = length (disabled (dom w)).
Proof.
  revert w. induction es as [|e es IH]; intros w; [done|].
  change (run (e :: es) w) with (run es (handle e w)).
  by rewrite IH, handle_disabled_length.
Qed.

End Controls.

(** C8: in the program with the fallback timer, every control of the page
    is disabled at startup; and when the timer fires, after any events and
    whatever has loaded by then (nothing at all included), every control
    of the page is enabled. *)
Theorem fallback_timer_enables_controls (page : Skins.Dom) (es : list Skins.Event) :
  Skins.disabled (Skins.dom (Skins.init page))
    = replicate (length (Skins.disabled page)) true ∧
  Skins.disabled (Skins.dom (Skins.onTimeout (Skins.init page)))
    = replicate (length (Skins.disabled page)) false ∧
  Skins.disabled (Skins.dom (Skins.onTimeout (Skins.run es (Skins.init page))))
    = replicate (length (Skins.disabled page)) false.
Proof.
  assert (Hrep : ∀ (b : bool) (l : list bool), (λ _, b) <$> l = replicate (length l) b).
  { intros b l. induction l as [|a l IH]; [done|]. by rewrite fmap_cons, IH. }
  split; [apply Hrep|]. split.
  - rewrite onTimeout_disabled, Hrep. simpl. by rewrite length_fmap.
  - rewrite onTimeout_disabled, Hrep, run_disabled_length. simpl. by rewrite length_fmap.
Qed.

(** ** Resetting the configuration state *)

Section Reset.

Import Skins.

Implicit Types (w : World).

Lemma updateBearSkin_state_cases s w :
  state (updateBearSkin s w) = state w ∨ state (updateBearSkin s w) = set_skin s (state w).
Proof.
  unfold updateBearSkin.
  destruct (textures !! s); [|by left]. destruct (bear w); [|by left].
  destruct (traverseFrom _ _ _ _). by right.
Qed.

Lemma updatePartColor_state_cases p c w :
  state (updatePartColor p c w) = state w ∨
  (p = "eyes" ∧ state (updatePartColor p c w) = set_eyeColor c (state w)) ∨
  (p = "nose" ∧ state (updatePartColor p c w) = set_noseColor c (state w)).
Proof.
  unfold updatePartColor.
  destruct (String.eqb p "eyes") eqn:He.
  - apply String.eqb_eq in He as ->.
    destruct (eyes (bearParts w)) as [[|e es]|]; [by left| |by left].
    destruct (foldl _ _ _). simpl. rewrite set_bearNodes_state. right. by left.
  - destruct (String.eqb p "nose") eqn:Hn; [|by left].
    apply String.eqb_eq in Hn as ->.
    destruct (nose (bearParts w)); [|by left].
    destruct (colorMesh _ _ _ _ _). simpl. rewrite set_bearNodes_state. right. by right.
Qed.

Lemma updateCurrentAccessoryColor_state c w :
  state (updateCurrentAccessoryColor c w) = set_currentAccessoryColor c (state w).
Proof.
  unfold updateCurrentAccessoryColor. simpl.
  destruct (negb (String.eqb (currentHat (state w)) "none")); simpl.
  - rewrite updateAccessoryColor_state. simpl.
    destruct (scarfVisible (state w)); by rewrite ?updateAccessoryColor_state.
  - destruct (scarfVisible (state w)); by rewrite ?updateAccessoryColor_state.
Qed.

(** [resetAll()] of the textured bear leaves [state] equal to the
    defaults. *)
Lemma resetAll_state w : state (resetAll w) = defaults.
Proof.
  unfold resetAll.
  set (w0 := resetState w).
  assert (H0 : state w0 = defaults) by done.
  assert (H1 : state (updateBearSkin (skin defaults) w0) = defaults).
  { destruct (updateBearSkin_state_cases (skin defaults) w0) as [->| ->]; by rewrite H0. }
  set (w1 := updateBearSkin (skin defaults) w0) in *.
  assert (H2 : state (updatePartColor "eyes" (eyeColor defaults) w1) = defaults).
  { destruct (updatePartColor_state_cases "eyes" (eyeColor defaults) w1)
      as [->|[[_ ->]|[? _]]]; [by rewrite H1|by rewrite H1|done]. }
  set (w2 := updatePartColor "eyes" (eyeColor defaults) w1) in *.
  assert (H3 : state (updatePartColor "nose" (noseColor defaults) w2) = defaults).
  { destruct (updatePartColor_state_cases "nose" (noseColor defaults) w2)
      as [->|[[? _]|[_ ->]]]; [by rewrite H2|done|by rewrite H2]. }
  set (w3 := updatePartColor "nose" (noseColor defaults) w2) in *.
  rewrite updateAccessoryColorSection_state.
  rewrite updateCurrentAccessoryColor_state, toggleScarf_state, updateHat_state.
  by rewrite H3.
Qed.

Lemma resetState_eq (a : App.t) :
  App.resetState a =
  App.mk (App.flags a ++ [default ∅ (App.flags a !! Config.accessories Config.defaultState)])
         (BearState.mk "sitting" "brown" "black" (length (App.flags a)))
         (App.sceneManager a).
Proof. reflexivity. Qed.

End Reset.

(** C7: whatever the configuration state was, [reset()] leaves it deep-equal
    to the default record, and changes nothing else: the scene manager and
    every flag object that existed before, the one in [CONFIG] included,
    are as they were.  In the textured bear the reset is the head of
    [resetAll()]: it leaves [state] equal to the defaults and everything
    but [state] as it was, and [state] still equals the defaults when
    [resetAll()] has re-applied them to the scene. *)
Theorem reset_yields_default_record (a : App.t) (w : Skins.World) :
  configIntact (App.flags a) ->
  BearState.isDefault (App.bearState (App.resetState a)) (App.flags (App.resetState a)) ∧
  App.sceneManager (App.resetState a) = App.sceneManager a ∧
  (∀ r o, App.flags a !! r = Some o -> App.flags (App.resetState a) !! r = Some o) ∧
  (Skins.state (Skins.resetState w) = Skins.defaults ∧
   Skins.set_state (Skins.state w) (Skins.resetState w) = w ∧
   Skins.state (Skins.resetAll w) = Skins.defaults).
Proof.
  intros Hcfg. unfold configIntact in Hcfg.
  split; [|split; [|split]];
    [| | |split; [reflexivity|split; [by destruct w|apply resetAll_state]]];
    rewrite ?resetState_eq.
  - unfold BearState.isDefault. cbn [App.bearState App.flags BearState.currentForm
      BearState.furColor BearState.eyeColor BearState.accessories].
    repeat split. rewrite lookup_app_r, Nat.sub_diag by done. cbn [lookup list_lookup].
    by rewrite Hcfg.
  - reflexivity.
  - intros r o Hr. cbn [App.flags]. by apply lookup_app_l_Some.
Qed.

(** ** Recolouring with an identifier outside the colour table *)

(** [updateBearSkin] has a guard for this: an unknown skin changes nothing. *)
Lemma updateBearSkin_unknown (skinName : string) (w : Skins.World) :
  Skins.textures !! skinName = None -> Skins.updateBearSkin skinName w = w.
Proof. intros H. unfold Skins.updateBearSkin. by rewrite H. Qed.

(** [updateFurColor] has none: the colour is built from the missing entry
    and copied into the materials all the same. *)
Lemma Forms_updateFurColor_unknown (colorName : string) (s : Scene.t) (b : nat) :
  Config.colors_fur !! colorName = None ->
  Scene.currentBear s = Some b ->
  Forms.updateFurColor colorName s =
  Scene.traverseCurrent (Forms.furCallback 0xFFFFFF%Z) b s.
Proof. intros H Hb. unfold Forms.updateFurColor. by rewrite Hb, H. Qed.

Lemma Draft_updateFurColor_unknown (colorName : string) (s : Scene.t) (b : nat) :
  Config.colors_fur !! colorName = None ->
  Scene.currentBear s = Some b ->
  Draft.updateFurColor colorName s =
  Scene.traverseCurrent (Draft.furCallback 0xFFFFFF%Z) b s.
Proof. intros H Hb. unfold Draft.updateFurColor. by rewrite Hb, H. Qed.

(** C1.  The specification has the fur or skin recolouring be a silent
    no-op for a colour identifier outside the enumerated set.  In the
    code, ["purple"] is in no table; [updateBearSkin] ignores it, but
    [updateFurColor("purple")] turns the brown body of the current bear
    white, in both parts of [script.js]. *)
Theorem updateFurColor_unknown_color_turns_fur_white :
  let s := App.sceneManager Sample.sittingOnly in
  let d := Sample.draftBear in
  Config.colors_fur !! "purple" = None ∧ Skins.textures !! "purple" = None ∧
  (Scene.currentBear s = Some 0 ∧
   Scene.surfaceColor s 0 1 = Some 0x8B4513%Z ∧
   Scene.surfaceColor (Forms.updateFurColor "purple" s) 0 1 = Some 0xFFFFFF%Z) ∧
  (Scene.currentBear d = Some 0 ∧
   Scene.surfaceColor d 0 1 = Some 0x8B4513%Z ∧
   Scene.surfaceColor (Draft.updateFurColor "purple" d) 0 1 = Some 0xFFFFFF%Z) ∧
  Skins.updateBearSkin "purple" Sample.dressed = Sample.dressed.
Proof.
  cbv zeta.
  split; [vm_compute; reflexivity|]. split; [vm_compute; reflexivity|].
  split; [by repeat (split; [vm_compute; reflexivity|]); vm_compute|].
  split; [by repeat (split; [vm_compute; reflexivity|]); vm_compute|].
  apply updateBearSkin_unknown. vm_compute. reflexivity.
Qed.

(** ** Shared materials in the first part of [script.js] *)


(** ** Clone on first write *)

Section CloneOnWrite.

Implicit Types (ns : list Node) (h : Materials) (acc : list Node * Materials).
Implicit Types (P : Material.t -> Prop).

(** A traversal is the fold of its callback runs. *)
Lemma traverseFrom_stepAt f pre rest h :
  foldl (stepAt f) (pre ++ rest, h) (seq (length pre) (length rest)) =
  (pre ++ (traverseFrom (length pre) f rest h).1,
   (traverseFrom (length pre) f rest h).2).
Proof.
  revert pre h. induction rest as [|n rest IH]; intros pre h.
  - done.
  - cbn [length seq foldl traverseFrom].
    unfold stepAt at 2. cbn [fst snd].
    rewrite list_lookup_middle by done.
    destruct (f (length pre) n h) as [n' h1] eqn:Hf.
    replace (<[length pre := n']> (pre ++ n :: rest)) with ((pre ++ [n']) ++ rest).
    2:{ rewrite <- (Nat.add_0_r (length pre)) at 1.
        rewrite insert_app_r. cbn. by rewrite <- app_assoc. }
    specialize (IH (pre ++ [n']) h1).
    rewrite length_app in IH. cbn [length] in IH.
    rewrite Nat.add_1_r in IH. rewrite IH.
    destruct (traverseFrom (S (length pre)) f rest h1) as [rest' h2].
    cbn [fst snd]. by rewrite <- app_assoc.
Qed.

Lemma traverse_stepAt f ns h :
  traverse f ns h = foldl (stepAt (λ _, f)) (ns, h) (seq 0 (length ns)).
Proof.
  unfold traverse.
  pose proof (traverseFrom_stepAt (λ _, f) [] ns h) as H.
  cbn [length app] in H. rewrite H.
  by destruct (traverseFrom 0 _ ns h).
Qed.

Lemma alter_snoc (f : Material.t -> Material.t) h m :
  alter f (length h) (h ++ [m]) = h ++ [f m].
Proof.
  rewrite <- (Nat.add_0_r (length h)) at 1. by rewrite alter_app_r.
Qed.

Lemma alter_absent (f : Material.t -> Material.t) h r :
  h !! r = None -> alter f r h = h.
Proof.
  intros Hr. apply list_eq. intros k. rewrite list_lookup_alter.
  case_decide; [subst|done]. by rewrite Hr.
Qed.

Lemma alter_insert (f : Material.t -> Material.t) h r m :
  h !! r = Some m -> alter f r h = <[r := f m]> h.
Proof.
  intros Hr. apply list_eq. intros k.
  assert (r < length h) by (eapply lookup_lt_Some; eauto).
  destruct (decide (r = k)) as [->|].
  - by rewrite list_lookup_alter_eq, list_lookup_insert_eq, Hr.
  - by rewrite list_lookup_alter_ne, list_lookup_insert_ne.
Qed.

(** The program's idiom is a [Touch]: clone unless the mark is set, then
    write. *)
Lemma own_write_touch P flag setFlag upd ns h i nm r cnt m :
  ns !! i = Some (Mesh nm r cnt) -> h !! r = Some m -> P m ->
  (∀ m0, flag (Material.userData m0) = true -> flagged m0 = true) ->
  (∀ m0, flagged (Material.set_userData (setFlag (Material.userData m0)) m0) = true) ->
  (∀ m0, Material.name (upd m0) = Material.name m0) ->
  (∀ m0, Material.userData (upd m0) = Material.userData m0) ->
  Touch P i (ns, h)
    (<[i := Mesh nm (ownMaterial flag setFlag r h).1 cnt]> ns,
     alter upd (ownMaterial flag setFlag r h).1 (ownMaterial flag setFlag r h).2).
Proof.
  intros Hi Hr HP Hflag Hset Hname Hud.
  unfold ownMaterial, clone. rewrite Hr.
  destruct (flag (Material.userData m)) eqn:Hf; cbn [fst snd].
  - rewrite list_insert_id by done. rewrite (alter_insert _ _ _ _ Hr).
    eapply touch_write; eauto.
  - rewrite alter_snoc, alter_snoc.
    eapply touch_clone; eauto.
    + rewrite <- (Hset m). unfold flagged. by rewrite Hud.
    + by rewrite Hname.
Qed.

Lemma touch_length P i acc acc' :
  Touch P i acc acc' -> length acc'.1 = length acc.1.
Proof. intros [| |]; cbn [fst]; by rewrite ?length_insert. Qed.

(** Marked materials stay private. *)
Lemma touch_ownsClones P i acc acc' :
  Touch P i acc acc' -> ownsClones acc -> ownsClones acc'.
Proof.
  intros HT [Hwf Hun]. destruct HT as [acc|ns h nm r cnt m m' Hi Hr _ Hfl Hn Hu
                                        |ns h nm r cnt m m' Hi Hr _ Hfl Hn].
  - done.
  - split.
    + intros k nm0 r0 cnt0 Hk. cbn [fst snd] in *. rewrite length_insert. eauto.
    + intros a b nm1 r1 cnt1 nm2 cnt2 m1 Hab Ha Hb Hm1. cbn [fst snd] in *.
      destruct (decide (r = r1)) as [->|Hne].
      * pose proof (Hun a b _ _ _ _ _ _ Hab Ha Hb Hr). congruence.
      * rewrite list_lookup_insert_ne in Hm1 by done. eauto.
  - split.
    + intros k nm0 r0 cnt0 Hk. cbn [fst snd] in *.
      rewrite length_app. cbn [length].
      apply list_lookup_insert_Some in Hk as [(-> & [= <- <- <-] & _)|[_ Hk]].
      * lia.
      * specialize (Hwf _ _ _ _ Hk). cbn [snd] in Hwf. lia.
    + intros a b nm1 r1 cnt1 nm2 cnt2 m1 Hab Ha Hb Hm1. cbn [fst snd] in *.
      apply list_lookup_insert_Some in Ha as [(Hia & Hea & _)|[Hai Ha]];
      apply list_lookup_insert_Some in Hb as [(Hib & Heb & _)|[Hbi Hb]];
      simplify_eq.
      * specialize (Hwf _ _ _ _ Hb). cbn [snd] in Hwf. lia.
      * specialize (Hwf _ _ _ _ Ha). cbn [snd] in Hwf. lia.
      * pose proof (Hwf _ _ _ _ Ha) as Hlt. cbn [snd] in Hlt.
        rewrite lookup_app_l in Hm1 by done. eauto.
Qed.

(** Frame, by ownership: a run on mesh [i] leaves the material shown by
    any other mesh as it was. *)
Lemma touch_frame P i j acc acc' :
  Touch P i acc acc' -> ownsClones acc -> j ≠ i -> shown acc' j = shown acc j.
Proof.
  intros HT [Hwf Hun] Hji. destruct HT as [acc|ns h nm r cnt m m' Hi Hr _ Hfl Hn Hu
                                            |ns h nm r cnt m m' Hi Hr _ Hfl Hn].
  - done.
  - unfold shown. cbn [fst snd].
    destruct (ns !! j) as [[nm0|nm0 r0 cnt0]|] eqn:Hj; cbn; [done| |done].
    destruct (decide (r = r0)) as [->|Hne].
    + pose proof (Hun j i _ _ _ _ _ _ Hji Hj Hi Hr). congruence.
    + by rewrite list_lookup_insert_ne.
  - unfold shown. cbn [fst snd].
    rewrite list_lookup_insert_ne by done.
    destruct (ns !! j) as [[nm0|nm0 r0 cnt0]|] eqn:Hj; cbn; [done| |done].
    pose proof (Hwf _ _ _ _ Hj) as Hlt. cbn [snd] in Hlt.
    by rewrite lookup_app_l.
Qed.

(** Frame, by selection: a run leaves the material shown by a mesh as it
    was when the operation does not select that material. *)
Lemma touch_frame_unselected P i j acc acc' mj :
  Touch P i acc acc' -> shown acc j = Some mj -> ¬ P mj -> shown acc' j = Some mj.
Proof.
  intros HT Hj HnP. destruct HT as [acc|ns h nm r cnt m m' Hi Hr HP Hfl Hn Hu
                                    |ns h nm r cnt m m' Hi Hr HP Hfl Hn].
  - done.
  - unfold shown in *. cbn [fst snd] in *.
    destruct (ns !! j) as [[nm0|nm0 r0 cnt0]|] eqn:Hnj; cbn in *; [done| |done].
    destruct (decide (r = r0)) as [->|Hne].
    + congruence.
    + by rewrite list_lookup_insert_ne.
  - unfold shown in *. cbn [fst snd] in *.
    destruct (decide (i = j)) as [->|Hne].
    + rewrite Hi in Hj. cbn in Hj. congruence.
    + rewrite list_lookup_insert_ne by done.
      destruct (ns !! j) as [[nm0|nm0 r0 cnt0]|] eqn:Hnj; cbn in *; [done| |done].
      rewrite lookup_app_l; [done|]. eapply lookup_lt_Some; eauto.
Qed.

(** The same over a whole operation, a fold of callback runs. *)
Lemma fold_touch_ownsClones P st (idx : list nat) acc :
  (∀ acc0 i, Touch P i acc0 (st acc0 i)) ->
  ownsClones acc -> ownsClones (foldl st acc idx).
Proof.
  intros Hst. revert acc. induction idx as [|i idx IH]; intros acc Hown; cbn; [done|].
  apply IH. eapply touch_ownsClones; eauto.
Qed.

Lemma fold_touch_frame P st (idx : list nat) acc j :
  (∀ acc0 i, Touch P i acc0 (st acc0 i)) ->
  (∀ acc0, j ∈ idx -> st acc0 j = acc0) ->
  ownsClones acc -> shown (foldl st acc idx) j = shown acc j.
Proof.
  intros Hst Hj. revert acc. induction idx as [|i idx IH]; intros acc Hown; cbn; [done|].
  rewrite IH.
  - destruct (decide (j = i)) as [->|Hne].
    + rewrite Hj; [done|left].
    + eapply touch_frame; eauto.
  - intros acc0 Hin. apply Hj. by right.
  - eapply touch_ownsClones; eauto.
Qed.

Lemma fold_touch_frame_unselected P st (idx : list nat) acc j mj :
  (∀ acc0 i, Touch P i acc0 (st acc0 i)) ->
  shown acc j = Some mj -> ¬ P mj -> shown (foldl st acc idx) j = Some mj.
Proof.
  intros Hst. revert acc. induction idx as [|i idx IH]; intros acc Hj HnP; cbn; [done|].
  apply IH; [|done]. eapply touch_frame_unselected; eauto.
Qed.

End CloneOnWrite.

(** ** Which surfaces a recolouring operation leaves alone *)

Section Exemption.

Implicit Types (ns : list Node) (h : Materials) (acc : list Node * Materials).

Local Ltac marks :=
  try reflexivity;
  let m := fresh "m" in
  intros m; unfold flagged; destruct m as [? ? ? [[] [] []]]; cbn; done.

(** The callbacks of the second part of [script.js] are [Touch]es that
    select by material name. *)
Lemma Forms_fur_touch c acc i :
  Touch (λ m, Material.name m ≠ "EyeBlack") i acc (stepAt (λ _, Forms.furCallback c) acc i).
Proof.
  destruct acc as [ns h]. unfold stepAt. cbn [fst snd].
  destruct (ns !! i) as [[nm|nm r cnt]|] eqn:Hi; cbn [Forms.furCallback];
    [rewrite list_insert_id by done; constructor| |constructor].
  destruct (h !! r) as [m|] eqn:Hr;
    [|rewrite list_insert_id by done; constructor].
  destruct (String.eqb (Material.name m) "EyeBlack") eqn:He; cbn [negb];
    [rewrite list_insert_id by done; constructor|].
  apply String.eqb_neq in He.
  pose proof (own_write_touch (λ m, Material.name m ≠ "EyeBlack")
                UserData.isCloned UserData.set_isCloned (Material.set_color c)
                ns h i nm r cnt m Hi Hr He) as HT.
  destruct (ownMaterial _ _ r h) as [r' h']. apply HT; marks.
Qed.

Lemma Forms_eye_touch c acc i :
  Touch (λ m, Material.name m = "EyeBlack") i acc (stepAt (λ _, Forms.eyeCallback c) acc i).
Proof.
  destruct acc as [ns h]. unfold stepAt. cbn [fst snd].
  destruct (ns !! i) as [[nm|nm r cnt]|] eqn:Hi; cbn [Forms.eyeCallback];
    [rewrite list_insert_id by done; constructor| |constructor].
  destruct (h !! r) as [m|] eqn:Hr;
    [|rewrite list_insert_id by done; constructor].
  destruct (String.eqb (Material.name m) "EyeBlack") eqn:He;
    [|rewrite list_insert_id by done; constructor].
  apply String.eqb_eq in He.
  pose proof (own_write_touch (λ m, Material.name m = "EyeBlack")
                UserData.isEyeCloned UserData.set_isEyeCloned (Material.set_color c)
                ns h i nm r cnt m Hi Hr He) as HT.
  destruct (ownMaterial _ _ r h) as [r' h']. apply HT; marks.
Qed.

(** The callbacks of the textured bear are [Touch]es that select by
    mesh. *)
Lemma Skins_skin_touch parts skinName acc i :
  Touch (λ _, True) i acc (stepAt (Skins.skinCallback parts skinName) acc i).
Proof.
  destruct acc as [ns h]. unfold stepAt. cbn [fst snd].
  destruct (ns !! i) as [[nm|nm r cnt]|] eqn:Hi; cbn [Skins.skinCallback];
    [rewrite list_insert_id by done; constructor| |constructor].
  destruct (negb (Skins.isEye parts i) && negb (Skins.isNose parts i));
    [|rewrite list_insert_id by done; constructor].
  destruct (h !! r) as [m|] eqn:Hr.
  - pose proof (own_write_touch (λ _, True)
                  UserData.isCloned UserData.set_isCloned (Material.set_map (Some skinName))
                  ns h i nm r cnt m Hi Hr I) as HT.
    destruct (ownMaterial _ _ r h) as [r' h']. apply HT; marks.
  - unfold ownMaterial. rewrite Hr.
    rewrite list_insert_id by done.
    rewrite alter_absent by done. constructor.
Qed.

Lemma Skins_skin_exempt parts skinName acc j :
  Skins.isEye parts j || Skins.isNose parts j = true ->
  stepAt (Skins.skinCallback parts skinName) acc j = acc.
Proof.
  intros Hex. destruct acc as [ns h]. unfold stepAt. cbn [fst snd].
  destruct (ns !! j) as [[nm|nm r cnt]|] eqn:Hj; cbn [Skins.skinCallback];
    [by rewrite list_insert_id|  |done].
  apply orb_true_iff in Hex.
  replace (negb (Skins.isEye parts j) && negb (Skins.isNose parts j)) with false
    by (destruct Hex as [-> | ->]; by rewrite ?andb_false_r).
  by rewrite list_insert_id.
Qed.

Lemma Skins_colorMesh_touch flag setFlag c acc i :
  (∀ m0, flag (Material.userData m0) = true -> flagged m0 = true) ->
  (∀ m0, flagged (Material.set_userData (setFlag (Material.userData m0)) m0) = true) ->
  Touch (λ _, True) i acc (Skins.colorMesh flag setFlag c acc i).
Proof.
  intros Hflag Hset. destruct acc as [ns h]. unfold Skins.colorMesh.
  destruct (ns !! i) as [[nm|nm r cnt]|] eqn:Hi; [constructor| |constructor].
  destruct (h !! r) as [m|] eqn:Hr.
  - pose proof (own_write_touch (λ _, True) flag setFlag (Material.set_color c)
                  ns h i nm r cnt m Hi Hr I Hflag Hset) as HT.
    destruct (ownMaterial _ _ r h) as [r' h']. apply HT; marks.
  - unfold ownMaterial. rewrite Hr.
    rewrite list_insert_id by done.
    rewrite alter_absent by done. constructor.
Qed.

(** Surfaces of the current bear before and after a traversal. *)
Lemma surface_shown (s : Scene.t) b o j :
  Scene.objects s !! b = Some o ->
  Scene.surface s b j = shown (nodes o, Scene.materials s) j.
Proof. intros Ho. unfold Scene.surface, shown. by rewrite Ho. Qed.

Lemma surface_traverseCurrent f (s : Scene.t) b o j :
  Scene.objects s !! b = Some o ->
  Scene.surface (Scene.traverseCurrent f b s) b j =
  shown (foldl (stepAt (λ _, f)) (nodes o, Scene.materials s) (seq 0 (length (nodes o)))) j.
Proof.
  intros Ho. unfold Scene.traverseCurrent. rewrite Ho, traverse_stepAt.
  destruct (foldl _ _ _) as [ns' h']. unfold Scene.surface, shown. cbn.
  rewrite list_lookup_insert_eq by (eapply lookup_lt_Some; eauto). done.
Qed.

(** In the second part of [script.js], [updateFurColor] leaves every
    "EyeBlack" surface of the current bear as it was, and
    [updateEyeColor] every other surface. *)
Lemma Forms_updateFurColor_exempt colorName (s : Scene.t) b j m :
  Scene.currentBear s = Some b ->
  Scene.surface s b j = Some m -> Material.name m = "EyeBlack" ->
  Scene.surface (Forms.updateFurColor colorName s) b j = Some m.
Proof.
  intros Hb Hj Hm. unfold Forms.updateFurColor. rewrite Hb.
  destruct (Scene.objects s !! b) as [o|] eqn:Ho;
    [|by unfold Scene.surface in Hj; rewrite Ho in Hj].
  rewrite (surface_traverseCurrent _ _ _ _ _ Ho).
  rewrite (surface_shown _ _ _ _ Ho) in Hj.
  eapply fold_touch_frame_unselected; [apply Forms_fur_touch|done|]. cbn. congruence.
Qed.

Lemma Forms_updateEyeColor_exempt colorName (s : Scene.t) b j m :
  Scene.currentBear s = Some b ->
  Scene.surface s b j = Some m -> Material.name m ≠ "EyeBlack" ->
  Scene.surface (Forms.updateEyeColor colorName s) b j = Some m.
Proof.
  intros Hb Hj Hm. unfold Forms.updateEyeColor. rewrite Hb.
  destruct (Scene.objects s !! b) as [o|] eqn:Ho;
    [|by unfold Scene.surface in Hj; rewrite Ho in Hj].
  rewrite (surface_traverseCurrent _ _ _ _ _ Ho).
  rewrite (surface_shown _ _ _ _ Ho) in Hj.
  eapply fold_touch_frame_unselected; [apply Forms_eye_touch|done|done].
Qed.

Lemma Skins_surface_shown w j : Skins.surface w j = shown (bearScene w) j.
Proof. reflexivity. Qed.

Lemma bearScene_updateBearSkin skinName (w : Skins.World) :
  bearScene (Skins.updateBearSkin skinName w) = bearScene w ∨
  bearScene (Skins.updateBearSkin skinName w) =
    foldl (stepAt (Skins.skinCallback (Skins.bearParts w) skinName)) (bearScene w)
          (seq 0 (length (Skins.bearNodes w))).
Proof.
  unfold Skins.updateBearSkin.
  destruct (Skins.textures !! skinName); [|by left].
  destruct (Skins.bear w) as [b|] eqn:Hb; [|by left]. right.
  pose proof (traverseFrom_stepAt (Skins.skinCallback (Skins.bearParts w) skinName)
                [] (nodes b) (Skins.materials w)) as H.
  cbn [length app] in H.
  unfold bearScene at 2, Skins.bearNodes. rewrite Hb, H.
  by destruct (traverseFrom 0 _ (nodes b) (Skins.materials w)).
Qed.

Lemma bearScene_set (w : Skins.World) ns h :
  length ns = length (Skins.bearNodes w) ->
  shown (bearScene (Skins.set_materials h (Skins.set_bearNodes ns w))) =
  shown (ns, h).
Proof.
  intros Hlen. unfold bearScene, Skins.set_bearNodes, Skins.bearNodes in *.
  destruct w as [mats [b|] parts accs st ls d]; cbn in *; [reflexivity|].
  destruct ns; [reflexivity|done].
Qed.

(** In the textured program, [updateBearSkin] leaves the material of
    every eye and nose mesh as it was. *)
Lemma Skins_updateBearSkin_exempt skinName (w : Skins.World) j :
  ownsClones (bearScene w) ->
  Skins.isEye (Skins.bearParts w) j || Skins.isNose (Skins.bearParts w) j = true ->
  Skins.surface (Skins.updateBearSkin skinName w) j = Skins.surface w j.
Proof.
  intros Hown Hex. rewrite !Skins_surface_shown.
  destruct (bearScene_updateBearSkin skinName w) as [-> | ->]; [done|].
  eapply fold_touch_frame; [apply Skins_skin_touch| |done].
  intros acc0 _. by apply Skins_skin_exempt.
Qed.

Lemma fold_colorMesh_length flag setFlag c idx acc :
  length (foldl (Skins.colorMesh flag setFlag c) acc idx).1 = length acc.1.
Proof.
  revert acc. induction idx as [|i idx IH]; intros acc; cbn [foldl]; [done|].
  rewrite IH. destruct acc as [ns h]. unfold Skins.colorMesh.
  destruct (ns !! i) as [[nm|nm r cnt]|]; [done| |done].
  destruct (ownMaterial _ _ r h). cbn. by rewrite length_insert.
Qed.

(** [updatePartColor('eyes', c)] leaves the material of every mesh that
    is not an eye as it was. *)
Lemma Skins_updatePartColor_eyes_exempt c (w : Skins.World) j :
  ownsClones (bearScene w) ->
  Skins.isEye (Skins.bearParts w) j = false ->
  Skins.surface (Skins.updatePartColor "eyes" c w) j = Skins.surface w j.
Proof.
  intros Hown Hj. rewrite !Skins_surface_shown.
  unfold Skins.updatePartColor. cbn [String.eqb Ascii.eqb Bool.eqb].
  unfold Skins.isEye in Hj.
  destruct (Skins.eyes (Skins.bearParts w)) as [[|e es]|]; [done| |done].
  apply bool_decide_eq_false in Hj.
  pose proof (fold_colorMesh_length UserData.isEyeCloned UserData.set_isEyeCloned c
                (e :: es) (bearScene w)) as Hlen.
  change (Skins.bearNodes w, Skins.materials w) with (bearScene w).
  destruct (foldl _ (bearScene w) (e :: es)) as [ns h] eqn:Hfold.
  change (bearScene (Skins.set_state ?st ?x)) with (bearScene x).
  rewrite bearScene_set by done. rewrite <- Hfold.
  eapply fold_touch_frame; [|done|done].
  intros acc0 i. apply Skins_colorMesh_touch.
  - intros m0. unfold flagged. destruct m0 as [? ? ? [[] [] []]]; cbn; done.
  - intros m0. unfold flagged. destruct m0 as [? ? ? [[] [] []]]; cbn; done.
Qed.

End Exemption.

(** C5: for every colour identifier and every surface of the active bear,
    the fur recolouring leaves exempt surfaces as they were and the eye
    recolouring leaves the other surfaces as they were.  In the second
    part of [script.js] a surface is exempt when its material is named
    "EyeBlack"; in the textured program when its mesh is one of
    [bearParts.eyes] or is [bearParts.nose], the fur operation is
    [updateBearSkin] and the eye operation [updatePartColor('eyes', c)]. *)
Theorem recolor_respects_exemption
    (s : Scene.t) (b : nat) (w : Skins.World)
    (furName eyeName skinName : string) (c : Z) (j : nat) (m : Material.t) :
  Scene.currentBear s = Some b ->
  Scene.surface s b j = Some m ->
  ownsClones (bearScene w) ->
  (Material.name m = "EyeBlack" ->
   Scene.surface (Forms.updateFurColor furName s) b j = Some m) ∧
  (Material.name m ≠ "EyeBlack" ->
   Scene.surface (Forms.updateEyeColor eyeName s) b j = Some m) ∧
  (Skins.isEye (Skins.bearParts w) j || Skins.isNose (Skins.bearParts w) j = true ->
   Skins.surface (Skins.updateBearSkin skinName w) j = Skins.surface w j) ∧
  (Skins.isEye (Skins.bearParts w) j || Skins.isNose (Skins.bearParts w) j = false ->
   Skins.surface (Skins.updatePartColor "eyes" c w) j = Skins.surface w j).
Proof.
  intros Hb Hj Hown. repeat split.
  - intros Hm. by eapply Forms_updateFurColor_exempt.
  - intros Hm. by eapply Forms_updateEyeColor_exempt.
  - intros Hex. by apply Skins_updateBearSkin_exempt.
  - intros Hex. apply orb_false_iff in Hex as [He _].
    by apply Skins_updatePartColor_eyes_exempt.
Qed.

(** ** Siblings that share a material *)

(** Where the program clones on first write, one callback run on mesh [i]
    leaves the material shown by every other mesh as it was, whether or
    not the two meshes shared a material when they were loaded. *)
Lemma clone_on_write_protects_siblings
    (acc : list Node * Materials) (i j : nat) (c : Z)
    (parts : Skins.BearParts) (skinName : string) :
  ownsClones acc -> j ≠ i ->
  shown (stepAt (λ _, Forms.furCallback c) acc i) j = shown acc j ∧
  shown (stepAt (λ _, Forms.eyeCallback c) acc i) j = shown acc j ∧
  shown (stepAt (Skins.skinCallback parts skinName) acc i) j = shown acc j ∧
  shown (Skins.colorMesh UserData.isEyeCloned UserData.set_isEyeCloned c acc i) j
    = shown acc j ∧
  shown (Skins.colorMesh UserData.isNoseCloned UserData.set_isNoseCloned c acc i) j
    = shown acc j.
Proof.
  intros Hown Hji. repeat split.
  - eapply touch_frame; [apply Forms_fur_touch|done|done].
  - eapply touch_frame; [apply Forms_eye_touch|done|done].
  - eapply touch_frame; [apply Skins_skin_touch|done|done].
  - eapply touch_frame; [apply Skins_colorMesh_touch|done|done];
      intros m0; unfold flagged; destruct m0 as [? ? ? [[] [] []]]; cbn; done.
  - eapply touch_frame; [apply Skins_colorMesh_touch|done|done];
      intros m0; unfold flagged; destruct m0 as [? ? ? [[] [] []]]; cbn; done.
Qed.

(** ** Marked materials stay private in every state of the textured program *)

Section Reachable.

Import Skins.

Implicit Types (w : World) (ns : list Node) (h : Materials).

Lemma ownsClones_same_marks ns h h' :
  length h' = length h ->
  (∀ r, Material.userData <$> h' !! r = Material.userData <$> h !! r) ->
  ownsClones (ns, h) -> ownsClones (ns, h').
Proof.
  intros Hlen Hud [Hwf Hun]. split.
  - intros i nm r cnt Hi. cbn [fst snd] in *. rewrite Hlen. eauto.
  - intros i j nm r cnt nm' cnt' m' Hij Hi Hj Hm'. cbn [fst snd] in *.
    specialize (Hud r). rewrite Hm' in Hud. cbn in Hud.
    destruct (h !! r) as [m|] eqn:Hm; [|done].
    injection Hud as Hud.
    pose proof (Hun i j _ _ _ _ _ _ Hij Hi Hj Hm) as Hf.
    unfold flagged in *. by rewrite Hud.
Qed.

Lemma ownsClones_app ns h extra :
  ownsClones (ns, h) -> ownsClones (ns, h ++ extra).
Proof.
  intros [Hwf Hun]. split.
  - intros i nm r cnt Hi. cbn [fst snd] in *. rewrite length_app.
    specialize (Hwf _ _ _ _ Hi). cbn [snd] in Hwf. lia.
  - intros i j nm r cnt nm' cnt' m' Hij Hi Hj Hm'. cbn [fst snd] in *.
    pose proof (Hwf _ _ _ _ Hi) as Hlt. cbn [snd] in Hlt.
    rewrite lookup_app_l in Hm' by done. eauto.
Qed.

Lemma accessory_traverse_marks c k ns h r :
  Material.userData <$> (traverseFrom k (λ _, accessoryCallback c) ns h).2 !! r
  = Material.userData <$> h !! r.
Proof.
  revert k h. induction ns as [|n ns IH]; intros k h; cbn [traverseFrom]; [done|].
  destruct n as [nm|nm r0 cnt]; cbn [accessoryCallback].
  - specialize (IH (S k) h).
    by destruct (traverseFrom (S k) _ ns h) as [ns' h'].
  - specialize (IH (S k) (alter (Material.set_color c) r0 h)).
    destruct (traverseFrom (S k) _ ns _) as [ns' h']. cbn [snd] in *.
    rewrite IH, list_lookup_alter. case_decide; [subst|done].
    by destruct (h !! r).
Qed.

Lemma freshMaterial_extends k ns h :
  ∃ extra, (traverseFrom k (λ _, freshMaterial) ns h).2 = h ++ extra.
Proof.
  revert k h. induction ns as [|n ns IH]; intros k h; cbn [traverseFrom].
  - exists []. by rewrite app_nil_r.
  - destruct n as [nm|nm r0 cnt]; cbn [freshMaterial].
    + destruct (IH (S k) h) as [extra He].
      destruct (traverseFrom (S k) _ ns h) as [ns' h']. eauto.
    + destruct (IH (S k) (h ++ [MeshStandardMaterial (currentAccessoryColor defaults)]))
        as [extra He].
      destruct (traverseFrom (S k) _ ns _) as [ns' h']. cbn [snd] in *.
      eexists. rewrite He, <- app_assoc. done.
Qed.

Lemma bearScene_set_eq w ns h :
  length ns = length (bearNodes w) ->
  bearScene (set_materials h (set_bearNodes ns w)) = (ns, h).
Proof.
  intros Hlen. unfold bearScene, set_bearNodes, bearNodes in *.
  destruct w as [mats [b|] parts accs st ls d]; cbn in *; [reflexivity|].
  destruct ns; [reflexivity|done].
Qed.

Lemma updateBearSkin_ownsClones skinName w :
  ownsClones (bearScene w) -> ownsClones (bearScene (updateBearSkin skinName w)).
Proof.
  intros Hown. destruct (bearScene_updateBearSkin skinName w) as [-> | ->]; [done|].
  eapply fold_touch_ownsClones; [apply Skins_skin_touch|done].
Qed.

Lemma updatePartColor_ownsClones part c w :
  ownsClones (bearScene w) -> ownsClones (bearScene (updatePartColor part c w)).
Proof.
  intros Hown. unfold updatePartColor.
  assert (Hmarks : ∀ flag setFlag,
    (flag = UserData.isEyeCloned ∧ setFlag = UserData.set_isEyeCloned) ∨
    (flag = UserData.isNoseCloned ∧ setFlag = UserData.set_isNoseCloned) ->
    ∀ acc0 i, Touch (λ _, True) i acc0 (colorMesh flag setFlag c acc0 i)).
  { intros flag setFlag Hfs acc0 i.
    apply Skins_colorMesh_touch; destruct Hfs as [[-> ->]|[-> ->]];
      intros m0; unfold flagged; destruct m0 as [? ? ? [[] [] []]]; cbn; done. }
  destruct (String.eqb part "eyes").
  - destruct (eyes (bearParts w)) as [[|e es]|]; [done| |done].
    pose proof (fold_colorMesh_length UserData.isEyeCloned UserData.set_isEyeCloned c
                  (e :: es) (bearScene w)) as Hlen.
    change (bearNodes w, materials w) with (bearScene w).
    destruct (foldl _ (bearScene w) (e :: es)) as [ns h] eqn:Hfold.
    change (bearScene (set_state ?st ?x)) with (bearScene x).
    rewrite bearScene_set_eq by done. rewrite <- Hfold.
    eapply fold_touch_ownsClones; [apply Hmarks; by left|done].
  - destruct (String.eqb part "nose"); [|done].
    destruct (nose (bearParts w)) as [n|]; [|done].
    pose proof (fold_colorMesh_length UserData.isNoseCloned UserData.set_isNoseCloned c
                  [n] (bearScene w)) as Hlen.
    change (bearNodes w, materials w) with (bearScene w).
    cbn [foldl] in Hlen.
    destruct (colorMesh _ _ c (bearScene w) n) as [ns h] eqn:Hstep.
    change (bearScene (set_state ?st ?x)) with (bearScene x).
    rewrite bearScene_set_eq by done. rewrite <- Hstep.
    eapply touch_ownsClones; [apply Hmarks; by right|done].
Qed.

Lemma updateAccessoryColor_ownsClones name c w :
  ownsClones (bearScene w) -> ownsClones (bearScene (updateAccessoryColor name c w)).
Proof.
  intros Hown. rewrite updateAccessoryColor_eq.
  destruct (accessories w !! name) as [a|]; [|by destruct w].
  change (bearScene (set_materials ?h w)) with (bearNodes w, h).
  eapply ownsClones_same_marks; [| |exact Hown].
  - apply accessory_traverse_length.
  - intros r. apply accessory_traverse_marks.
Qed.

Lemma updateHat_ownsClones v w :
  ownsClones (bearScene w) -> ownsClones (bearScene (updateHat v w)).
Proof.
  intros Hown. unfold updateHat. cbv zeta.
  change (bearScene (updateAccessoryColorSection (set_state ?st ?x))) with (bearScene x).
  destruct (negb (String.eqb v "none") && _); [|done].
  by apply updateAccessoryColor_ownsClones.
Qed.

Lemma toggleScarf_ownsClones v w :
  ownsClones (bearScene w) -> ownsClones (bearScene (toggleScarf v w)).
Proof.
  intros Hown. unfold toggleScarf. cbv zeta.
  change (bearScene (updateAccessoryColorSection (set_state ?st ?x))) with (bearScene x).
  destruct (accessories w !! "scarf"); [|done].
  destruct v; [|done]. by apply updateAccessoryColor_ownsClones.
Qed.

Lemma updateCurrentAccessoryColor_ownsClones c w :
  ownsClones (bearScene w) -> ownsClones (bearScene (updateCurrentAccessoryColor c w)).
Proof.
  intros Hown. unfold updateCurrentAccessoryColor. cbv zeta.
  set (w1 := set_state (set_currentAccessoryColor c (state w)) w).
  assert (H1 : ownsClones (bearScene w1)) by done.
  set (w2 := if negb (String.eqb (currentHat (state w1)) "none")
             then updateAccessoryColor (currentHat (state w1)) c w1 else w1).
  assert (H2 : ownsClones (bearScene w2)).
  { unfold w2. destruct (negb _); [|done]. by apply updateAccessoryColor_ownsClones. }
  destruct (scarfVisible (state w2)); [|done].
  by apply updateAccessoryColor_ownsClones.
Qed.

Lemma checkAllLoaded_bearScene w : bearScene (checkAllLoaded w).2 = bearScene w.
Proof. unfold checkAllLoaded. cbn [snd]. by destruct (allLoaded _). Qed.

Lemma bearScene_section w : bearScene (updateAccessoryColorSection w) = bearScene w.
Proof. reflexivity. Qed.

Lemma bearScene_loadingStatus l w : bearScene (set_loadingStatus l w) = bearScene w.
Proof. reflexivity. Qed.

Lemma resetAll_ownsClones w :
  ownsClones (bearScene w) -> ownsClones (bearScene (resetAll w)).
Proof.
  intros Hown. unfold resetAll. cbv zeta.
  rewrite bearScene_section.
  apply updateCurrentAccessoryColor_ownsClones, toggleScarf_ownsClones,
    updateHat_ownsClones, updatePartColor_ownsClones, updatePartColor_ownsClones,
    updateBearSkin_ownsClones.
  done.
Qed.

Lemma onBearLoaded_ownsClones g w :
  cleanGltf g = true -> ownsClones (bearScene (onBearLoaded g w)).
Proof.
  intros Hg. apply andb_true_iff in Hg as [Hrefs Hclean].
  assert (Hclean' : ∀ m, m ∈ GLTF.fileMaterials g -> flagged m = false).
  { intros m Hm. rewrite forallb_forall in Hclean.
    apply list_elem_of_In in Hm. specialize (Hclean _ Hm).
    by apply negb_true_iff in Hclean. }
  unfold onBearLoaded. cbv zeta.
  rewrite checkAllLoaded_bearScene, bearScene_loadingStatus.
  apply updatePartColor_ownsClones, updatePartColor_ownsClones, updateBearSkin_ownsClones.
  unfold bearScene, bearNodes, GLTF.install. cbn [bear materials nodes set_nodes].
  assert (Hnode : ∀ i nm r cnt,
    (GLTF.relocate (length (materials w)) <$> nodes (GLTF.scene g)) !! i
      = Some (Mesh nm r cnt) ->
    ∃ r0, r = length (materials w) + r0 ∧ r0 < length (GLTF.fileMaterials g)).
  { intros i nm r cnt Hi. rewrite list_lookup_fmap in Hi.
    destruct (nodes (GLTF.scene g) !! i) as [[nm0|nm0 r0 cnt0]|] eqn:Hn; [done| |done].
    cbn in Hi. injection Hi as <- <- <-. exists r0. split; [done|].
    eapply meshRefsBelow_spec; [exact Hrefs|].
    eapply list_elem_of_lookup_2; eauto. }
  split.
  - intros i nm r cnt Hi. cbn [fst snd] in *.
    destruct (Hnode _ _ _ _ Hi) as (r0 & -> & Hr0). rewrite length_app. lia.
  - intros i j nm r cnt nm' cnt' m Hij Hi Hj Hm. cbn [fst snd] in *.
    destruct (Hnode _ _ _ _ Hi) as (r0 & -> & Hr0).
    rewrite lookup_app_r in Hm by lia.
    replace (length (materials w) + r0 - length (materials w)) with r0 in Hm by lia.
    eapply Hclean', list_elem_of_lookup_2; eauto.
Qed.

Lemma onAccessoryLoaded_ownsClones name g w :
  ownsClones (bearScene w) -> ownsClones (bearScene (onAccessoryLoaded name g w)).
Proof.
  intros Hown. unfold onAccessoryLoaded. cbv zeta.
  destruct (freshMaterial_extends 0 (nodes (GLTF.scene g)) (materials w)) as [extra He].
  unfold traverse.
  destruct (traverseFrom 0 _ (nodes (GLTF.scene g)) (materials w)) as [ns h].
  cbn [snd] in He. subst h.
  rewrite checkAllLoaded_bearScene, bearScene_loadingStatus.
  by apply ownsClones_app.
Qed.

Lemma onTimeout_bearScene w : bearScene (onTimeout w) = bearScene w.
Proof. unfold onTimeout, checkAllLoaded. by destruct (allLoaded _). Qed.

Lemma handle_ownsClones e w :
  cleanEvent e = true ->
  ownsClones (bearScene w) -> ownsClones (bearScene (handle e w)).
Proof.
  intros He Hown. destruct e; unfold handle.
  - by apply onBearLoaded_ownsClones.
  - by apply onAccessoryLoaded_ownsClones.
  - by rewrite onTimeout_bearScene.
  - by apply updateBearSkin_ownsClones.
  - by apply updatePartColor_ownsClones.
  - by apply updateHat_ownsClones.
  - by apply toggleScarf_ownsClones.
  - by apply updateCurrentAccessoryColor_ownsClones.
  - by apply resetAll_ownsClones.
Qed.

(** From the start of the script on, whatever loads and whatever the
    user does, every marked material of the bear belongs to one mesh. *)
Lemma reachable_ownsClones (page : Dom) (es : list Event) :
  forallb cleanEvent es = true -> ownsClones (bearScene (run es (init page))).
Proof.
  assert (H0 : ownsClones (bearScene (init page))).
  { split; intros i; intros; cbn in *; by rewrite lookup_nil in *. }
  revert H0. generalize (init page). induction es as [|e es IH]; intros w Hw Hes.
  - done.
  - cbn [forallb] in Hes. apply andb_true_iff in Hes as [He Hes].
    change (run (e :: es) w) with (run es (handle e w)).
    apply IH; [|done]. by apply handle_ownsClones.
Qed.

End Reachable.

(** ** Every accessory mesh has its material, in every state of the textured program *)

Section AccessoryMaterials.

Import Skins.

Implicit Types (w : World) (ns : list Node) (h : Materials).

Lemma meshRefsBelow_mono k k' ns :
  k ≤ k' -> meshRefsBelow k ns = true -> meshRefsBelow k' ns = true.
Proof.
  unfold meshRefsBelow. rewrite !forallb_forall. intros Hk Hall n Hn.
  specialize (Hall n Hn). destruct n as [nm|nm r cnt]; [done|].
  apply Nat.ltb_lt in Hall. apply Nat.ltb_lt. lia.
Qed.

Lemma touch_store_length P i acc acc' :
  Touch P i acc acc' -> length acc.2 ≤ length acc'.2.
Proof.
  intros [| |]; cbn [snd]; rewrite ?length_insert, ?length_app; lia.
Qed.

Lemma fold_touch_store_length P st (idx : list nat) acc :
  (∀ acc0 i, Touch P i acc0 (st acc0 i)) ->
  length acc.2 ≤ length (foldl st acc idx).2.
Proof.
  intros Hst. revert acc. induction idx as [|i idx IH]; intros acc; cbn [foldl]; [done|].
  etrans; [|apply IH]. eapply touch_store_length, Hst.
Qed.

Lemma extends_refl w : extends w w.
Proof. split; [done|]. eauto. Qed.

Lemma extends_same w w' :
  materials w' = materials w -> accessories w' = accessories w -> extends w w'.
Proof. intros Hm Ha. split; [by rewrite Hm|]. rewrite Ha. eauto. Qed.

Lemma extends_trans w1 w2 w3 : extends w1 w2 -> extends w2 w3 -> extends w1 w3.
Proof.
  intros [Hl1 Ha1] [Hl2 Ha2]. split; [lia|].
  intros name o3 H3. destruct (Ha2 _ _ H3) as (o2 & H2 & Hn2).
  destruct (Ha1 _ _ H2) as (o1 & H1 & Hn1). exists o1. split; [done|]. congruence.
Qed.

Lemma extends_present w w' : extends w w' -> accessoriesPresent w -> accessoriesPresent w'.
Proof.
  intros [Hl Ha] Hp name o' Ho'. destruct (Ha _ _ Ho') as (o & Ho & Hn).
  unfold materialsPresent. rewrite Hn.
  eapply meshRefsBelow_mono; [exact Hl|]. by apply (Hp name).
Qed.

Lemma updateBearSkin_accessories s w : accessories (updateBearSkin s w) = accessories w.
Proof.
  unfold updateBearSkin.
  destruct (textures !! s); [|done]. destruct (bear w); [|done].
  by destruct (traverseFrom _ _ _ _).
Qed.

Lemma set_bearNodes_accessories ns w : accessories (set_bearNodes ns w) = accessories w.
Proof. unfold set_bearNodes. by destruct (bear w). Qed.

Lemma updatePartColor_accessories p c w : accessories (updatePartColor p c w) = accessories w.
Proof.
  unfold updatePartColor.
  destruct (String.eqb p "eyes").
  - destruct (eyes (bearParts w)) as [[|e es]|]; [done| |done].
    destruct (foldl _ _ _). cbn. apply set_bearNodes_accessories.
  - destruct (String.eqb p "nose"); [|done].
    destruct (nose (bearParts w)); [|done].
    destruct (colorMesh _ _ _ _ _). cbn. apply set_bearNodes_accessories.
Qed.

Lemma updateBearSkin_extends s w : extends w (updateBearSkin s w).
Proof.
  split; [|rewrite updateBearSkin_accessories; eauto].
  change (length (bearScene w).2 ≤ length (bearScene (updateBearSkin s w)).2).
  destruct (bearScene_updateBearSkin s w) as [-> | ->]; [done|].
  eapply fold_touch_store_length, Skins_skin_touch.
Qed.

Lemma updatePartColor_materials p c w :
  length (materials w) ≤ length (materials (updatePartColor p c w)).
Proof.
  assert (Hmarks : ∀ flag setFlag,
    (flag = UserData.isEyeCloned ∧ setFlag = UserData.set_isEyeCloned) ∨
    (flag = UserData.isNoseCloned ∧ setFlag = UserData.set_isNoseCloned) ->
    ∀ acc0 i, Touch (λ _, True) i acc0 (colorMesh flag setFlag c acc0 i)).
  { intros flag setFlag Hfs acc0 i.
    apply Skins_colorMesh_touch; destruct Hfs as [[-> ->]|[-> ->]];
      intros m0; unfold flagged; destruct m0 as [? ? ? [[] [] []]]; cbn; done. }
  unfold updatePartColor.
  destruct (String.eqb p "eyes").
  - destruct (eyes (bearParts w)) as [[|e es]|]; [done| |done].
    pose proof (fold_touch_store_length (λ _, True) _ (e :: es) (bearNodes w, materials w)
                  (Hmarks _ _ (or_introl (conj eq_refl eq_refl)))) as Hlen.
    destruct (foldl _ _ (e :: es)) as [ns h]. exact Hlen.
  - destruct (String.eqb p "nose"); [|done].
    destruct (nose (bearParts w)) as [n|]; [|done].
    pose proof (touch_store_length _ _ _ _
                  (Hmarks _ _ (or_intror (conj eq_refl eq_refl)) (bearNodes w, materials w) n))
      as Hlen.
    destruct (colorMesh _ _ c _ n) as [ns h]. exact Hlen.
Qed.

Lemma updatePartColor_extends p c w : extends w (updatePartColor p c w).
Proof.
  split; [apply updatePartColor_materials|].
  rewrite updatePartColor_accessories. eauto.
Qed.

Lemma updateAccessoryColor_extends name c w : extends w (updateAccessoryColor name c w).
Proof.
  split; [|rewrite updateAccessoryColor_accessories; eauto].
  rewrite updateAccessoryColor_eq.
  destruct (accessories w !! name) as [a|]; [|done].
  change (materials (set_materials ?h w)) with h.
  unfold traverse. by rewrite accessory_traverse_length.
Qed.

Lemma setVisible_extends k v w : extends w (setVisible k v w).
Proof.
  split; [done|]. intros name o' Ho'. unfold setVisible in Ho'. cbn in Ho'.
  rewrite lookup_alter in Ho'. case_decide; [subst|eauto].
  destruct (accessories w !! name) as [o|]; [|done].
  injection Ho' as <-. eauto.
Qed.

Lemma section_extends w w' : extends w w' -> extends w (updateAccessoryColorSection w').
Proof. intros H. exact H. Qed.

Lemma set_state_extends st w w' : extends w w' -> extends w (set_state st w').
Proof. intros H. exact H. Qed.

Lemma updateHat_extends v w : extends w (updateHat v w).
Proof.
  unfold updateHat. cbv zeta. apply section_extends, set_state_extends.
  assert (H2 : extends w (setVisible "beanie" false (setVisible "hat" false w))).
  { eapply extends_trans; apply setVisible_extends. }
  destruct (negb (String.eqb v "none") && _); [|done].
  eapply extends_trans; [exact H2|].
  eapply extends_trans; [apply setVisible_extends|apply updateAccessoryColor_extends].
Qed.

Lemma toggleScarf_extends v w : extends w (toggleScarf v w).
Proof.
  unfold toggleScarf. cbv zeta. apply section_extends, set_state_extends.
  destruct (accessories w !! "scarf"); [|apply extends_refl].
  destruct v; [|apply setVisible_extends].
  eapply extends_trans; [apply setVisible_extends|apply updateAccessoryColor_extends].
Qed.

Lemma updateCurrentAccessoryColor_extends c w : extends w (updateCurrentAccessoryColor c w).
Proof.
  unfold updateCurrentAccessoryColor. cbv zeta.
  set (w1 := set_state (set_currentAccessoryColor c (state w)) w).
  assert (H1 : extends w w1) by (by apply extends_same).
  set (w2 := if negb (String.eqb (currentHat (state w1)) "none")
             then updateAccessoryColor (currentHat (state w1)) c w1 else w1).
  assert (H2 : extends w w2).
  { unfold w2. destruct (negb _); [|done].
    eapply extends_trans; [exact H1|apply updateAccessoryColor_extends]. }
  destruct (scarfVisible (state w2)); [|done].
  eapply extends_trans; [exact H2|apply updateAccessoryColor_extends].
Qed.

Lemma resetAll_extends w : extends w (resetAll w).
Proof.
  unfold resetAll. cbv zeta. apply section_extends.
  eapply extends_trans; [|apply updateCurrentAccessoryColor_extends].
  eapply extends_trans; [|apply toggleScarf_extends].
  eapply extends_trans; [|apply updateHat_extends].
  eapply extends_trans; [|apply updatePartColor_extends].
  eapply extends_trans; [|apply updatePartColor_extends].
  eapply extends_trans; [|apply updateBearSkin_extends].
  by apply extends_same.
Qed.

Lemma checkAllLoaded_extends w : extends w (checkAllLoaded w).2.
Proof. unfold checkAllLoaded. cbn [snd]. by destruct (allLoaded _); apply extends_same. Qed.

Lemma onTimeout_extends w : extends w (onTimeout w).
Proof. unfold onTimeout, checkAllLoaded. by destruct (allLoaded _); apply extends_same. Qed.

Lemma onBearLoaded_extends g w : extends w (onBearLoaded g w).
Proof.
  unfold onBearLoaded. cbv zeta.
  eapply extends_trans; [|apply checkAllLoaded_extends].
  eapply extends_trans; [|by apply extends_same].
  eapply extends_trans; [|apply updatePartColor_extends].
  eapply extends_trans; [|apply updatePartColor_extends].
  eapply extends_trans; [|apply updateBearSkin_extends].
  split; [cbn; rewrite length_app; lia|]. cbn. eauto.
Qed.

(** The traversal of [loadAccessory] gives every mesh a material of its
    own at the end of the store. *)
Lemma freshMaterial_present k ns h :
  meshRefsBelow (length (traverseFrom k (λ _, freshMaterial) ns h).2)
                (traverseFrom k (λ _, freshMaterial) ns h).1 = true.
Proof.
  revert k h. induction ns as [|n ns IH]; intros k h; cbn [traverseFrom]; [done|].
  destruct n as [nm|nm r0 cnt]; cbn [freshMaterial].
  - specialize (IH (S k) h).
    destruct (traverseFrom (S k) _ ns h) as [ns' h']. exact IH.
  - specialize (IH (S k) (h ++ [MeshStandardMaterial (currentAccessoryColor defaults)])).
    destruct (freshMaterial_extends (S k) ns
                (h ++ [MeshStandardMaterial (currentAccessoryColor defaults)])) as [extra He].
    destruct (traverseFrom (S k) _ ns _) as [ns' h']. cbn [fst snd] in *.
    unfold meshRefsBelow in *. cbn [forallb]. rewrite IH, andb_true_r.
    apply Nat.ltb_lt. subst h'. rewrite !length_app. cbn. lia.
Qed.

Lemma onAccessoryLoaded_present name g w :
  accessoriesPresent w -> accessoriesPresent (onAccessoryLoaded name g w).
Proof.
  intros Hp. unfold onAccessoryLoaded. cbv zeta.
  pose proof (freshMaterial_present 0 (nodes (GLTF.scene g)) (materials w)) as Hnew.
  destruct (freshMaterial_extends 0 (nodes (GLTF.scene g)) (materials w)) as [extra He].
  unfold traverse.
  destruct (traverseFrom 0 _ (nodes (GLTF.scene g)) (materials w)) as [ns h].
  cbn [fst snd] in *.
  eapply extends_present; [apply checkAllLoaded_extends|].
  intros k o Ho. cbn in Ho. unfold materialsPresent. cbn [materials set_loadingStatus
    set_materials].
  apply lookup_insert_Some in Ho as [[_ <-]|[_ Ho]].
  - exact Hnew.
  - eapply meshRefsBelow_mono; [|by apply (Hp k)].
    subst h. rewrite length_app. lia.
Qed.

Lemma handle_present e w : accessoriesPresent w -> accessoriesPresent (handle e w).
Proof.
  intros Hp. destruct e; unfold handle.
  - eapply extends_present; [apply onBearLoaded_extends|done].
  - by apply onAccessoryLoaded_present.
  - eapply extends_present; [apply onTimeout_extends|done].
  - eapply extends_present; [apply updateBearSkin_extends|done].
  - eapply extends_present; [apply updatePartColor_extends|done].
  - eapply extends_present; [apply updateHat_extends|done].
  - eapply extends_present; [apply toggleScarf_extends|done].
  - eapply extends_present; [apply updateCurrentAccessoryColor_extends|done].
  - eapply extends_present; [apply resetAll_extends|done].
Qed.

(** From the start of the script on, every mesh of every loaded accessory
    has its material in the store. *)
Lemma reachable_accessoriesPresent (page : Dom) (es : list Event) :
  accessoriesPresent (run es (init page)).
Proof.
  assert (H0 : accessoriesPresent (init page)).
  { intros name o Ho. cbn in Ho. by rewrite lookup_empty in Ho. }
  revert H0. generalize (init page). induction es as [|e es IH]; intros w Hw; [done|].
  change (run (e :: es) w) with (run es (handle e w)).
  by apply IH, handle_present.
Qed.

End AccessoryMaterials.

(** ** [CONFIG] is never written *)

Section ConfigIntact.

Context {ops : SceneManagerOps}.

Lemma new_flagsOwned : flagsOwned App.new.
Proof. split; [reflexivity|discriminate]. Qed.

Lemma handle_flagsOwned (e : UIEvent) (a : App.t) :
  flagsOwned a -> flagsOwned (handle e a).
Proof.
  intros [Hcfg Hne]. destruct e; unfold handle; try (split; assumption).
  - split; [|assumption]. unfold configIntact, onAccessoryChange, BearState.set_accessory
      in *. cbn [App.flags]. by rewrite list_lookup_alter_ne.
  - unfold resetAll. cbv zeta. rewrite resetState_eq.
    unfold flagsOwned, configIntact in *. cbn [App.flags App.bearState
      App.set_sceneManager BearState.accessories]. split.
    + by apply lookup_app_l_Some.
    + apply lookup_lt_Some in Hcfg. lia.
Qed.

Lemma reachable_flagsOwned (es : list UIEvent) (a : App.t) :
  flagsOwned a -> flagsOwned (foldl (λ a e, handle e a) a es).
Proof.
  revert a. induction es as [|e es IH]; intros a Ha; cbn [foldl]; [done|].
  by apply IH, handle_flagsOwned.
Qed.

End ConfigIntact.

(** In the second part of [script.js], loads included. *)
Lemma Loader_reachable_configIntact (es : list Loader.Event) :
  configIntact (App.flags (Loader.run es App.new)).
Proof.
  assert (H : ∀ a, flagsOwned a -> flagsOwned (Loader.run es a)).
  { induction es as [|e es IH]; intros a Ha; [done|].
    change (Loader.run (e :: es) a) with (Loader.run es (Loader.step e a)).
    apply IH. destruct e as [what g|e]; unfold Loader.step.
    - unfold Loader.onLoad. by destruct (Loader.loadModel g (App.sceneManager a)).
    - by apply handle_flagsOwned. }
  apply H, new_flagsOwned.
Qed.

(** ** Instances *)

Lemma reset_yields_default_record_witness :
  configIntact (App.flags Sample.configured) ∧
  BearState.isDefault (App.bearState (App.resetState Sample.configured))
                      (App.flags (App.resetState Sample.configured)) ∧
  Skins.state (Skins.resetAll Sample.hatOn) = Skins.defaults.
Proof.
  assert (H : configIntact (App.flags Sample.configured)) by (vm_compute; reflexivity).
  pose proof (reset_yields_default_record Sample.configured Sample.hatOn H)
    as (H1 & _ & _ & _ & _ & H4).
  exact (conj H (conj H1 H4)).
Defined.



Lemma recolor_respects_exemption_witness :
  let s := App.sceneManager Sample.sittingOnly in
  let eye := Material.mk "EyeBlack" 0 None (UserData.mk false true false) in
  Scene.surface s 0 3 = Some eye ∧
  Scene.surface (Forms.updateFurColor "pink" s) 0 3 = Some eye ∧
  Skins.surface (Skins.updateBearSkin "pink" Sample.dressed) 3
    = Skins.surface Sample.dressed 3.
Proof.
  cbv zeta.
  assert (Hb : Scene.currentBear (App.sceneManager Sample.sittingOnly) = Some 0)
    by (vm_compute; reflexivity).
  assert (Hj : Scene.surface (App.sceneManager Sample.sittingOnly) 0 3
               = Some (Material.mk "EyeBlack" 0 None (UserData.mk false true false)))
    by (vm_compute; reflexivity).
  assert (Hown : ownsClones (bearScene Sample.dressed)).
  { unfold Sample.dressed. apply reachable_ownsClones. vm_compute. reflexivity. }
  pose proof (recolor_respects_exemption _ 0 Sample.dressed "pink" "blue" "pink"
                0x228B22%Z 3 _ Hb Hj Hown) as (H1 & _ & H3 & _).
  split; [exact Hj|]. split.
  - apply H1. reflexivity.
  - apply H3. vm_compute. reflexivity.
Defined.

(** * Further properties of the code *)

(** ** Switching twice *)

Section SwitchTwice.

Implicit Types (s : Scene.t) (F : string) (os : list Object3D).

Lemma alter_visible_twice v v' r os :
  alter (set_visible v) r (alter (set_visible v') r os) = alter (set_visible v) r os.
Proof. rewrite list_alter_alter_eq. apply list_alter_ext; [|done]. by intros [] _. Qed.

(** Showing an object that is shown already changes nothing. *)
Lemma alter_visible_shown r os :
  (∀ o, os !! r = Some o -> visible o = true) -> alter (set_visible true) r os = os.
Proof.
  intros Hv. apply list_eq. intros k. rewrite list_lookup_alter.
  case_decide; [subst|done].
  destruct (os !! k) as [o|] eqn:Ho; [|done]. cbn.
  specialize (Hv o eq_refl). destruct o. cbn in *. by subst.
Qed.

Lemma Draft_switchBearForm_idem F s :
  Draft.switchBearForm F (Draft.switchBearForm F s) = Draft.switchBearForm F s.
Proof.
  destruct s as [h os bm ac cb]. unfold Draft.switchBearForm, Scene.setVisible,
    Scene.set_objects, Scene.set_currentBear.
  destruct cb as [b|]; cbn; destruct (bm !! F) as [nb|] eqn:HF; cbn; rewrite ?HF; cbn;
    f_equal; by rewrite ?alter_visible_twice.
Qed.

Lemma placeAccessory_eq k f s :
  Forms.placeAccessory k f s =
  Scene.set_objects (placeObjs (Scene.accessories s !! k) f (Scene.objects s)) s.
Proof.
  unfold Forms.placeAccessory, placeObjs.
  destruct (Scene.accessories s !! k); [done|]. by destruct s.
Qed.

Lemma placeObjs_lookup a f os r :
  placeObjs a f os !! r = (if decide (a = Some r) then f else id) <$> os !! r.
Proof.
  unfold placeObjs. destruct a as [a|].
  - rewrite list_lookup_alter. destruct (decide (a = r)) as [->|Hne].
    + by rewrite decide_True.
    + rewrite decide_False by congruence. by destruct (os !! r).
  - rewrite decide_False by done. by destruct (os !! r).
Qed.

Lemma placeObjs_visible a f v r os :
  (∀ o, f (set_visible v o) = set_visible v (f o)) ->
  placeObjs a f (alter (set_visible v) r os) = alter (set_visible v) r (placeObjs a f os).
Proof.
  intros Hf. apply list_eq. intros k.
  rewrite placeObjs_lookup. destruct (decide (r = k)) as [->|Hne].
  - rewrite !list_lookup_alter_eq, placeObjs_lookup.
    destruct (os !! k) as [o|]; case_decide; cbn; by rewrite ?Hf.
  - rewrite !list_lookup_alter_ne by done. by rewrite placeObjs_lookup.
Qed.

Lemma repositionAccessories_eq F s :
  Forms.repositionAccessories F s =
  Scene.set_objects (reposObjs F (Scene.accessories s) (Scene.objects s)) s.
Proof.
  unfold Forms.repositionAccessories, reposObjs.
  destruct (Forms.positions !! F) as [pos|]; [|by destruct s].
  by rewrite !placeAccessory_eq.
Qed.

Lemma reposObjs_visible F ac v r os :
  reposObjs F ac (alter (set_visible v) r os) = alter (set_visible v) r (reposObjs F ac os).
Proof.
  unfold reposObjs. destruct (Forms.positions !! F) as [pos|]; [|done].
  by rewrite !placeObjs_visible by (by intros []).
Qed.

(** Placing the accessories twice is placing them once. *)
Lemma reposObjs_idem F ac os :
  reposObjs F ac (reposObjs F ac os) = reposObjs F ac os.
Proof.
  unfold reposObjs. destruct (Forms.positions !! F) as [pos|]; [|done].
  apply list_eq. intros k. rewrite !placeObjs_lookup.
  destruct (os !! k) as [[v [px py pz] sc ns]|]; [|done]. cbn.
  by repeat case_decide.
Qed.

(** [switchBearForm] of the second part, field by field. *)
Lemma Forms_switchBearForm_eq F s :
  Forms.switchBearForm F s =
  let os1 := match Scene.currentBear s with
             | Some b => alter (set_visible false) b (Scene.objects s)
             | None => Scene.objects s
             end in
  match Scene.bearModels s !! F with
  | Some nb =>
      Scene.mk (Scene.materials s)
               (reposObjs F (Scene.accessories s) (alter (set_visible true) nb os1))
               (Scene.bearModels s) (Scene.accessories s) (Some nb)
  | None =>
      Scene.mk (Scene.materials s) os1 (Scene.bearModels s) (Scene.accessories s)
               (Scene.currentBear s)
  end.
Proof.
  destruct s as [h os bm ac cb]. unfold Forms.switchBearForm.
  destruct cb as [b|];
    cbn [Scene.currentBear Scene.bearModels Scene.setVisible Scene.set_objects
         Scene.objects Scene.materials Scene.accessories];
    destruct (bm !! F) as [nb|]; try reflexivity;
    by rewrite repositionAccessories_eq.
Qed.

Lemma Forms_switchBearForm_idem F s :
  Forms.switchBearForm F (Forms.switchBearForm F s) = Forms.switchBearForm F s.
Proof.
  rewrite (Forms_switchBearForm_eq F (Forms.switchBearForm F s)).
  rewrite (Forms_switchBearForm_eq F s). cbv zeta.
  destruct (Scene.bearModels s !! F) as [nb|] eqn:HF;
    cbn [Scene.currentBear Scene.bearModels Scene.objects Scene.materials
         Scene.accessories]; rewrite HF.
  - f_equal.
    rewrite <- reposObjs_visible, alter_visible_twice, <- reposObjs_visible,
      alter_visible_twice. apply reposObjs_idem.
  - f_equal. destruct (Scene.currentBear s); [|done]. apply alter_visible_twice.
Qed.

End SwitchTwice.

(** X1: calling [switchBearForm] twice with the same form leaves the scene
    as one call does, whether or not the form is registered, in both parts
    of [script.js]. *)
Theorem switchBearForm_twice (F : string) (s : Scene.t) :
  Draft.switchBearForm F (Draft.switchBearForm F s) = Draft.switchBearForm F s ∧
  Forms.switchBearForm F (Forms.switchBearForm F s) = Forms.switchBearForm F s.
Proof. split; [apply Draft_switchBearForm_idem|apply Forms_switchBearForm_idem]. Qed.

(** ** A run of switches between registered forms *)

Section SwitchSequence.

Implicit Types (s : Scene.t) (F : string).

Lemma Forms_switchBearForm_bearModels F s :
  Scene.bearModels (Forms.switchBearForm F s) = Scene.bearModels s.
Proof.
  rewrite Forms_switchBearForm_eq. cbv zeta.
  by destruct (Scene.bearModels s !! F).
Qed.

Lemma switchBearForm_registered_last (Fs : list string) F s b nb :
  registryValid s -> oneVisible s b ->
  Forall (λ F, is_Some (Scene.bearModels s !! F)) Fs ->
  Scene.bearModels s !! F = Some nb ->
  oneVisible (foldl (λ s F, Forms.switchBearForm F s) s (Fs ++ [F])) nb.
Proof.
  revert s b. induction Fs as [|F0 Fs IH]; intros s b Hval Hone HFs HF; simpl.
  - by apply (switchBearForm_registered F s b nb).
  - apply Forall_cons in HFs as [[nb0 HF0] HFs].
    destruct (switchBearForm_registered F0 s b nb0 Hval Hone HF0) as [Hval' Hone'].
    apply (IH _ nb0 Hval' Hone'); by rewrite Forms_switchBearForm_bearModels.
Qed.

(** A check of [registryValid] that can be run. *)
Lemma registryValid_check s :
  forallb (λ r, r <? length (Scene.objects s))
          (elements (map_img (Scene.bearModels s) : gset nat)) = true ->
  registryValid s.
Proof.
  intros H k r Hk. rewrite forallb_forall in H.
  apply Nat.ltb_lt, H, list_elem_of_In, elem_of_elements, elem_of_map_img. eauto.
Qed.

End SwitchSequence.

(** X2: in the second part of [script.js], when every model reference in
    the registry is valid and the current bear is the one visible variant,
    a run of [switchBearForm] calls that all name registered forms ends
    with the model of the last form as the current bear and as the one
    visible registered variant. *)
Theorem switchBearForm_shows_last_requested
    (Fs : list string) (F : string) (s : Scene.t) (b nb : nat) :
  registryValid s -> oneVisible s b ->
  Forall (λ F, is_Some (Scene.bearModels s !! F)) Fs ->
  Scene.bearModels s !! F = Some nb ->
  Scene.currentBear (foldl (λ s F, Forms.switchBearForm F s) s (Fs ++ [F])) = Some nb ∧
  Scene.visibleVariants (foldl (λ s F, Forms.switchBearForm F s) s (Fs ++ [F])) = [nb].
Proof. intros Hval Hone HFs HF. by apply (switchBearForm_registered_last Fs F s b nb). Qed.

Lemma switchBearForm_shows_last_requested_witness :
  let s := App.sceneManager twoForms in
  Scene.visibleVariants s = [0] ∧
  Scene.visibleVariants
    (foldl (λ s F, Forms.switchBearForm F s) s ["standing"; "sitting"; "standing"]) = [1].
Proof.
  cbv zeta.
  assert (Hval : registryValid (App.sceneManager twoForms))
    by (apply registryValid_check; vm_compute; reflexivity).
  assert (Hone : oneVisible (App.sceneManager twoForms) 0)
    by (split; vm_compute; reflexivity).
  assert (HFs : Forall (λ F, is_Some (Scene.bearModels (App.sceneManager twoForms) !! F))
                       ["standing"; "sitting"]).
  { repeat constructor; vm_compute; eauto. }
  assert (HF : Scene.bearModels (App.sceneManager twoForms) !! "standing" = Some 1)
    by (vm_compute; reflexivity).
  split; [exact (proj2 Hone)|].
  exact (proj2 (switchBearForm_shows_last_requested
                  ["standing"; "sitting"] "standing" _ 0 1 Hval Hone HFs HF)).
Defined.

(** ** What a recolouring operation paints *)

Section Paint.

Implicit Types (ns : list Node) (h : Materials) (acc : list Node * Materials).

Lemma ownMaterial_cases flag setFlag r h m :
  h !! r = Some m ->
  ownMaterial flag setFlag r h =
  if flag (Material.userData m) then (r, h)
  else (length h, h ++ [Material.set_userData (setFlag (Material.userData m)) m]).
Proof.
  intros Hr. unfold ownMaterial, clone. rewrite Hr.
  destruct (flag _); [done|]. by rewrite alter_snoc.
Qed.

Lemma shown_mesh ns h j mj :
  shown (ns, h) j = Some mj ->
  ∃ nm r cnt, ns !! j = Some (Mesh nm r cnt) ∧ h !! r = Some mj.
Proof.
  unfold shown. cbn [fst snd]. destruct (ns !! j) as [[nm|nm r cnt]|]; cbn; [done| |done].
  eauto.
Qed.

Lemma shown_of_mesh ns h j nm r cnt :
  ns !! j = Some (Mesh nm r cnt) -> shown (ns, h) j = h !! r.
Proof. intros Hj. unfold shown. cbn [fst snd]. by rewrite Hj. Qed.

(** The material shown by a mesh after a clone-on-first-write step at
    mesh [i]: mesh [i] shows its former material with the write applied
    (and possibly the clone mark); every other mesh shows what it showed,
    with the write applied when it shares the written material. *)
Lemma ownWrite_shown flag setFlag upd ns h i nm r cnt j mj :
  ns !! i = Some (Mesh nm r cnt) ->
  shown (ns, h) j = Some mj ->
  if decide (j = i)
  then ∃ u, shown (ownWrite flag setFlag upd (ns, h) i nm r cnt) j
            = Some (upd (Material.set_userData u mj))
  else shown (ownWrite flag setFlag upd (ns, h) i nm r cnt) j = Some mj ∨
       shown (ownWrite flag setFlag upd (ns, h) i nm r cnt) j = Some (upd mj).
Proof.
  intros Hi Hj. unfold ownWrite. cbn [fst snd].
  assert (Hlt : i < length ns) by (eapply lookup_lt_Some; eauto).
  destruct (decide (j = i)) as [->|Hne].
  - rewrite (shown_of_mesh _ _ _ _ _ _ Hi) in Hj.
    rewrite (ownMaterial_cases _ _ _ _ _ Hj).
    destruct (flag (Material.userData mj)).
    + exists (Material.userData mj).
      erewrite shown_of_mesh by (by apply list_lookup_insert_eq).
      rewrite list_lookup_alter_eq, Hj. by destruct mj.
    + exists (setFlag (Material.userData mj)).
      erewrite shown_of_mesh by (by apply list_lookup_insert_eq).
      by rewrite alter_snoc, lookup_app_r, Nat.sub_diag.
  - destruct (shown_mesh _ _ _ _ Hj) as (nm' & rj & cnt' & Hnj & Hrj).
    assert (Hnj' : ∀ n, <[i := n]> ns !! j = Some (Mesh nm' rj cnt'))
      by (intros n; by rewrite list_lookup_insert_ne).
    destruct (h !! r) as [m|] eqn:Hr.
    + rewrite (ownMaterial_cases _ _ _ _ _ Hr). destruct (flag (Material.userData m)).
      * erewrite shown_of_mesh by apply Hnj'.
        destruct (decide (r = rj)) as [->|Hrr].
        -- right. by rewrite list_lookup_alter_eq, Hrj.
        -- left. by rewrite list_lookup_alter_ne.
      * left. erewrite shown_of_mesh by apply Hnj'.
        rewrite alter_snoc, lookup_app_l by (eapply lookup_lt_Some; eauto). done.
    + left. unfold ownMaterial. rewrite Hr.
      erewrite shown_of_mesh by apply Hnj'. by rewrite alter_absent.
Qed.

Section Step.

(** A step that either does nothing or is a clone-on-first-write step on
    the mesh at its position. *)
Variables (flag : UserData.t -> bool) (setFlag : UserData.t -> UserData.t)
          (upd : Material.t -> Material.t)
          (st : list Node * Materials -> nat -> list Node * Materials).

Hypothesis st_cases : ∀ acc i,
  st acc i = acc ∨
  ∃ nm r cnt, acc.1 !! i = Some (Mesh nm r cnt) ∧
              st acc i = ownWrite flag setFlag upd acc i nm r cnt.

(** A property of materials that the write and the clone mark preserve
    is preserved on every surface. *)
Lemma step_keeps (Q : Material.t -> Prop) acc i j mj :
  (∀ m, Q m -> Q (upd m)) -> (∀ u m, Q m -> Q (Material.set_userData u m)) ->
  shown acc j = Some mj -> Q mj ->
  ∃ mj', shown (st acc i) j = Some mj' ∧ Q mj'.
Proof.
  intros Hupd Hmark Hj HQ.
  destruct (st_cases acc i) as [-> | (nm & r & cnt & Hi & ->)]; [eauto|].
  destruct acc as [ns h]. cbn [fst] in Hi.
  pose proof (ownWrite_shown flag setFlag upd ns h i nm r cnt j mj Hi Hj) as H.
  destruct (decide (j = i)); [destruct H as [u H]|destruct H as [H|H]]; eauto.
Qed.

Lemma fold_keeps (Q : Material.t -> Prop) idx acc j mj :
  (∀ m, Q m -> Q (upd m)) -> (∀ u m, Q m -> Q (Material.set_userData u m)) ->
  shown acc j = Some mj -> Q mj ->
  ∃ mj', shown (foldl st acc idx) j = Some mj' ∧ Q mj'.
Proof.
  intros Hupd Hmark. revert acc mj.
  induction idx as [|i idx IH]; intros acc mj Hj HQ; cbn [foldl]; [eauto|].
  destruct (step_keeps Q acc i j mj Hupd Hmark Hj HQ) as (mj' & Hj' & HQ'). eauto.
Qed.

(** When the step at [j] writes whenever [Sel] holds of the material it
    finds, and [Sel] survives the steps before it, the surface [j]
    carries the written property [Post] at the end. *)
Lemma fold_paints (Sel Post : Material.t -> Prop) idx acc j mj :
  (∀ m, Sel m -> Sel (upd m)) -> (∀ u m, Sel m -> Sel (Material.set_userData u m)) ->
  (∀ m, Post m -> Post (upd m)) -> (∀ u m, Post m -> Post (Material.set_userData u m)) ->
  (∀ u m, Sel m -> Post (upd (Material.set_userData u m))) ->
  (∀ acc0 nm r cnt m, acc0.1 !! j = Some (Mesh nm r cnt) -> acc0.2 !! r = Some m -> Sel m ->
     st acc0 j = ownWrite flag setFlag upd acc0 j nm r cnt) ->
  j ∈ idx -> shown acc j = Some mj -> Sel mj ->
  ∃ mj', shown (foldl st acc idx) j = Some mj' ∧ Post mj'.
Proof.
  intros HS1 HS2 HP1 HP2 HSP Hsel. revert acc mj.
  induction idx as [|i idx IH]; intros acc mj Hin Hj HS; cbn [foldl].
  - by apply elem_of_nil in Hin.
  - destruct (decide (j = i)) as [<-|Hne].
    + destruct acc as [ns h].
      destruct (shown_mesh _ _ _ _ Hj) as (nm & r & cnt & Hnj & Hrj).
      rewrite (Hsel (ns, h) nm r cnt mj Hnj Hrj HS).
      pose proof (ownWrite_shown flag setFlag upd ns h j nm r cnt j mj Hnj Hj) as H.
      rewrite decide_True in H by done. destruct H as [u H].
      eapply (fold_keeps Post); eauto.
    + apply elem_of_cons in Hin as [?|Hin]; [done|].
      destruct (step_keeps Sel acc i j mj HS1 HS2 Hj HS) as (mj' & Hj' & HS'). eauto.
Qed.

End Step.

End Paint.

(** ** The surfaces each recolouring operation paints *)

Section PaintOps.

Implicit Types (ns : list Node) (h : Materials) (acc : list Node * Materials).

Lemma Forms_fur_step c acc i :
  stepAt (λ _, Forms.furCallback c) acc i =
  match acc.1 !! i with
  | Some (Mesh nm r cnt) =>
      match acc.2 !! r with
      | Some m =>
          if negb (String.eqb (Material.name m) "EyeBlack")
          then ownWrite UserData.isCloned UserData.set_isCloned (Material.set_color c)
                 acc i nm r cnt
          else acc
      | None => acc
      end
  | _ => acc
  end.
Proof.
  destruct acc as [ns h]. unfold stepAt, ownWrite. cbn [fst snd].
  destruct (ns !! i) as [[nm|nm r cnt]|] eqn:Hi; cbn [Forms.furCallback];
    [by rewrite list_insert_id| |done].
  destruct (h !! r) as [m|] eqn:Hr; [|by rewrite list_insert_id].
  destruct (negb _); [|by rewrite list_insert_id].
  by destruct (ownMaterial _ _ r h).
Qed.

Lemma Forms_eye_step c acc i :
  stepAt (λ _, Forms.eyeCallback c) acc i =
  match acc.1 !! i with
  | Some (Mesh nm r cnt) =>
      match acc.2 !! r with
      | Some m =>
          if String.eqb (Material.name m) "EyeBlack"
          then ownWrite UserData.isEyeCloned UserData.set_isEyeCloned (Material.set_color c)
                 acc i nm r cnt
          else acc
      | None => acc
      end
  | _ => acc
  end.
Proof.
  destruct acc as [ns h]. unfold stepAt, ownWrite. cbn [fst snd].
  destruct (ns !! i) as [[nm|nm r cnt]|] eqn:Hi; cbn [Forms.eyeCallback];
    [by rewrite list_insert_id| |done].
  destruct (h !! r) as [m|] eqn:Hr; [|by rewrite list_insert_id].
  destruct (String.eqb _ _); [|by rewrite list_insert_id].
  by destruct (ownMaterial _ _ r h).
Qed.

Lemma Skins_skin_step parts skinName acc i :
  stepAt (Skins.skinCallback parts skinName) acc i =
  match acc.1 !! i with
  | Some (Mesh nm r cnt) =>
      if negb (Skins.isEye parts i) && negb (Skins.isNose parts i)
      then ownWrite UserData.isCloned UserData.set_isCloned
             (Material.set_map (Some skinName)) acc i nm r cnt
      else acc
  | _ => acc
  end.
Proof.
  destruct acc as [ns h]. unfold stepAt, ownWrite. cbn [fst snd].
  destruct (ns !! i) as [[nm|nm r cnt]|] eqn:Hi; cbn [Skins.skinCallback];
    [by rewrite list_insert_id| |done].
  destruct (negb _ && negb _); [|by rewrite list_insert_id].
  by destruct (ownMaterial _ _ r h).
Qed.

Lemma Skins_colorMesh_step flag setFlag c acc i :
  Skins.colorMesh flag setFlag c acc i =
  match acc.1 !! i with
  | Some (Mesh nm r cnt) => ownWrite flag setFlag (Material.set_color c) acc i nm r cnt
  | _ => acc
  end.
Proof. destruct acc as [ns h]. reflexivity. Qed.

Local Ltac by_step_equation E :=
  let acc := fresh "acc" in let i := fresh "i" in
  intros acc i; rewrite E;
  destruct (acc.1 !! i) as [[?|nm r cnt]|]; [by left| |by left];
  repeat (match goal with |- context [match ?x with _ => _ end] => destruct x end);
  (by left) || (right; by exists nm, r, cnt).

Lemma Forms_fur_cases c acc i :
  stepAt (λ _, Forms.furCallback c) acc i = acc ∨
  ∃ nm r cnt, acc.1 !! i = Some (Mesh nm r cnt) ∧
    stepAt (λ _, Forms.furCallback c) acc i =
    ownWrite UserData.isCloned UserData.set_isCloned (Material.set_color c) acc i nm r cnt.
Proof. revert acc i. by_step_equation Forms_fur_step. Qed.

Lemma Forms_eye_cases c acc i :
  stepAt (λ _, Forms.eyeCallback c) acc i = acc ∨
  ∃ nm r cnt, acc.1 !! i = Some (Mesh nm r cnt) ∧
    stepAt (λ _, Forms.eyeCallback c) acc i =
    ownWrite UserData.isEyeCloned UserData.set_isEyeCloned (Material.set_color c)
      acc i nm r cnt.
Proof. revert acc i. by_step_equation Forms_eye_step. Qed.

Lemma Skins_skin_cases parts skinName acc i :
  stepAt (Skins.skinCallback parts skinName) acc i = acc ∨
  ∃ nm r cnt, acc.1 !! i = Some (Mesh nm r cnt) ∧
    stepAt (Skins.skinCallback parts skinName) acc i =
    ownWrite UserData.isCloned UserData.set_isCloned (Material.set_map (Some skinName))
      acc i nm r cnt.
Proof. revert acc i. by_step_equation Skins_skin_step. Qed.

Lemma Skins_colorMesh_cases flag setFlag c acc i :
  Skins.colorMesh flag setFlag c acc i = acc ∨
  ∃ nm r cnt, acc.1 !! i = Some (Mesh nm r cnt) ∧
    Skins.colorMesh flag setFlag c acc i =
    ownWrite flag setFlag (Material.set_color c) acc i nm r cnt.
Proof. revert acc i. by_step_equation Skins_colorMesh_step. Qed.

Lemma seq_elem_of_lookup {A} (l : list A) j x : l !! j = Some x -> j ∈ seq 0 (length l).
Proof. intros H. apply elem_of_seq. apply lookup_lt_Some in H. lia. Qed.

(** In the second part of [script.js], [updateFurColor] gives every
    surface of the current bear whose material is not "EyeBlack" the
    requested colour. *)
Lemma Forms_updateFurColor_paints colorName (s : Scene.t) b j m :
  Scene.currentBear s = Some b ->
  Scene.surface s b j = Some m -> Material.name m ≠ "EyeBlack" ->
  ∃ m', Scene.surface (Forms.updateFurColor colorName s) b j = Some m' ∧
        Material.name m' = Material.name m ∧
        Material.color m' = Color (Config.colors_fur !! colorName).
Proof.
  intros Hb Hj Hm. unfold Forms.updateFurColor. rewrite Hb. cbv zeta.
  set (c := Color (Config.colors_fur !! colorName)).
  destruct (Scene.objects s !! b) as [o|] eqn:Ho;
    [|by unfold Scene.surface in Hj; rewrite Ho in Hj].
  rewrite (surface_traverseCurrent _ _ _ _ _ Ho).
  rewrite (surface_shown _ _ _ _ Ho) in Hj.
  destruct (shown_mesh _ _ _ _ Hj) as (nm0 & r0 & cnt0 & Hn0 & _).
  apply (fold_paints _ _ _ _ (Forms_fur_cases c)
           (λ m', Material.name m' = Material.name m)
           (λ m', Material.name m' = Material.name m ∧ Material.color m' = c)
           _ _ _ m); [done|done|by intros m0 []|by intros u m0 []|done| | |done|done].
  - intros acc0 nm r cnt m0 Hn Hr Hs. rewrite Forms_fur_step, Hn, Hr.
    rewrite Hs. by apply String.eqb_neq in Hm as ->.
  - by eapply seq_elem_of_lookup.
Qed.

(** And [updateEyeColor] every "EyeBlack" surface. *)
Lemma Forms_updateEyeColor_paints colorName (s : Scene.t) b j m :
  Scene.currentBear s = Some b ->
  Scene.surface s b j = Some m -> Material.name m = "EyeBlack" ->
  ∃ m', Scene.surface (Forms.updateEyeColor colorName s) b j = Some m' ∧
        Material.name m' = Material.name m ∧
        Material.color m' = Color (Config.colors_eyes !! colorName).
Proof.
  intros Hb Hj Hm. unfold Forms.updateEyeColor. rewrite Hb. cbv zeta.
  set (c := Color (Config.colors_eyes !! colorName)).
  destruct (Scene.objects s !! b) as [o|] eqn:Ho;
    [|by unfold Scene.surface in Hj; rewrite Ho in Hj].
  rewrite (surface_traverseCurrent _ _ _ _ _ Ho).
  rewrite (surface_shown _ _ _ _ Ho) in Hj.
  destruct (shown_mesh _ _ _ _ Hj) as (nm0 & r0 & cnt0 & Hn0 & _).
  apply (fold_paints _ _ _ _ (Forms_eye_cases c)
           (λ m', Material.name m' = Material.name m)
           (λ m', Material.name m' = Material.name m ∧ Material.color m' = c)
           _ _ _ m); [done|done|by intros m0 []|by intros u m0 []|done| | |done|done].
  - intros acc0 nm r cnt m0 Hn Hr Hs. rewrite Forms_eye_step, Hn, Hr.
    by rewrite Hs, Hm.
  - by eapply seq_elem_of_lookup.
Qed.

End PaintOps.

(** X3: in the second part of [script.js], [updateFurColor] gives every
    surface of the current bear whose material is present and not named
    "EyeBlack" the colour [new THREE.Color(CONFIG.colors.fur[name])], and
    [updateEyeColor] gives every "EyeBlack" surface the colour
    [new THREE.Color(CONFIG.colors.eyes[name])]; the material keeps its
    name.  No assumption on sharing is needed. *)
Theorem Forms_recolor_paints_selected
    (s : Scene.t) (b j : nat) (m : Material.t) (furName eyeName : string) :
  Scene.currentBear s = Some b ->
  Scene.surface s b j = Some m ->
  (Material.name m ≠ "EyeBlack" ->
   ∃ m', Scene.surface (Forms.updateFurColor furName s) b j = Some m' ∧
         Material.name m' = Material.name m ∧
         Material.color m' = Color (Config.colors_fur !! furName)) ∧
  (Material.name m = "EyeBlack" ->
   ∃ m', Scene.surface (Forms.updateEyeColor eyeName s) b j = Some m' ∧
         Material.name m' = Material.name m ∧
         Material.color m' = Color (Config.colors_eyes !! eyeName)).
Proof.
  intros Hb Hj. split; intros Hm.
  - by apply Forms_updateFurColor_paints.
  - by apply Forms_updateEyeColor_paints.
Qed.

Lemma Forms_recolor_paints_selected_witness :
  let s := App.sceneManager Sample.sittingOnly in
  ∃ m', Scene.surface (Forms.updateFurColor "pink" s) 0 2 = Some m' ∧
        Material.name m' = "Fur" ∧ Material.color m' = 0xFFB6C1%Z.
Proof.
  cbv zeta.
  assert (Hb : Scene.currentBear (App.sceneManager Sample.sittingOnly) = Some 0)
    by (vm_compute; reflexivity).
  assert (Hj : Scene.surface (App.sceneManager Sample.sittingOnly) 0 2
               = Some (Material.mk "Fur" 0x8B4513%Z None (UserData.mk true false false)))
    by (vm_compute; reflexivity).
  refine (proj1 (Forms_recolor_paints_selected _ 0 2 _ "pink" "blue" Hb Hj) _).
  cbn. discriminate.
Defined.

(** ** What the textured bear's operations paint *)

Section SkinsPaint.

Import Skins.

Implicit Types (w : World) (acc : list Node * Materials).

Lemma updateBearSkin_known skinName tex w b :
  textures !! skinName = Some tex -> bear w = Some b ->
  bearScene (updateBearSkin skinName w) =
    foldl (stepAt (skinCallback (bearParts w) skinName)) (bearScene w)
          (seq 0 (length (bearNodes w))) ∧
  state (updateBearSkin skinName w) = set_skin skinName (state w).
Proof.
  intros Htex Hb. unfold updateBearSkin. rewrite Htex, Hb.
  pose proof (traverseFrom_stepAt (skinCallback (bearParts w) skinName)
                [] (nodes b) (materials w)) as H.
  cbn [length app] in H.
  unfold bearScene at 2, bearNodes. rewrite Hb, H.
  by destruct (traverseFrom 0 _ (nodes b) (materials w)).
Qed.

Lemma surface_bear w j m : surface w j = Some m -> ∃ b, bear w = Some b.
Proof.
  unfold surface, bearNodes. destruct (bear w) as [b|]; [eauto|].
  by rewrite lookup_nil.
Qed.

Lemma updateBearSkin_paints skinName tex w j m :
  textures !! skinName = Some tex ->
  surface w j = Some m ->
  isEye (bearParts w) j || isNose (bearParts w) j = false ->
  ∃ m', surface (updateBearSkin skinName w) j = Some m' ∧
        Material.map m' = Some skinName ∧
        Material.color m' = Material.color m ∧ Material.name m' = Material.name m.
Proof.
  intros Htex Hj Hsel. destruct (surface_bear _ _ _ Hj) as [b Hb].
  rewrite Skins_surface_shown in *.
  rewrite (proj1 (updateBearSkin_known _ _ _ _ Htex Hb)).
  destruct (shown_mesh _ _ _ _ Hj) as (nm0 & r0 & cnt0 & Hn0 & _).
  apply (fold_paints _ _ _ _ (Skins_skin_cases (bearParts w) skinName)
           (λ m', Material.color m' = Material.color m ∧ Material.name m' = Material.name m)
           (λ m', Material.map m' = Some skinName ∧
                  Material.color m' = Material.color m ∧ Material.name m' = Material.name m)
           _ _ _ m);
    [by intros m0 []|by intros u m0 []|by intros m0 (? & ? & ?)|by intros u m0 (? & ? & ?)
    |by intros u m0 []| | |done|done].
  - intros acc0 nm r cnt m0 Hn _ _. rewrite Skins_skin_step, Hn.
    apply orb_false_iff in Hsel as [-> ->]. done.
  - by eapply seq_elem_of_lookup.
Qed.

(** The bear and the state after [updatePartColor("eyes", c)] when eye
    meshes were found. *)
Lemma updatePartColor_eyes_known c w e es :
  eyes (bearParts w) = Some (e :: es) ->
  shown (bearScene (updatePartColor "eyes" c w)) =
    shown (foldl (colorMesh UserData.isEyeCloned UserData.set_isEyeCloned c)
                 (bearScene w) (e :: es)) ∧
  state (updatePartColor "eyes" c w) = set_eyeColor c (state w).
Proof.
  intros He. unfold updatePartColor. cbn [String.eqb Ascii.eqb Bool.eqb]. rewrite He.
  pose proof (fold_colorMesh_length UserData.isEyeCloned UserData.set_isEyeCloned c
                (e :: es) (bearScene w)) as Hlen.
  change (bearNodes w, materials w) with (bearScene w).
  destruct (foldl _ (bearScene w) (e :: es)) as [ns h] eqn:Hfold.
  change (bearScene (set_state ?st ?x)) with (bearScene x).
  split; [by rewrite bearScene_set|].
  change (state (set_state ?st ?x)) with st.
  change (state (set_materials ?h0 ?x)) with (state x).
  by rewrite set_bearNodes_state.
Qed.

Lemma updatePartColor_nose_known c w i :
  nose (bearParts w) = Some i ->
  shown (bearScene (updatePartColor "nose" c w)) =
    shown (colorMesh UserData.isNoseCloned UserData.set_isNoseCloned c (bearScene w) i) ∧
  state (updatePartColor "nose" c w) = set_noseColor c (state w).
Proof.
  intros Hn. unfold updatePartColor. cbn [String.eqb Ascii.eqb Bool.eqb]. rewrite Hn.
  pose proof (fold_colorMesh_length UserData.isNoseCloned UserData.set_isNoseCloned c
                [i] (bearScene w)) as Hlen.
  cbn [foldl] in Hlen.
  change (bearNodes w, materials w) with (bearScene w).
  destruct (colorMesh _ _ c (bearScene w) i) as [ns h] eqn:Hfold.
  change (bearScene (set_state ?st ?x)) with (bearScene x).
  split; [by rewrite bearScene_set|].
  change (state (set_state ?st ?x)) with st.
  change (state (set_materials ?h0 ?x)) with (state x).
  by rewrite set_bearNodes_state.
Qed.

Lemma colorMesh_paints flag setFlag c idx acc j m :
  j ∈ idx -> shown acc j = Some m ->
  ∃ m', shown (foldl (colorMesh flag setFlag c) acc idx) j = Some m' ∧
        Material.color m' = c ∧
        Material.map m' = Material.map m ∧ Material.name m' = Material.name m.
Proof.
  intros Hin Hj. destruct acc as [ns h].
  apply (fold_paints _ _ _ _ (Skins_colorMesh_cases flag setFlag c)
           (λ m', Material.map m' = Material.map m ∧ Material.name m' = Material.name m)
           (λ m', Material.color m' = c ∧
                  Material.map m' = Material.map m ∧ Material.name m' = Material.name m)
           _ _ _ m);
    [by intros m0 []|by intros u m0 []|by intros m0 (? & ? & ?)|by intros u m0 (? & ? & ?)
    |by intros u m0 []| |done|done|done].
  intros acc0 nm r cnt m0 Hn _ _. by rewrite Skins_colorMesh_step, Hn.
Qed.

End SkinsPaint.

(** X4: [updateBearSkin(skinName)] with a skin of the texture table gives
    every mesh of the bear that is neither an eye nor the nose (and has a
    material) the texture of that skin, keeps the material's colour and
    name, and records the skin in [state.skin]. *)
Theorem updateBearSkin_textures_every_other_mesh
    (w : Skins.World) (skinName tex : string) (j : nat) (m : Material.t) :
  Skins.textures !! skinName = Some tex ->
  Skins.surface w j = Some m ->
  Skins.isEye (Skins.bearParts w) j || Skins.isNose (Skins.bearParts w) j = false ->
  (∃ m', Skins.surface (Skins.updateBearSkin skinName w) j = Some m' ∧
         Material.map m' = Some skinName ∧
         Material.color m' = Material.color m ∧ Material.name m' = Material.name m) ∧
  Skins.skin (Skins.state (Skins.updateBearSkin skinName w)) = skinName.
Proof.
  intros Htex Hj Hsel. split; [by eapply updateBearSkin_paints|].
  destruct (surface_bear _ _ _ Hj) as [b Hb].
  by rewrite (proj2 (updateBearSkin_known _ _ _ _ Htex Hb)).
Qed.

Lemma updateBearSkin_textures_every_other_mesh_witness :
  (∃ m', Skins.surface (Skins.updateBearSkin "panda" Sample.dressed) 2 = Some m' ∧
         Material.map m' = Some "panda" ∧
         Material.color m' = 0xFFFFFF%Z ∧ Material.name m' = "Fur") ∧
  Skins.skin (Skins.state (Skins.updateBearSkin "panda" Sample.dressed)) = "panda".
Proof.
  refine (updateBearSkin_textures_every_other_mesh Sample.dressed "panda"
            "textures/bear_panda.png" 2
            (Material.mk "Fur" 0xFFFFFF%Z (Some "brown") (UserData.mk true false false))
            _ _ _); vm_compute; reflexivity.
Defined.

(** X5: [updatePartColor("eyes", c)] gives every eye mesh the colour [c]
    and records it in [state.eyeColor]; [updatePartColor("nose", c)] does
    the same for the nose mesh and [state.noseColor].  Texture and name of
    the material are kept. *)
Theorem updatePartColor_paints_part
    (w : Skins.World) (c : Z) (j : nat) (m : Material.t) :
  Skins.surface w j = Some m ->
  (Skins.isEye (Skins.bearParts w) j = true ->
   (∃ m', Skins.surface (Skins.updatePartColor "eyes" c w) j = Some m' ∧
          Material.color m' = c ∧
          Material.map m' = Material.map m ∧ Material.name m' = Material.name m) ∧
   Skins.eyeColor (Skins.state (Skins.updatePartColor "eyes" c w)) = c) ∧
  (Skins.isNose (Skins.bearParts w) j = true ->
   (∃ m', Skins.surface (Skins.updatePartColor "nose" c w) j = Some m' ∧
          Material.color m' = c ∧
          Material.map m' = Material.map m ∧ Material.name m' = Material.name m) ∧
   Skins.noseColor (Skins.state (Skins.updatePartColor "nose" c w)) = c).
Proof.
  intros Hj. rewrite !Skins_surface_shown in *. split.
  - unfold Skins.isEye. intros He.
    destruct (Skins.eyes (Skins.bearParts w)) as [[|e es]|] eqn:Hes; [|  |done].
    { apply bool_decide_eq_true in He. by apply elem_of_nil in He. }
    apply bool_decide_eq_true in He.
    destruct (updatePartColor_eyes_known c w e es Hes) as [-> ->].
    split; [by apply colorMesh_paints|done].
  - unfold Skins.isNose. intros Hn. apply bool_decide_eq_true in Hn.
    destruct (updatePartColor_nose_known c w j Hn) as [-> ->].
    split; [|done].
    apply (colorMesh_paints _ _ c [j] (bearScene w) j m); [left|done].
Qed.

Lemma updatePartColor_paints_part_witness :
  (∃ m', Skins.surface (Skins.updatePartColor "eyes" 0x4169E1%Z Sample.dressed) 3 = Some m' ∧
         Material.color m' = 0x4169E1%Z ∧
         Material.map m' = None ∧ Material.name m' = "EyeBlack") ∧
  Skins.eyeColor (Skins.state (Skins.updatePartColor "eyes" 0x4169E1%Z Sample.dressed))
    = 0x4169E1%Z.
Proof.
  refine (proj1 (updatePartColor_paints_part Sample.dressed 0x4169E1%Z 3
                   (Material.mk "EyeBlack" 0 None (UserData.mk false true false)) _) _);
    vm_compute; reflexivity.
Defined.

(** ** Exempt surfaces in the states the textured program reaches *)

Section ReachableExempt.

Import Skins.

(** [updatePartColor("nose", c)] leaves the material of every mesh that
    is not the nose as it was. *)
Lemma Skins_updatePartColor_nose_exempt c (w : World) j :
  ownsClones (bearScene w) ->
  isNose (bearParts w) j = false ->
  surface (updatePartColor "nose" c w) j = surface w j.
Proof.
  intros Hown Hj. rewrite !Skins_surface_shown.
  unfold isNose in Hj. apply bool_decide_eq_false in Hj.
  destruct (nose (bearParts w)) as [i|] eqn:Hn.
  - rewrite (proj1 (updatePartColor_nose_known c w i Hn)).
    eapply (touch_frame _ i); [|done|by intros ->].
    apply Skins_colorMesh_touch.
    + intros m0. unfold flagged. destruct m0 as [? ? ? [[] [] []]]; cbn; done.
    + intros m0. unfold flagged. destruct m0 as [? ? ? [[] [] []]]; cbn; done.
  - unfold updatePartColor. cbn [String.eqb Ascii.eqb Bool.eqb]. by rewrite Hn.
Qed.

End ReachableExempt.

(** X6: in every state the textured program reaches from its start (by
    loads of files whose materials carry no clone mark, the timer and any
    use of the controls), re-skinning changes the material of no eye or
    nose mesh, recolouring the eyes changes the material of no other mesh,
    and recolouring the nose changes the material of no other mesh. *)
Theorem reachable_recolor_keeps_other_parts
    (page : Skins.Dom) (es : list Skins.Event) (skinName : string) (c : Z) (j : nat) :
  forallb cleanEvent es = true ->
  (Skins.isEye (Skins.bearParts (Skins.run es (Skins.init page))) j
     || Skins.isNose (Skins.bearParts (Skins.run es (Skins.init page))) j = true ->
   Skins.surface (Skins.updateBearSkin skinName (Skins.run es (Skins.init page))) j
     = Skins.surface (Skins.run es (Skins.init page)) j) ∧
  (Skins.isEye (Skins.bearParts (Skins.run es (Skins.init page))) j = false ->
   Skins.surface (Skins.updatePartColor "eyes" c (Skins.run es (Skins.init page))) j
     = Skins.surface (Skins.run es (Skins.init page)) j) ∧
  (Skins.isNose (Skins.bearParts (Skins.run es (Skins.init page))) j = false ->
   Skins.surface (Skins.updatePartColor "nose" c (Skins.run es (Skins.init page))) j
     = Skins.surface (Skins.run es (Skins.init page)) j).
Proof.
  intros Hclean. pose proof (reachable_ownsClones page es Hclean) as Hown.
  split; [|split]; intros Hj.
  - by apply Skins_updateBearSkin_exempt.
  - by apply Skins_updatePartColor_eyes_exempt.
  - by apply Skins_updatePartColor_nose_exempt.
Qed.

Lemma reachable_recolor_keeps_other_parts_witness :
  Skins.surface (Skins.updatePartColor "nose" 0xFFB6C1%Z Sample.dressed) 3
    = Skins.surface Sample.dressed 3.
Proof.
  refine (proj2 (proj2 (reachable_recolor_keeps_other_parts Sample.page
            [Skins.BearLoaded Sample.bear; Skins.AccessoryLoaded "hat" Sample.topHat;
             Skins.AccessoryLoaded "scarf" Sample.scarf;
             Skins.AccessoryColorClick 0x4169E1%Z] "panda" 0xFFB6C1%Z 3 _)) _);
    vm_compute; reflexivity.
Defined.

(** ** The accessories of the textured bear across a run *)

Section AccessoryRun.

Import Skins.

Implicit Types (w : World) (acc : gmap string Object3D).

Lemma section_accessories w : accessories (updateAccessoryColorSection w) = accessories w.
Proof. reflexivity. Qed.

Lemma section_materials w : materials (updateAccessoryColorSection w) = materials w.
Proof. reflexivity. Qed.

Lemma set_state_accessories st w : accessories (set_state st w) = accessories w.
Proof. reflexivity. Qed.

Lemma updateCurrentAccessoryColor_accessories c w :
  accessories (updateCurrentAccessoryColor c w) = accessories w.
Proof.
  unfold updateCurrentAccessoryColor. cbv zeta.
  set (w1 := set_state (set_currentAccessoryColor c (state w)) w).
  assert (H1 : accessories w1 = accessories w) by done.
  set (w2 := if negb (String.eqb (currentHat (state w1)) "none")
             then updateAccessoryColor (currentHat (state w1)) c w1 else w1).
  assert (H2 : accessories w2 = accessories w).
  { unfold w2. destruct (negb _); [|done]. by rewrite updateAccessoryColor_accessories. }
  destruct (scarfVisible (state w2)); [|done].
  by rewrite updateAccessoryColor_accessories.
Qed.

Lemma updateHat_none_accessories w :
  accessories (updateHat "none" w) =
  alter (set_visible false) "beanie" (alter (set_visible false) "hat" (accessories w)).
Proof. by rewrite updateHat_accessories. Qed.

Lemma resetAll_accessories w :
  accessories (resetAll w) =
  alter (set_visible false) "scarf"
    (alter (set_visible false) "beanie" (alter (set_visible false) "hat" (accessories w))).
Proof.
  unfold resetAll. cbv zeta.
  rewrite section_accessories, updateCurrentAccessoryColor_accessories,
    toggleScarf_accessories, updateHat_none_accessories, !updatePartColor_accessories,
    updateBearSkin_accessories. done.
Qed.

Lemma checkAllLoaded_accessories w : accessories (checkAllLoaded w).2 = accessories w.
Proof. unfold checkAllLoaded. cbn [snd]. by destruct (allLoaded _). Qed.

Lemma onTimeout_accessories w : accessories (onTimeout w) = accessories w.
Proof. unfold onTimeout, checkAllLoaded. by destruct (allLoaded _). Qed.

Lemma onBearLoaded_accessories g w : accessories (onBearLoaded g w) = accessories w.
Proof.
  unfold onBearLoaded. cbv zeta.
  rewrite checkAllLoaded_accessories.
  change (accessories (set_loadingStatus ?l ?x)) with (accessories x).
  by rewrite !updatePartColor_accessories, updateBearSkin_accessories.
Qed.

(** A loaded accessory is entered hidden. *)
Lemma onAccessoryLoaded_accessories name g w :
  ∃ o, accessories (onAccessoryLoaded name g w) = <[name := o]> (accessories w) ∧
       visible o = false.
Proof.
  unfold onAccessoryLoaded. cbv zeta. unfold traverse.
  destruct (traverseFrom 0 _ (nodes (GLTF.scene g)) (materials w)) as [ns h].
  rewrite checkAllLoaded_accessories. eexists. split; reflexivity.
Qed.

Lemma hidden_hatsExclusive acc :
  hatsExclusive (alter (set_visible false) "beanie" (alter (set_visible false) "hat" acc)).
Proof.
  intros oh ob Hh Hb. rewrite lookup_alter_ne, lookup_alter_eq in Hh by done.
  destruct (acc !! "hat") as [o|]; [|done]. cbn in Hh. by simplify_eq.
Qed.

Lemma handle_hatsExclusive e w :
  hatsExclusive (accessories w) -> hatsExclusive (accessories (handle e w)).
Proof.
  intros Hw. destruct e as [g|name g| |s|p c|v|v|c|]; unfold handle.
  - by rewrite onBearLoaded_accessories.
  - destruct (onAccessoryLoaded_accessories name g w) as (o & -> & Ho).
    intros oh ob Hh Hb.
    destruct (decide (name = "hat")) as [->|Hnh];
      [rewrite lookup_insert_eq in Hh; simplify_eq; by rewrite Ho|].
    destruct (decide (name = "beanie")) as [->|Hnb];
      [rewrite lookup_insert_eq in Hb; simplify_eq; rewrite Ho; apply andb_false_r|].
    rewrite lookup_insert_ne in Hh, Hb by done. eauto.
  - by rewrite onTimeout_accessories.
  - by rewrite updateBearSkin_accessories.
  - by rewrite updatePartColor_accessories.
  - rewrite updateHat_accessories. cbv zeta.
    destruct (negb _ && _); [|apply hidden_hatsExclusive].
    intros oh ob Hh Hb.
    destruct (decide (v = "hat")) as [->|Hnh].
    + rewrite lookup_alter_ne, lookup_alter_eq, lookup_alter_ne in Hb by done.
      destruct (accessories w !! "beanie") as [o|]; [|done]. cbn in Hb. simplify_eq.
      apply andb_false_r.
    + rewrite lookup_alter_ne, lookup_alter_ne, lookup_alter_eq in Hh by done.
      destruct (accessories w !! "hat") as [o|]; [|done]. cbn in Hh. by simplify_eq.
  - rewrite toggleScarf_accessories. intros oh ob Hh Hb.
    rewrite lookup_alter_ne in Hh, Hb by done. eauto.
  - by rewrite updateCurrentAccessoryColor_accessories.
  - rewrite resetAll_accessories. intros oh ob Hh Hb.
    rewrite lookup_alter_ne in Hh, Hb by done. by eapply hidden_hatsExclusive.
Qed.

Lemma run_hatsExclusive es w :
  hatsExclusive (accessories w) -> hatsExclusive (accessories (run es w)).
Proof.
  revert w. induction es as [|e es IH]; intros w Hw; [done|].
  change (run (e :: es) w) with (run es (handle e w)).
  by apply IH, handle_hatsExclusive.
Qed.

End AccessoryRun.

(** X7: in every state the textured program reaches from its start, by
    any loads, the timer and any use of the controls, the hat and the
    beanie are not both shown. *)
Theorem hat_and_beanie_never_shown_together
    (page : Skins.Dom) (es : list Skins.Event) (oh ob : Object3D) :
  Skins.accessories (Skins.run es (Skins.init page)) !! "hat" = Some oh ->
  Skins.accessories (Skins.run es (Skins.init page)) !! "beanie" = Some ob ->
  visible oh && visible ob = false.
Proof.
  apply (run_hatsExclusive es (Skins.init page)).
  intros oh' ob' Hh. cbn in Hh. by rewrite lookup_empty in Hh.
Qed.

Lemma hat_and_beanie_never_shown_together_witness :
  ∃ oh ob, Skins.accessories twoHats !! "hat" = Some oh ∧
           Skins.accessories twoHats !! "beanie" = Some ob ∧
           visible ob = true ∧ visible oh && visible ob = false.
Proof.
  eexists _, _.
  assert (Hh : Skins.accessories twoHats !! "hat"
               = Some (mkObject false (vec3 0 1.96 (-0.1)) (setScalar 1)
                         [Group "TopHat"; Mesh "Brim" 0 96; Mesh "Crown" 1 128]))
    by (vm_compute; reflexivity).
  assert (Hb : Skins.accessories twoHats !! "beanie"
               = Some (mkObject true (vec3 0.22 1.75 (-0.1)) (setScalar 1)
                         [Group "TopHat"; Mesh "Brim" 2 96; Mesh "Crown" 3 128]))
    by (vm_compute; reflexivity).
  split; [exact Hh|]. split; [exact Hb|]. split; [reflexivity|].
  exact (hat_and_beanie_never_shown_together Sample.page _ _ _ Hh Hb).
Defined.

(** ** Reset and the accessory colour section of the textured bear *)

Section AccessorySection.

Import Skins.

Implicit Types (w : World).

Lemma section_tracks w : sectionTracks (updateAccessoryColorSection w).
Proof. reflexivity. Qed.

Lemma resetAll_section w : accessoryColorSection (dom (resetAll w)) = false.
Proof.
  assert (Ht : sectionTracks (resetAll w))
    by (unfold resetAll; cbv zeta; apply section_tracks).
  unfold sectionTracks in Ht. by rewrite Ht, resetAll_state.
Qed.

Lemma resetAll_hidden w name o :
  name ∈ ["hat"; "beanie"; "scarf"] ->
  accessories (resetAll w) !! name = Some o -> visible o = false.
Proof.
  intros Hin. rewrite resetAll_accessories.
  apply elem_of_cons in Hin as [->|Hin];
    [|apply elem_of_cons in Hin as [->|Hin]; [|apply list_elem_of_singleton in Hin as ->]].
  - rewrite lookup_alter_ne, lookup_alter_ne, lookup_alter_eq by done.
    destruct (accessories w !! "hat"); cbn; intros; by simplify_eq.
  - rewrite lookup_alter_ne, lookup_alter_eq, lookup_alter_ne by done.
    destruct (accessories w !! "beanie"); cbn; intros; by simplify_eq.
  - rewrite lookup_alter_eq, !lookup_alter_ne by done.
    destruct (accessories w !! "scarf"); cbn; intros; by simplify_eq.
Qed.

Lemma tracks_frame w w' :
  accessoryColorSection (dom w') = accessoryColorSection (dom w) ->
  currentHat (state w') = currentHat (state w) ->
  scarfVisible (state w') = scarfVisible (state w) ->
  sectionTracks w -> sectionTracks w'.
Proof. unfold sectionTracks. by intros -> -> ->. Qed.

Lemma updateBearSkin_tracks s w : sectionTracks w -> sectionTracks (updateBearSkin s w).
Proof.
  apply tracks_frame; rewrite ?updateBearSkin_dom; [done| |];
    by destruct (updateBearSkin_state_cases s w) as [-> | ->].
Qed.

Lemma updatePartColor_tracks p c w : sectionTracks w -> sectionTracks (updatePartColor p c w).
Proof.
  apply tracks_frame; rewrite ?updatePartColor_dom; [done| |];
    by destruct (updatePartColor_state_cases p c w) as [->|[[_ ->]|[_ ->]]].
Qed.

Lemma checkAllLoaded_tracks w : sectionTracks w -> sectionTracks (checkAllLoaded w).2.
Proof. unfold checkAllLoaded. cbn [snd]. by destruct (allLoaded _). Qed.

Lemma handle_tracks e w : sectionTracks w -> sectionTracks (handle e w).
Proof.
  intros Hw. destruct e as [g|name g| |s|p c|v|v|c|]; unfold handle.
  - unfold onBearLoaded. cbv zeta. apply checkAllLoaded_tracks.
    change (sectionTracks (set_loadingStatus ?l ?x)) with (sectionTracks x).
    by apply updatePartColor_tracks, updatePartColor_tracks, updateBearSkin_tracks.
  - unfold onAccessoryLoaded. cbv zeta. destruct (traverse _ _ _).
    by apply checkAllLoaded_tracks.
  - unfold onTimeout, checkAllLoaded. by destruct (allLoaded _).
  - by apply updateBearSkin_tracks.
  - by apply updatePartColor_tracks.
  - apply section_tracks.
  - apply section_tracks.
  - revert Hw. apply tracks_frame;
      by rewrite ?updateCurrentAccessoryColor_dom, ?updateCurrentAccessoryColor_state.
  - apply section_tracks.
Qed.

Lemma run_tracks es w : sectionTracks w -> sectionTracks (run es w).
Proof.
  revert w. induction es as [|e es IH]; intros w Hw; [done|].
  change (run (e :: es) w) with (run es (handle e w)).
  by apply IH, handle_tracks.
Qed.

End AccessorySection.

(** X8: [resetAll()] of the textured bear ends with the hat, the beanie
    and the scarf hidden (whichever of them are loaded) and the accessory
    colour section not displayed, from any state. *)
Theorem resetAll_hides_every_accessory (w : Skins.World) :
  (∀ name o, name ∈ ["hat"; "beanie"; "scarf"] ->
     Skins.accessories (Skins.resetAll w) !! name = Some o -> visible o = false) ∧
  Skins.accessoryColorSection (Skins.dom (Skins.resetAll w)) = false.
Proof. split; [apply resetAll_hidden|apply resetAll_section]. Qed.

Lemma resetAll_hides_every_accessory_witness :
  ∃ o o', Skins.accessories twoHats !! "beanie" = Some o ∧ visible o = true ∧
          Skins.accessories (Skins.resetAll twoHats) !! "beanie" = Some o' ∧
          visible o' = false.
Proof.
  eexists _, _.
  assert (Hb : Skins.accessories twoHats !! "beanie"
               = Some (mkObject true (vec3 0.22 1.75 (-0.1)) (setScalar 1)
                         [Group "TopHat"; Mesh "Brim" 2 96; Mesh "Crown" 3 128]))
    by (vm_compute; reflexivity).
  assert (Hr : Skins.accessories (Skins.resetAll twoHats) !! "beanie"
               = Some (mkObject false (vec3 0.22 1.75 (-0.1)) (setScalar 1)
                         [Group "TopHat"; Mesh "Brim" 2 96; Mesh "Crown" 3 128]))
    by (vm_compute; reflexivity).
  split; [exact Hb|]. split; [reflexivity|]. split; [exact Hr|].
  refine (proj1 (resetAll_hides_every_accessory twoHats) "beanie" _ _ Hr).
  right. left.
Defined.

(** X9: when the page starts with the accessory colour section not
    displayed, then in every state the textured program reaches the
    section is displayed exactly when [state.currentHat] is not "none" or
    [state.scarfVisible] is set. *)
Theorem accessory_color_section_follows_selection
    (page : Skins.Dom) (es : list Skins.Event) :
  Skins.accessoryColorSection page = false ->
  Skins.accessoryColorSection (Skins.dom (Skins.run es (Skins.init page))) =
  negb (String.eqb (Skins.currentHat (Skins.state (Skins.run es (Skins.init page)))) "none")
  || Skins.scarfVisible (Skins.state (Skins.run es (Skins.init page))).
Proof.
  intros Hpage. apply (run_tracks es (Skins.init page)).
  unfold sectionTracks. cbn. exact Hpage.
Qed.

Lemma accessory_color_section_follows_selection_witness :
  Skins.accessoryColorSection (Skins.dom twoHats) = true ∧
  Skins.currentHat (Skins.state twoHats) = "beanie".
Proof.
  split; [|vm_compute; reflexivity].
  unfold twoHats.
  rewrite (accessory_color_section_follows_selection Sample.page _ eq_refl).
  vm_compute. reflexivity.
Defined.

(** ** When the controls of the textured bear's page are enabled *)

Section ControlsEnabled.

Import Skins.

Implicit Types (w : World) (es : list Event).

Lemma updateBearSkin_loadingStatus s w :
  loadingStatus (updateBearSkin s w) = loadingStatus w.
Proof.
  unfold updateBearSkin.
  destruct (textures !! s); [|done]. destruct (bear w); [|done].
  by destruct (traverseFrom _ _ _ _).
Qed.

Lemma set_bearNodes_loadingStatus ns w :
  loadingStatus (set_bearNodes ns w) = loadingStatus w.
Proof. unfold set_bearNodes. by destruct (bear w). Qed.

Lemma updatePartColor_loadingStatus p c w :
  loadingStatus (updatePartColor p c w) = loadingStatus w.
Proof.
  unfold updatePartColor.
  destruct (String.eqb p "eyes").
  - destruct (eyes (bearParts w)) as [[|e es]|]; [done| |done].
    destruct (foldl _ _ _). cbn. apply set_bearNodes_loadingStatus.
  - destruct (String.eqb p "nose"); [|done].
    destruct (nose (bearParts w)); [|done].
    destruct (colorMesh _ _ _ _ _). cbn. apply set_bearNodes_loadingStatus.
Qed.

Lemma updateAccessoryColor_loadingStatus name c w :
  loadingStatus (updateAccessoryColor name c w) = loadingStatus w.
Proof. by rewrite updateAccessoryColor_eq. Qed.

Lemma updateHat_loadingStatus v w : loadingStatus (updateHat v w) = loadingStatus w.
Proof.
  unfold updateHat. cbv zeta.
  change (loadingStatus (updateAccessoryColorSection ?x)) with (loadingStatus x).
  change (loadingStatus (set_state ?st ?x)) with (loadingStatus x).
  destruct (negb (String.eqb v "none") && _); [|done].
  by rewrite updateAccessoryColor_loadingStatus.
Qed.

Lemma toggleScarf_loadingStatus v w : loadingStatus (toggleScarf v w) = loadingStatus w.
Proof.
  unfold toggleScarf. cbv zeta.
  change (loadingStatus (updateAccessoryColorSection ?x)) with (loadingStatus x).
  change (loadingStatus (set_state ?st ?x)) with (loadingStatus x).
  destruct (accessories w !! "scarf"); [|done].
  destruct v; [|done]. by rewrite updateAccessoryColor_loadingStatus.
Qed.

Lemma updateCurrentAccessoryColor_loadingStatus c w :
  loadingStatus (updateCurrentAccessoryColor c w) = loadingStatus w.
Proof.
  unfold updateCurrentAccessoryColor. cbv zeta.
  set (w1 := set_state (set_currentAccessoryColor c (state w)) w).
  set (w2 := if negb (String.eqb (currentHat (state w1)) "none")
             then updateAccessoryColor (currentHat (state w1)) c w1 else w1).
  assert (H2 : loadingStatus w2 = loadingStatus w).
  { unfold w2. destruct (negb _); [|done]. by rewrite updateAccessoryColor_loadingStatus. }
  destruct (scarfVisible (state w2)); [|done].
  by rewrite updateAccessoryColor_loadingStatus.
Qed.

Lemma section_loadingStatus w :
  loadingStatus (updateAccessoryColorSection w) = loadingStatus w.
Proof. reflexivity. Qed.

Lemma loadingStatus_set l w : loadingStatus (set_loadingStatus l w) = l.
Proof. reflexivity. Qed.

Lemma dom_set_loadingStatus l w : dom (set_loadingStatus l w) = dom w.
Proof. reflexivity. Qed.

Lemma resetAll_loadingStatus w : loadingStatus (resetAll w) = loadingStatus w.
Proof.
  unfold resetAll. cbv zeta. rewrite section_loadingStatus.
  by rewrite updateCurrentAccessoryColor_loadingStatus, toggleScarf_loadingStatus,
    updateHat_loadingStatus, !updatePartColor_loadingStatus, updateBearSkin_loadingStatus.
Qed.

(** What [checkAllLoaded] does to the controls. *)
Lemma checkAllLoaded_eq w :
  loadingStatus (checkAllLoaded w).2 = loadingStatus w ∧
  disabled (dom (checkAllLoaded w).2) =
  if allLoaded (loadingStatus w) then (λ _, false) <$> disabled (dom w)
  else disabled (dom w).
Proof. unfold checkAllLoaded. cbn [snd]. by destruct (allLoaded _). Qed.

(** The status table and the controls after one event. *)
Lemma handle_loading e w :
  loadingStatus (handle e w) =
    match e with
    | BearLoaded _ => <["bear" := true]> (loadingStatus w)
    | AccessoryLoaded name _ => <[name := true]> (loadingStatus w)
    | _ => loadingStatus w
    end ∧
  disabled (dom (handle e w)) =
    match e with
    | BearLoaded _ | AccessoryLoaded _ _ =>
        if allLoaded (loadingStatus (handle e w))
        then (λ _, false) <$> disabled (dom w) else disabled (dom w)
    | Timeout => (λ _, false) <$> disabled (dom w)
    | _ => disabled (dom w)
    end.
Proof.
  destruct e as [g|name g| |s|p c|v|v|c|]; unfold handle.
  - unfold onBearLoaded. cbv zeta.
    set (w4 := updatePartColor "nose" _ _).
    assert (Hl : loadingStatus w4 = loadingStatus w)
      by (unfold w4; by rewrite !updatePartColor_loadingStatus, updateBearSkin_loadingStatus).
    assert (Hd : dom w4 = dom w)
      by (unfold w4; by rewrite !updatePartColor_dom, updateBearSkin_dom).
    destruct (checkAllLoaded_eq (set_loadingStatus (<["bear" := true]> (loadingStatus w4)) w4))
      as [-> ->].
    by rewrite loadingStatus_set, dom_set_loadingStatus, Hl, Hd.
  - unfold onAccessoryLoaded. cbv zeta. destruct (traverse _ _ _) as [ns h].
    match goal with |- context [checkAllLoaded ?x] =>
      destruct (checkAllLoaded_eq x) as [-> ->] end.
    done.
  - split; [|apply onTimeout_disabled].
    unfold onTimeout, checkAllLoaded. by destruct (allLoaded _).
  - by rewrite updateBearSkin_loadingStatus, updateBearSkin_dom.
  - by rewrite updatePartColor_loadingStatus, updatePartColor_dom.
  - by rewrite updateHat_loadingStatus, updateHat_disabled.
  - by rewrite toggleScarf_loadingStatus, toggleScarf_disabled.
  - by rewrite updateCurrentAccessoryColor_loadingStatus, updateCurrentAccessoryColor_dom.
  - by rewrite resetAll_loadingStatus, resetAll_disabled.
Qed.

(** The status table records which of the awaited loads have completed;
    every other key it holds is set. *)
Lemma run_loadingStatus page es :
  (∀ k, k ∈ awaited ->
     loadingStatus (run es (init page)) !! k = Some (existsb (arrives k) es)) ∧
  (∀ k v, loadingStatus (run es (init page)) !! k = Some v -> k ∉ awaited -> v = true).
Proof.
  induction es as [|e es [IHa IHb]] using rev_ind.
  - split.
    + intros k Hk. unfold awaited in Hk.
      repeat (apply elem_of_cons in Hk as [->|Hk]; [by vm_compute|]).
      by apply elem_of_nil in Hk.
    + intros k v Hk Hn. exfalso. apply Hn. unfold awaited.
      change (loadingStatus (run [] (init page)))
        with ({[ "bear" := false; "hat" := false; "beanie" := false; "scarf" := false ]}
              : gmap string bool) in Hk.
      repeat (apply lookup_insert_Some in Hk as [[<- _]|[_ Hk]];
              [repeat ((by left) || right)|]).
      apply lookup_singleton_Some in Hk as [<- _]. repeat ((by left) || right).
  - unfold run in *. rewrite foldl_app. cbn [foldl].
    set (w := foldl (λ w e, handle e w) (init page) es) in *.
    rewrite (proj1 (handle_loading e w)). split.
    + intros k Hk. rewrite existsb_app. cbn [existsb]. rewrite orb_false_r.
      specialize (IHa k Hk).
      destruct e as [g|name g| |s|p c|v|v|c|]; cbn [arrives]; rewrite ?orb_false_r; try done.
      * destruct (String.eqb k "bear") eqn:E.
        -- apply String.eqb_eq in E as ->. by rewrite lookup_insert_eq, orb_true_r.
        -- apply String.eqb_neq in E. by rewrite lookup_insert_ne, orb_false_r.
      * destruct (String.eqb k name) eqn:E.
        -- apply String.eqb_eq in E as ->. by rewrite lookup_insert_eq, orb_true_r.
        -- apply String.eqb_neq in E. by rewrite lookup_insert_ne, orb_false_r.
    + intros k v Hk Hn.
      destruct e as [g|name g| |s|p c|v'|v'|c|]; eauto.
      * apply lookup_insert_Some in Hk as [[_ <-]|[_ Hk]]; eauto.
      * apply lookup_insert_Some in Hk as [[_ <-]|[_ Hk]]; eauto.
Qed.

Lemma allLoaded_allArrived page es :
  allLoaded (loadingStatus (run es (init page))) = allArrived es.
Proof.
  destruct (run_loadingStatus page es) as [Ha Hb].
  unfold allLoaded, allArrived.
  destruct (forallb _ awaited) eqn:E.
  - apply bool_decide_eq_true. intros k v Hk.
    destruct (decide (k ∈ awaited)) as [Hin|Hn]; [|eauto].
    rewrite (Ha k Hin) in Hk. rewrite forallb_forall in E.
    specialize (E k (proj1 (list_elem_of_In _ _) Hin)). congruence.
  - apply bool_decide_eq_false. intros Hall.
    assert (forallb (λ k, existsb (arrives k) es) awaited = true); [|congruence].
    apply forallb_forall. intros k Hk. apply list_elem_of_In in Hk.
    exact (Hall k _ (Ha k Hk)).
Qed.

Lemma forallb_pointwise {A} (f g : A -> bool) (l : list A) :
  (∀ x, f x = g x) -> forallb f l = forallb g l.
Proof. intros H. induction l as [|x l IH]; [done|]. cbn. by rewrite H, IH. Qed.

Lemma allArrived_snoc es e :
  allArrived (es ++ [e]) = forallb (λ k, existsb (arrives k) es || arrives k e) awaited.
Proof.
  unfold allArrived. apply forallb_pointwise. intros k.
  by rewrite existsb_app; cbn [existsb]; rewrite orb_false_r.
Qed.

Lemma allArrived_mono es e : allArrived es = true -> allArrived (es ++ [e]) = true.
Proof.
  rewrite allArrived_snoc. unfold allArrived. rewrite !forallb_forall.
  intros H k Hk. by rewrite (H k Hk).
Qed.

Lemma allArrived_other es e :
  (∀ k, arrives k e = false) -> allArrived (es ++ [e]) = allArrived es.
Proof.
  intros He. rewrite allArrived_snoc. unfold allArrived. apply forallb_pointwise.
  intros k. by rewrite He, orb_false_r.
Qed.

Lemma timerFired_snoc es e : timerFired (es ++ [e]) = timerFired es || isTimeout e.
Proof. unfold timerFired. by rewrite existsb_app; cbn [existsb]; rewrite orb_false_r. Qed.

Lemma fmap_const_replicate (n : nat) (b b' : bool) :
  (λ _, b') <$> replicate n b = replicate n b'.
Proof. induction n as [|n IH]; [done|]. cbn. by rewrite IH. Qed.

Lemma run_disabled page es :
  disabled (dom (run es (init page))) =
  replicate (length (disabled page)) (negb (allArrived es || timerFired es)).
Proof.
  induction es as [|e es IH] using rev_ind.
  - cbn. induction (disabled page) as [|b l IHl]; [done|]. cbn. by rewrite IHl.
  - pose proof (allLoaded_allArrived page (es ++ [e])) as Hall.
    unfold run in *. rewrite foldl_app in *. cbn [foldl] in *.
    set (w := foldl (λ w e, handle e w) (init page) es) in *.
    rewrite (proj2 (handle_loading e w)), timerFired_snoc.
    destruct e as [g|name g| |s|p c|v|v|c|]; cbn [isTimeout];
      rewrite ?orb_false_r, ?orb_true_r;
      try (rewrite IH, allArrived_other by done; done).
    + rewrite Hall, IH. destruct (allArrived (es ++ [_])) eqn:E.
      * by rewrite fmap_const_replicate.
      * destruct (allArrived es) eqn:E'; [|done].
        by rewrite (allArrived_mono _ _ E') in E.
    + rewrite Hall, IH. destruct (allArrived (es ++ [_])) eqn:E.
      * by rewrite fmap_const_replicate.
      * destruct (allArrived es) eqn:E'; [|done].
        by rewrite (allArrived_mono _ _ E') in E.
    + by rewrite IH, fmap_const_replicate.
Qed.

End ControlsEnabled.

(** X10: at any time after the start of the textured program, every
    control of the page is enabled if the bear, the hat, the beanie and
    the scarf have all arrived or the fallback timer has fired, and
    disabled otherwise; no use of the controls changes that. *)
Theorem controls_enabled_iff_loaded_or_timer (page : Skins.Dom) (es : list Skins.Event) :
  Skins.disabled (Skins.dom (Skins.run es (Skins.init page))) =
  replicate (length (Skins.disabled page)) (negb (allArrived es || timerFired es)).
Proof. apply run_disabled. Qed.

(** ** The parts of the bear found at load time *)

Section BearParts.

Import Skins.

Implicit Types (w : World) (ns : list Node) (parts : BearParts).

Lemma updateBearSkin_bearParts s w : bearParts (updateBearSkin s w) = bearParts w.
Proof.
  unfold updateBearSkin.
  destruct (textures !! s); [|done]. destruct (bear w); [|done].
  by destruct (traverseFrom _ _ _ _).
Qed.

Lemma set_bearNodes_bearParts ns w : bearParts (set_bearNodes ns w) = bearParts w.
Proof. unfold set_bearNodes. by destruct (bear w). Qed.

Lemma updatePartColor_bearParts p c w : bearParts (updatePartColor p c w) = bearParts w.
Proof.
  unfold updatePartColor.
  destruct (String.eqb p "eyes").
  - destruct (eyes (bearParts w)) as [[|e es]|]; [done| |done].
    destruct (foldl _ _ _). cbn. apply set_bearNodes_bearParts.
  - destruct (String.eqb p "nose"); [|done].
    destruct (nose (bearParts w)); [|done].
    destruct (colorMesh _ _ _ _ _). cbn. apply set_bearNodes_bearParts.
Qed.

Lemma checkAllLoaded_bearParts w : bearParts (checkAllLoaded w).2 = bearParts w.
Proof. unfold checkAllLoaded. cbn [snd]. by destruct (allLoaded _). Qed.

Lemma bearParts_set_loadingStatus l w : bearParts (set_loadingStatus l w) = bearParts w.
Proof. reflexivity. Qed.

(** The parts after the completion callback of [loadBear()]. *)
Lemma onBearLoaded_bearParts g w :
  bearParts (onBearLoaded g w) =
  foldl (findPart (nodes (GLTF.install (length (materials w)) g))) (bearParts w)
        (imap pair (nodes (GLTF.install (length (materials w)) g))).
Proof.
  unfold onBearLoaded. cbv zeta.
  by rewrite checkAllLoaded_bearParts, bearParts_set_loadingStatus,
    !updatePartColor_bearParts, updateBearSkin_bearParts.
Qed.

Lemma imap_pair_snoc (pre : list Node) n :
  imap pair (pre ++ [n]) = imap pair pre ++ [(length pre, n)].
Proof. rewrite imap_app. cbn. by rewrite Nat.add_0_r. Qed.

Lemma isEye_mk b es n i :
  isEye (mkParts b es n) i = match es with Some l => bool_decide (i ∈ l) | None => false end.
Proof. reflexivity. Qed.

Lemma findPart_step ns pre n rest parts :
  ns = pre ++ n :: rest ->
  partsFound ns (length pre) parts ->
  partsFound ns (S (length pre)) (findPart ns parts (length pre, n)).
Proof.
  intros Hns (Heye & Hnose & Hbody & Hnone).
  assert (Hk : ns !! length pre = Some n)
    by (subst ns; by rewrite lookup_app_r, Nat.sub_diag).
  assert (Hlt : ∀ i, i < S (length pre) ↔ i < length pre ∨ i = length pre) by lia.
  destruct n as [gnm|nm r cnt]; cbn [findPart].
  - (* a group *)
    split; [|split; [|split]].
    + intros i. rewrite Heye, Hlt. split; [intros [? ?]; eauto 10|].
      intros [[?| ->] (nm & r & cnt & Hi & He)]; [eauto 10|congruence].
    + intros i. rewrite Hnose. split.
      * intros (Hi & Hm & Hlater). split; [lia|]. split; [done|].
        intros i' nm r cnt Hi' Hn'.
        destruct (decide (i' = length pre)) as [->|]; [congruence|].
        apply (Hlater i' nm r cnt); [lia|done].
      * intros (Hi & (nm & r & cnt & Hm & Hn) & Hlater).
        apply Hlt in Hi as [Hi| ->]; [|congruence].
        split; [done|]. split; [eauto 10|].
        intros i' nm' r' cnt' Hi'. apply Hlater. lia.
    + intros i Hb. destruct (Hbody i Hb) as (Hi & nm & r & cnt & Hm & Hn & He & Hmax).
      split; [lia|]. exists nm, r, cnt. repeat (split; [done|]).
      intros i' nm' r' cnt' Hi' Hm'.
      apply Hlt in Hi' as [Hi'| ->]; [eauto 10|congruence].
    + intros Hb i' nm' r' cnt' Hi' Hm'.
      apply Hlt in Hi' as [Hi'| ->]; [eauto 10|congruence].
  - (* a mesh *)
    fold (noseName nm). destruct (noseName nm) eqn:Hnn.
    + (* the nose *)
      split; [|split; [|split]].
      * intros i. rewrite isEye_mk. specialize (Heye i). unfold isEye in Heye.
        rewrite Heye, Hlt. split; [intros [? ?]; eauto 10|].
        intros [[?| ->] (nm' & r' & cnt' & Hi & He)]; [eauto 10|].
        rewrite Hk in Hi. simplify_eq. unfold eyeName in He. by rewrite Hnn in He.
      * intros i. cbn [nose]. split.
        -- intros [= <-]. split; [lia|]. split; [eauto 10|]. intros; lia.
        -- intros (Hi & (nm' & r' & cnt' & Hm & Hn) & Hlater).
           apply Hlt in Hi as [Hi| ->]; [|done].
           exfalso. specialize (Hlater (length pre) nm r cnt). rewrite Hnn in Hlater.
           assert (true = false); [apply Hlater; [lia|done]|done].
      * intros i Hb. cbn [body] in Hb.
        destruct (Hbody i Hb) as (Hi & nm0 & r0 & cnt0 & Hm & Hn & He & Hmax).
        split; [lia|]. exists nm0, r0, cnt0. repeat (split; [done|]).
        intros i' nm' r' cnt' Hi' Hm' Hn'.
        apply Hlt in Hi' as [Hi'| ->]; [eauto 10|]. rewrite Hk in Hm'. simplify_eq. congruence.
      * intros Hb i' nm' r' cnt' Hi' Hm' Hn'. cbn [body] in Hb.
        apply Hlt in Hi' as [Hi'| ->]; [eauto 10|]. rewrite Hk in Hm'. simplify_eq. congruence.
    + destruct (JS.includes (JS.toLowerCase nm) "eye") eqn:Hee.
      * (* an eye *)
        assert (Hen : eyeName nm = true) by (unfold eyeName; by rewrite Hnn, Hee).
        split; [|split; [|split]].
        -- intros i. rewrite isEye_mk. specialize (Heye i). unfold isEye in Heye.
           rewrite Hlt. split.
           ++ intros Hi. apply bool_decide_eq_true in Hi.
              apply elem_of_app in Hi as [Hi|Hi].
              ** destruct (eyes parts) as [l|]; [|by apply elem_of_nil in Hi]. cbn in Hi.
                 assert (Hb : bool_decide (i ∈ l) = true) by (by apply bool_decide_eq_true).
                 apply Heye in Hb as [? ?]. eauto 10.
              ** apply list_elem_of_singleton in Hi as ->. split; [by right|]. eauto 10.
           ++ intros [[Hi| ->] Hm]; apply bool_decide_eq_true, elem_of_app.
              ** left. assert (He : match eyes parts with
                                     | Some es => bool_decide (i ∈ es) | None => false end
                                     = true) by (apply Heye; eauto 10).
                 destruct (eyes parts) as [l|]; [|done].
                 by apply bool_decide_eq_true in He.
              ** right. by apply list_elem_of_singleton.
        -- intros i. cbn [nose]. rewrite Hnose. split.
           ++ intros (Hi & Hm & Hlater). split; [lia|]. split; [done|].
              intros i' nm' r' cnt' Hi' Hn'.
              destruct (decide (i' = length pre)) as [->|];
                [rewrite Hk in Hn'; by simplify_eq|].
              apply (Hlater i' nm' r' cnt'); [lia|done].
           ++ intros (Hi & (nm' & r' & cnt' & Hm & Hn) & Hlater).
              apply Hlt in Hi as [Hi| ->]; [|rewrite Hk in Hm; simplify_eq; congruence].
              split; [done|]. split; [eauto 10|].
              intros i' nm'' r'' cnt'' Hi'. apply Hlater. lia.
        -- intros i Hb. cbn [body] in Hb.
           destruct (Hbody i Hb) as (Hi & nm0 & r0 & cnt0 & Hm & Hn & He & Hmax).
           split; [lia|]. exists nm0, r0, cnt0. repeat (split; [done|]).
           intros i' nm' r' cnt' Hi' Hm' Hn' He'.
           apply Hlt in Hi' as [Hi'| ->]; [eauto 10|]. rewrite Hk in Hm'. simplify_eq. congruence.
        -- intros Hb i' nm' r' cnt' Hi' Hm' Hn' He'. cbn [body] in Hb.
           apply Hlt in Hi' as [Hi'| ->]; [eauto 10|]. rewrite Hk in Hm'. simplify_eq. congruence.
      * (* another mesh: a candidate for the body *)
        assert (Hen : eyeName nm = false) by (unfold eyeName; by rewrite Hnn, Hee).
        assert (Heye' : ∀ b i, isEye (mkParts b (eyes parts) (nose parts)) i = true ↔
                  (i < length pre ∨ i = length pre) ∧
                  ∃ nm r cnt, ns !! i = Some (Mesh nm r cnt) ∧ eyeName nm = true).
        { intros b i. rewrite isEye_mk. specialize (Heye i). unfold isEye in Heye.
          rewrite Heye. split; [intros [? ?]; eauto 10|].
          intros [[?| ->] (nm' & r' & cnt' & Hi & He)]; [eauto 10|].
          rewrite Hk in Hi. simplify_eq. congruence. }
        assert (Hnose' : ∀ i, nose parts = Some i ↔
                  (i < length pre ∨ i = length pre) ∧
                  (∃ nm r cnt, ns !! i = Some (Mesh nm r cnt) ∧ noseName nm = true) ∧
                  ∀ i' nm r cnt, i < i' < S (length pre) ->
                    ns !! i' = Some (Mesh nm r cnt) -> noseName nm = false).
        { intros i. rewrite Hnose. split.
          - intros (Hi & Hm & Hlater). split; [by left|]. split; [done|].
            intros i' nm' r' cnt' Hi' Hn'.
            destruct (decide (i' = length pre)) as [->|];
              [rewrite Hk in Hn'; by simplify_eq|].
            apply (Hlater i' nm' r' cnt'); [lia|done].
          - intros ([Hi| ->] & (nm' & r' & cnt' & Hm & Hn) & Hlater);
              [|rewrite Hk in Hm; simplify_eq; congruence].
            split; [done|]. split; [eauto 10|].
            intros i' nm'' r'' cnt'' Hi'. apply Hlater. lia. }
        assert (Hnew : ∀ bound, (∀ i' nm' r' cnt', i' < length pre ->
                   ns !! i' = Some (Mesh nm' r' cnt') ->
                   noseName nm' = false -> eyeName nm' = false -> cnt' ≤ bound) ->
                 bound ≤ cnt ->
                 partsFound ns (S (length pre))
                   (mkParts (Some (length pre)) (eyes parts) (nose parts))).
        { intros bound Hbound Hle. split; [|split; [|split]].
          - intros i. rewrite Hlt. apply Heye'.
          - intros i. cbn [nose]. rewrite Hlt. apply Hnose'.
          - intros i [= <-]. split; [lia|]. exists nm, r, cnt. repeat (split; [done|]).
            intros i' nm' r' cnt' Hi' Hm' Hn' He'.
            apply Hlt in Hi' as [Hi'| ->].
            + specialize (Hbound i' nm' r' cnt' Hi' Hm' Hn' He'). lia.
            + rewrite Hk in Hm'. by simplify_eq.
          - done. }
        assert (Hold : ∀ j nmj rj cntj, body parts = Some j ->
                 ns !! j = Some (Mesh nmj rj cntj) -> cnt ≤ cntj ->
                 partsFound ns (S (length pre)) parts).
        { intros j nmj rj cntj Hj Hmj Hle. split; [|split; [|split]].
          - intros i. rewrite Hlt. destruct parts. apply Heye'.
          - intros i. rewrite Hlt. apply Hnose'.
          - intros i Hb.
            destruct (Hbody i Hb) as (Hi & nm0 & r0 & cnt0 & Hm & Hn & He & Hmax).
            split; [lia|]. exists nm0, r0, cnt0. repeat (split; [done|]).
            intros i' nm' r' cnt' Hi' Hm' Hn' He'.
            apply Hlt in Hi' as [Hi'| ->]; [eauto 10|].
            rewrite Hk in Hm'. simplify_eq. lia.
          - intros Hb. congruence. }
        destruct (body parts) as [j|] eqn:Hj.
        -- destruct (Hbody j eq_refl) as (Hjlt & nmj & rj & cntj & Hmj & _ & _ & Hmax).
           rewrite Hmj. destruct (cntj <? cnt)%nat eqn:Hc.
           ++ apply Nat.ltb_lt in Hc. apply (Hnew cntj); [|lia].
              intros i' nm' r' cnt'. apply Hmax.
           ++ apply Nat.ltb_ge in Hc. by apply (Hold j nmj rj cntj).
        -- apply (Hnew 0); [|lia].
           intros i' nm' r' cnt' Hi' Hm' Hn' He'. exfalso. eauto 10.
Qed.

Lemma partsFound_start ns : partsFound ns 0 (mkParts None None None).
Proof.
  split; [|split; [|split]].
  - intros i. split; [done|]. intros [? _]. lia.
  - intros i. split; [done|]. intros [? _]. lia.
  - done.
  - intros _ i' nm' r' cnt' Hi'. lia.
Qed.

Lemma findPart_fold ns pre rest :
  ns = pre ++ rest ->
  partsFound ns (length pre)
    (foldl (findPart ns) (mkParts None None None) (imap pair pre)).
Proof.
  revert rest. induction pre as [|n pre IH] using rev_ind; intros rest Hns.
  - apply partsFound_start.
  - rewrite imap_pair_snoc, foldl_app, length_app. cbn [foldl length].
    rewrite Nat.add_1_r. rewrite <- app_assoc in Hns. cbn in Hns.
    eapply findPart_step; [exact Hns|]. by eapply IH.
Qed.


Lemma lookup_relocate off ns i nm r cnt :
  ns !! i = Some (Mesh nm r cnt) ->
  (GLTF.relocate off <$> ns) !! i = Some (Mesh nm (off + r) cnt).
Proof. intros H. by rewrite list_lookup_fmap, H. Qed.

End BearParts.



(** ** Shown accessories carry the selected colour *)

Section AccessoryColor.

Import Skins.

Implicit Types (w : World) (h : Materials) (ns : list Node) (c : Z).

Lemma repaints_refl c h : repaints c h h.
Proof. intros r m Hr Hm. eauto. Qed.

Lemma repaints_trans c h1 h2 h3 : repaints c h1 h2 -> repaints c h2 h3 -> repaints c h1 h3.
Proof.
  intros H12 H23 r m Hr Hm.
  destruct (H12 r m Hr Hm) as (m2 & Hr2 & Hm2 & Hc2).
  destruct (H23 r m2 Hr2 Hm2) as (m3 & Hr3 & Hm3 & Hc3). eauto 10.
Qed.

Lemma repaints_app c h extra : repaints c h (h ++ extra).
Proof.
  intros r m Hr Hm. exists m. split; [|done].
  rewrite lookup_app_l; [done|]. by eapply lookup_lt_Some.
Qed.

Lemma touch_repaints P i acc acc' c : Touch P i acc acc' -> repaints c acc.2 acc'.2.
Proof.
  intros [acc0|ns h nm r cnt m m' Hi Hr HP Hf Hn Hu|ns h nm r cnt m m' Hi Hr HP Hf Hn];
    cbn [snd].
  - apply repaints_refl.
  - intros r0 m0 Hr0 Hm0. exists m0. split; [|done].
    rewrite list_lookup_insert_ne; [done|]. intros <-. congruence.
  - apply repaints_app.
Qed.

Lemma fold_touch_repaints P st (idx : list nat) acc c :
  (∀ acc0 i, Touch P i acc0 (st acc0 i)) ->
  repaints c acc.2 (foldl st acc idx).2.
Proof.
  intros Hst. revert acc. induction idx as [|i idx IH]; intros acc; cbn [foldl].
  - apply repaints_refl.
  - eapply repaints_trans; [|apply IH]. eapply touch_repaints, Hst.
Qed.

Lemma flagged_userData m m' :
  Material.userData m' = Material.userData m -> flagged m' = flagged m.
Proof. unfold flagged. by intros ->. Qed.

Lemma accessory_traverse_repaints c k ns h :
  repaints c h (traverseFrom k (λ _, accessoryCallback c) ns h).2.
Proof.
  intros r m Hr Hm.
  pose proof (accessory_traverse_length c k ns h) as Hlen.
  pose proof (accessory_traverse_marks c k ns h r) as Hmarks.
  pose proof (accessory_traverse_keeps c k ns h r) as Hkeep.
  destruct (lookup_lt_is_Some_2 (traverseFrom k (λ _, accessoryCallback c) ns h).2 r)
    as [m' Hm']; [rewrite Hlen; by eapply lookup_lt_Some|].
  rewrite Hm', Hr in Hmarks. cbn in Hmarks.
  exists m'. split; [done|]. split.
  - rewrite (flagged_userData m m'); [done|congruence].
  - intros Hc. rewrite Hm', Hr in Hkeep. cbn in Hkeep.
    specialize (Hkeep (f_equal Some Hc)). congruence.
Qed.

Lemma updateAccessoryColor_materials name c w :
  materials (updateAccessoryColor name c w) =
  match accessories w !! name with
  | Some a => (traverse (accessoryCallback c) (nodes a) (materials w)).2
  | None => materials w
  end.
Proof. by rewrite updateAccessoryColor_eq. Qed.

Lemma updateAccessoryColor_repaints name c w :
  repaints c (materials w) (materials (updateAccessoryColor name c w)).
Proof.
  rewrite updateAccessoryColor_materials.
  destruct (accessories w !! name); [|apply repaints_refl].
  apply accessory_traverse_repaints.
Qed.

Lemma updateBearSkin_repaints s w c :
  repaints c (materials w) (materials (updateBearSkin s w)).
Proof.
  change (repaints c (bearScene w).2 (bearScene (updateBearSkin s w)).2).
  destruct (bearScene_updateBearSkin s w) as [-> | ->]; [apply repaints_refl|].
  eapply fold_touch_repaints, Skins_skin_touch.
Qed.

Lemma updatePartColor_repaints p c' w c :
  repaints c (materials w) (materials (updatePartColor p c' w)).
Proof.
  assert (Hmarks : ∀ flag setFlag,
    (flag = UserData.isEyeCloned ∧ setFlag = UserData.set_isEyeCloned) ∨
    (flag = UserData.isNoseCloned ∧ setFlag = UserData.set_isNoseCloned) ->
    ∀ acc0 i, Touch (λ _, True) i acc0 (colorMesh flag setFlag c' acc0 i)).
  { intros flag setFlag Hfs acc0 i.
    apply Skins_colorMesh_touch; destruct Hfs as [[-> ->]|[-> ->]];
      intros m0; unfold flagged; destruct m0 as [? ? ? [[] [] []]]; cbn; done. }
  unfold updatePartColor.
  destruct (String.eqb p "eyes").
  - destruct (eyes (bearParts w)) as [[|e es]|]; [apply repaints_refl| |apply repaints_refl].
    pose proof (fold_touch_repaints (λ _, True) _ (e :: es) (bearNodes w, materials w) c
                  (Hmarks _ _ (or_introl (conj eq_refl eq_refl)))) as Hrep.
    destruct (foldl _ _ (e :: es)) as [ns h]. exact Hrep.
  - destruct (String.eqb p "nose"); [|apply repaints_refl].
    destruct (nose (bearParts w)) as [n|]; [|apply repaints_refl].
    pose proof (touch_repaints _ _ _ _ c
                  (Hmarks _ _ (or_intror (conj eq_refl eq_refl)) (bearNodes w, materials w) n))
      as Hrep.
    destruct (colorMesh _ _ c' _ n) as [ns h]. exact Hrep.
Qed.

Lemma materials_setVisible k v w : materials (setVisible k v w) = materials w.
Proof. reflexivity. Qed.

Lemma materials_set_state st w : materials (set_state st w) = materials w.
Proof. reflexivity. Qed.

Lemma updateHat_repaints v w :
  repaints (currentAccessoryColor (state w)) (materials w) (materials (updateHat v w)).
Proof.
  unfold updateHat. cbv zeta. rewrite section_materials, materials_set_state.
  destruct (negb (String.eqb v "none") && _); [|apply repaints_refl].
  apply (updateAccessoryColor_repaints v _
           (setVisible v true (setVisible "beanie" false (setVisible "hat" false w)))).
Qed.

Lemma toggleScarf_repaints v w :
  repaints (currentAccessoryColor (state w)) (materials w) (materials (toggleScarf v w)).
Proof.
  unfold toggleScarf. cbv zeta. rewrite section_materials, materials_set_state.
  destruct (accessories w !! "scarf"); [|apply repaints_refl].
  destruct v; [|apply repaints_refl].
  apply (updateAccessoryColor_repaints "scarf" _ (setVisible "scarf" true w)).
Qed.

Lemma updateCurrentAccessoryColor_repaints c w :
  repaints c (materials w) (materials (updateCurrentAccessoryColor c w)).
Proof.
  unfold updateCurrentAccessoryColor. cbv zeta.
  set (w1 := set_state (set_currentAccessoryColor c (state w)) w).
  set (w2 := if negb (String.eqb (currentHat (state w1)) "none")
             then updateAccessoryColor (currentHat (state w1)) c w1 else w1).
  assert (H2 : repaints c (materials w) (materials w2)).
  { unfold w2. destruct (negb _); [|apply repaints_refl].
    apply (updateAccessoryColor_repaints _ c w1). }
  destruct (scarfVisible (state w2)); [|done].
  eapply repaints_trans; [exact H2|apply updateAccessoryColor_repaints].
Qed.


Lemma accessoryMaterials_step c w w' :
  repaints c (materials w) (materials w') ->
  (∀ name o', accessories w' !! name = Some o' ->
     ∃ o, accessories w !! name = Some o ∧ nodes o' = nodes o) ->
  accessoryMaterials w -> accessoryMaterials w'.
Proof.
  intros Hrep Hacc Hm name o' nm r cnt Ho' Hin.
  destruct (Hacc name o' Ho') as (o & Ho & Hn). rewrite Hn in Hin.
  destruct (Hm name o nm r cnt Ho Hin) as (m & Hr & Hf).
  destruct (Hrep r m Hr Hf) as (m' & ? & ? & _). eauto.
Qed.

Lemma carriesColor_step c w h' name o o' :
  repaints c (materials w) h' -> accessoryMaterials w ->
  accessories w !! name = Some o -> nodes o' = nodes o ->
  carriesColor (materials w) o c -> carriesColor h' o' c.
Proof.
  intros Hrep Hm Ho Hn Hc nm r cnt Hin. rewrite Hn in Hin.
  destruct (Hm name o nm r cnt Ho Hin) as (m & Hr & Hf).
  specialize (Hc nm r cnt Hin). rewrite Hr in Hc. cbn in Hc.
  destruct (Hrep r m Hr Hf) as (m' & Hr' & _ & Hcol).
  rewrite Hr'. cbn. f_equal. apply Hcol. congruence.
Qed.

Lemma present_of_materials w name o :
  accessoryMaterials w -> accessories w !! name = Some o ->
  materialsPresent (materials w) o.
Proof.
  intros Hm Ho. unfold materialsPresent, meshRefsBelow. apply forallb_forall.
  intros [gnm|nm r cnt] Hin; [done|]. apply Nat.ltb_lt.
  destruct (Hm name o nm r cnt Ho) as (m & Hr & _); [by apply list_elem_of_In|].
  by eapply lookup_lt_Some.
Qed.

(** An operation that leaves accessories and selection alone. *)
Lemma current_frame w w' :
  accessories w' = accessories w ->
  currentHat (state w') = currentHat (state w) ->
  scarfVisible (state w') = scarfVisible (state w) ->
  currentAccessoryColor (state w') = currentAccessoryColor (state w) ->
  repaints (currentAccessoryColor (state w)) (materials w) (materials w') ->
  accessoriesCurrent w -> accessoriesCurrent w'.
Proof.
  intros Ha Hh Hs Hc Hrep (Hv & Hm & Hshown). split; [by rewrite Hh|]. split.
  - eapply accessoryMaterials_step; [exact Hrep| |done].
    intros name o' Ho'. rewrite Ha in Ho'. eauto.
  - intros name o Ho Hvis. rewrite Ha in Ho. rewrite Hh, Hs, Hc.
    destruct (Hshown name o Ho Hvis) as [Hsel Hcol]. split; [done|].
    by eapply carriesColor_step.
Qed.

Lemma updateBearSkin_current s w : accessoriesCurrent w -> accessoriesCurrent (updateBearSkin s w).
Proof.
  apply current_frame; [apply updateBearSkin_accessories| | | |apply updateBearSkin_repaints];
    by destruct (updateBearSkin_state_cases s w) as [-> | ->].
Qed.

Lemma updatePartColor_current p c w :
  accessoriesCurrent w -> accessoriesCurrent (updatePartColor p c w).
Proof.
  apply current_frame;
    [apply updatePartColor_accessories| | | |apply updatePartColor_repaints];
    by destruct (updatePartColor_state_cases p c w) as [->|[[_ ->]|[_ ->]]].
Qed.

Lemma checkAllLoaded_current w : accessoriesCurrent w -> accessoriesCurrent (checkAllLoaded w).2.
Proof. unfold checkAllLoaded. cbn [snd]. by destruct (allLoaded _). Qed.

Lemma onTimeout_current w : accessoriesCurrent w -> accessoriesCurrent (onTimeout w).
Proof. unfold onTimeout, checkAllLoaded. by destruct (allLoaded _). Qed.

Lemma onBearLoaded_current g w : accessoriesCurrent w -> accessoriesCurrent (onBearLoaded g w).
Proof.
  intros Hw. unfold onBearLoaded. cbv zeta. apply checkAllLoaded_current.
  match goal with |- accessoriesCurrent (set_loadingStatus ?l ?x) =>
    change (accessoriesCurrent x) end.
  apply updatePartColor_current, updatePartColor_current, updateBearSkin_current.
  revert Hw. apply current_frame; try done. apply repaints_app.
Qed.

Lemma hatGroup_iff name : name ∈ hatGroup ↔ name = "hat" ∨ name = "beanie".
Proof. unfold hatGroup. by rewrite elem_of_cons, list_elem_of_singleton. Qed.

Lemma hatValues_iff v : v ∈ hatValues ↔ v ∈ hatGroup ∨ v = "none".
Proof.
  unfold hatValues. rewrite hatGroup_iff. split.
  - intros H. apply elem_of_cons in H as [->|H]; [left; by left|].
    apply elem_of_cons in H as [->|H]; [left; by right|].
    apply list_elem_of_singleton in H as ->. by right.
  - intros [[->| ->]| ->]; [left|right; left|right; right; left].
Qed.

Lemma hidden_lookup_eq (acc : gmap string Object3D) name :
  alter (set_visible false) "beanie" (alter (set_visible false) "hat" acc) !! name =
  (if bool_decide (name ∈ hatGroup) then set_visible false else id) <$> acc !! name.
Proof.
  destruct (decide (name = "beanie")) as [->|Hb].
  - rewrite lookup_alter_eq, lookup_alter_ne by done.
    rewrite bool_decide_eq_true_2; [done|]. apply hatGroup_iff. by right.
  - rewrite lookup_alter_ne by done. destruct (decide (name = "hat")) as [->|Hh].
    + rewrite lookup_alter_eq. rewrite bool_decide_eq_true_2; [done|].
      apply hatGroup_iff. by left.
    + rewrite lookup_alter_ne by done. rewrite bool_decide_eq_false_2.
      * by destruct (acc !! name).
      * rewrite hatGroup_iff. tauto.
Qed.

(** The accessories after [updateHat] with a value of the selector. *)
Lemma updateHat_lookup v w name :
  v ∈ hatValues ->
  accessories (updateHat v w) !! name =
  (if bool_decide (name ∈ hatGroup) then set_visible (bool_decide (name = v)) else id)
    <$> accessories w !! name.
Proof.
  intros Hv. rewrite updateHat_accessories. cbv zeta.
  assert (Hother : name ≠ v ->
    alter (set_visible false) "beanie" (alter (set_visible false) "hat" (accessories w))
      !! name =
    (if bool_decide (name ∈ hatGroup) then set_visible (bool_decide (name = v)) else id)
      <$> accessories w !! name).
  { intros Hne. rewrite hidden_lookup_eq. by rewrite (bool_decide_eq_false_2 (name = v)). }
  apply hatValues_iff in Hv as [Hv| ->].
  - rewrite (hatGroup_not_none _ Hv). cbn [negb andb].
    pose proof (hidden_lookup_eq (accessories w) v) as Hh.
    rewrite (bool_decide_eq_true_2 _ Hv) in Hh.
    destruct (accessories w !! v) as [ov|] eqn:E.
    + rewrite bool_decide_eq_true_2 by (rewrite Hh; eauto).
      destruct (decide (name = v)) as [->|Hne].
      * rewrite lookup_alter_eq, Hh, E, (bool_decide_eq_true_2 _ Hv).
        by rewrite bool_decide_eq_true_2.
      * rewrite lookup_alter_ne by done. by apply Hother.
    + rewrite bool_decide_eq_false_2 by (rewrite Hh; by intros [? ?]).
      destruct (decide (name = v)) as [->|Hne]; [by rewrite Hh, E|by apply Hother].
  - change (negb (String.eqb "none" "none")) with false. cbn [andb].
    destruct (decide (name = "none")) as [->|Hne]; [|by apply Hother].
    rewrite hidden_lookup_eq. rewrite bool_decide_eq_false_2; [done|].
    rewrite hatGroup_iff. by intros [?|?].
Qed.

Lemma updateHat_current v w :
  v ∈ hatValues -> accessoriesCurrent w -> accessoriesCurrent (updateHat v w).
Proof.
  intros Hv (Hcur & Hm & Hshown).
  assert (Hnodes : ∀ name o', accessories (updateHat v w) !! name = Some o' ->
            ∃ o, accessories w !! name = Some o ∧ nodes o' = nodes o ∧
                 o' = (if bool_decide (name ∈ hatGroup)
                       then set_visible (bool_decide (name = v)) else id) o).
  { intros name o'. rewrite (updateHat_lookup v w name Hv).
    destruct (accessories w !! name) as [o|]; [|done]. cbn. intros [= <-].
    exists o. split; [done|]. split; [|done]. by destruct (bool_decide _). }
  split; [by rewrite updateHat_state|]. split.
  - eapply accessoryMaterials_step; [apply updateHat_repaints| |done].
    intros name o' Ho'. destruct (Hnodes name o' Ho') as (o & ? & ? & _). eauto.
  - intros name o' Ho' Hvis. rewrite updateHat_state.
    cbn [currentHat scarfVisible currentAccessoryColor set_currentHat].
    destruct (Hnodes name o' Ho') as (o & Ho & Hn & Heq).
    destruct (bool_decide (name ∈ hatGroup)) eqn:Hg.
    + apply bool_decide_eq_true in Hg. subst o'. cbn in Hvis.
      apply bool_decide_eq_true in Hvis. subst v. split; [by left|].
      destruct (updateHat_shown name w o Hg Ho (present_of_materials _ _ _ Hm Ho))
        as (o'' & Ho'' & _ & _ & Hcol).
      rewrite Ho' in Ho''. by simplify_eq.
    + apply bool_decide_eq_false in Hg. cbn in Heq. subst o'.
      destruct (Hshown name o Ho Hvis) as [[[_ ?]|Hsc] Hcol]; [done|].
      split; [by right|].
      eapply carriesColor_step; [apply updateHat_repaints|done|done|done|done].
Qed.

Lemma toggleScarf_current v w : accessoriesCurrent w -> accessoriesCurrent (toggleScarf v w).
Proof.
  intros (Hcur & Hm & Hshown).
  assert (Hnodes : ∀ name o', accessories (toggleScarf v w) !! name = Some o' ->
            ∃ o, accessories w !! name = Some o ∧ nodes o' = nodes o ∧
                 o' = (if decide (name = "scarf") then set_visible v else id) o).
  { intros name o'. rewrite toggleScarf_accessories.
    destruct (decide (name = "scarf")) as [->|Hne].
    - rewrite lookup_alter_eq. destruct (accessories w !! "scarf") as [o|]; [|done].
      cbn. intros [= <-]. eauto.
    - rewrite lookup_alter_ne by done. eauto. }
  split; [by rewrite toggleScarf_state|]. split.
  - eapply accessoryMaterials_step; [apply toggleScarf_repaints| |done].
    intros name o' Ho'. destruct (Hnodes name o' Ho') as (o & ? & ? & _). eauto.
  - intros name o' Ho' Hvis. rewrite toggleScarf_state.
    cbn [currentHat scarfVisible currentAccessoryColor set_scarfVisible].
    destruct (Hnodes name o' Ho') as (o & Ho & Hn & Heq).
    destruct (decide (name = "scarf")) as [->|Hne].
    + subst o'. cbn in Hvis. subst v. split; [by right|].
      destruct (toggleScarf_shown w o Ho (present_of_materials _ _ _ Hm Ho))
        as (o'' & Ho'' & _ & _ & Hcol).
      rewrite Ho' in Ho''. by simplify_eq.
    + cbn in Heq. subst o'.
      destruct (Hshown name o Ho Hvis) as [[Hh|[? _]] Hcol]; [|done].
      split; [by left|].
      eapply carriesColor_step; [apply toggleScarf_repaints|done|done|done|done].
Qed.

Lemma updateAccessoryColor_paints name c w o :
  accessories w !! name = Some o -> materialsPresent (materials w) o ->
  carriesColor (materials (updateAccessoryColor name c w)) o c.
Proof.
  intros Ho Hp. rewrite updateAccessoryColor_materials, Ho.
  intros nm r cnt Hin. unfold traverse.
  eapply accessory_traverse_colors; eauto using meshRefsBelow_spec.
Qed.

Lemma updateAccessoryColor_keeps name c w o :
  carriesColor (materials w) o c ->
  carriesColor (materials (updateAccessoryColor name c w)) o c.
Proof.
  intros Hc. rewrite updateAccessoryColor_materials.
  destruct (accessories w !! name); [|done].
  intros nm r cnt Hin. unfold traverse. apply accessory_traverse_keeps. eauto.
Qed.

Lemma updateCurrentAccessoryColor_current c w :
  accessoriesCurrent w -> accessoriesCurrent (updateCurrentAccessoryColor c w).
Proof.
  intros (Hcur & Hm & Hshown).
  split; [by rewrite updateCurrentAccessoryColor_state|]. split.
  - eapply accessoryMaterials_step; [apply updateCurrentAccessoryColor_repaints| |done].
    intros name o'. rewrite updateCurrentAccessoryColor_accessories. eauto.
  - intros name o. rewrite updateCurrentAccessoryColor_accessories.
    rewrite updateCurrentAccessoryColor_state.
    cbn [currentHat scarfVisible currentAccessoryColor set_currentAccessoryColor].
    intros Ho Hvis. destruct (Hshown name o Ho Hvis) as [Hsel _]. split; [done|].
    unfold updateCurrentAccessoryColor. cbv zeta.
    set (w1 := set_state (set_currentAccessoryColor c (state w)) w).
    set (w2 := if negb (String.eqb (currentHat (state w1)) "none")
               then updateAccessoryColor (currentHat (state w1)) c w1 else w1).
    assert (Ha2 : accessories w2 = accessories w).
    { unfold w2. destruct (negb _); [|done]. by rewrite updateAccessoryColor_accessories. }
    assert (Hs2 : state w2 = state w1).
    { unfold w2. destruct (negb _); [|done]. by rewrite updateAccessoryColor_state. }
    assert (Hr2 : repaints c (materials w) (materials w2)).
    { unfold w2. destruct (negb _); [|apply repaints_refl].
      apply (updateAccessoryColor_repaints _ c w1). }
    assert (Hm2 : accessoryMaterials w2).
    { eapply accessoryMaterials_step; [exact Hr2| |exact Hm].
      intros name' o'. rewrite Ha2. eauto. }
    rewrite Hs2. cbn [scarfVisible state w1 set_state set_currentAccessoryColor].
    destruct Hsel as [[Hname Hg]|[-> Hsc]].
    + assert (Hc2 : carriesColor (materials w2) o c).
      { unfold w2. cbn [currentHat state w1 set_state set_currentAccessoryColor].
        rewrite <- Hname, (hatGroup_not_none _ Hg). cbn [negb].
        apply updateAccessoryColor_paints; [exact Ho|].
        by apply (present_of_materials w name). }
      destruct (scarfVisible (state w)); [|done].
      by apply updateAccessoryColor_keeps.
    + rewrite Hsc. apply updateAccessoryColor_paints; [by rewrite Ha2|].
      apply (present_of_materials w2 "scarf"); [done|by rewrite Ha2].
Qed.

Lemma updateHat_none_materials w : materials (updateHat "none" w) = materials w.
Proof.
  unfold updateHat. cbv zeta. rewrite section_materials, materials_set_state.
  by change (negb (String.eqb "none" "none")) with false.
Qed.

Lemma toggleScarf_false_materials w : materials (toggleScarf false w) = materials w.
Proof.
  unfold toggleScarf. cbv zeta. rewrite section_materials, materials_set_state.
  by destruct (accessories w !! "scarf").
Qed.

Lemma resetAll_repaints w :
  repaints (currentAccessoryColor defaults) (materials w) (materials (resetAll w)).
Proof.
  unfold resetAll. cbv zeta. rewrite section_materials.
  eapply repaints_trans; [|apply updateCurrentAccessoryColor_repaints].
  rewrite toggleScarf_false_materials, updateHat_none_materials.
  eapply repaints_trans; [|apply updatePartColor_repaints].
  eapply repaints_trans; [|apply updatePartColor_repaints].
  apply (updateBearSkin_repaints _ (resetState w)).
Qed.

Lemma resetAll_lookup w name :
  accessories (resetAll w) !! name =
  (if bool_decide (name ∈ hatGroup ∨ name = "scarf") then set_visible false else id)
    <$> accessories w !! name.
Proof.
  rewrite resetAll_accessories.
  destruct (decide (name = "scarf")) as [->|Hs].
  - rewrite lookup_alter_eq, hidden_lookup_eq.
    rewrite (bool_decide_eq_false_2 ("scarf" ∈ hatGroup))
      by (rewrite hatGroup_iff; by intros [?|?]).
    rewrite bool_decide_eq_true_2 by (by right).
    by destruct (accessories w !! "scarf").
  - rewrite lookup_alter_ne, hidden_lookup_eq by done.
    destruct (bool_decide (name ∈ hatGroup)) eqn:Hg.
    + apply bool_decide_eq_true in Hg. by rewrite bool_decide_eq_true_2 by (by left).
    + apply bool_decide_eq_false in Hg. by rewrite bool_decide_eq_false_2 by tauto.
Qed.

Lemma resetAll_current w : accessoriesCurrent w -> accessoriesCurrent (resetAll w).
Proof.
  intros (Hcur & Hm & Hshown).
  assert (Hnodes : ∀ name o', accessories (resetAll w) !! name = Some o' ->
            ∃ o, accessories w !! name = Some o ∧ nodes o' = nodes o ∧
                 o' = (if bool_decide (name ∈ hatGroup ∨ name = "scarf")
                       then set_visible false else id) o).
  { intros name o'. rewrite resetAll_lookup.
    destruct (accessories w !! name) as [o|]; [|done]. cbn. intros [= <-].
    exists o. split; [done|]. split; [|done]. by destruct (bool_decide _). }
  split; [rewrite resetAll_state; right; right; left|]. split.
  - eapply accessoryMaterials_step; [apply resetAll_repaints| |done].
    intros name o' Ho'. destruct (Hnodes name o' Ho') as (o & ? & ? & _). eauto.
  - intros name o' Ho' Hvis. exfalso.
    destruct (Hnodes name o' Ho') as (o & Ho & _ & Heq).
    destruct (bool_decide (name ∈ hatGroup ∨ name = "scarf")) eqn:Hg;
      [by subst o'|].
    apply bool_decide_eq_false in Hg. cbn in Heq. subst o'.
    destruct (Hshown name o Ho Hvis) as [[[_ ?]|[? _]] _]; tauto.
Qed.

(** Every mesh of a loaded accessory gets a new material, without clone
    mark. *)
Lemma freshMaterial_unflagged k ns h nm r cnt :
  Mesh nm r cnt ∈ (traverseFrom k (λ _, freshMaterial) ns h).1 ->
  ∃ m, (traverseFrom k (λ _, freshMaterial) ns h).2 !! r = Some m ∧ flagged m = false.
Proof.
  revert k h. induction ns as [|n ns IH]; intros k h; cbn [traverseFrom].
  - intros Hin. by apply elem_of_nil in Hin.
  - destruct n as [gnm|nm0 r0 cnt0]; cbn [freshMaterial].
    + specialize (IH (S k) h).
      destruct (traverseFrom (S k) _ ns h) as [ns' h']. cbn [fst snd] in *.
      intros Hin. apply elem_of_cons in Hin as [?|Hin]; [done|]. by apply IH.
    + specialize (IH (S k) (h ++ [MeshStandardMaterial (currentAccessoryColor defaults)])).
      destruct (freshMaterial_extends (S k) ns
                  (h ++ [MeshStandardMaterial (currentAccessoryColor defaults)]))
        as [extra He].
      destruct (traverseFrom (S k) _ ns _) as [ns' h']. cbn [fst snd] in *.
      intros Hin. apply elem_of_cons in Hin as [Heq|Hin]; [|by apply IH].
      injection Heq as -> -> ->. subst h'.
      exists (MeshStandardMaterial (currentAccessoryColor defaults)). split; [|done].
      rewrite lookup_app_l by (rewrite length_app; cbn; lia).
      by rewrite lookup_app_r, Nat.sub_diag.
Qed.

Lemma onAccessoryLoaded_current name g w :
  accessoriesCurrent w -> accessoriesCurrent (onAccessoryLoaded name g w).
Proof.
  intros (Hcur & Hm & Hshown). unfold onAccessoryLoaded. cbv zeta.
  pose proof (freshMaterial_unflagged 0 (nodes (GLTF.scene g)) (materials w)) as Hnew.
  destruct (freshMaterial_extends 0 (nodes (GLTF.scene g)) (materials w)) as [extra He].
  unfold traverse.
  destruct (traverseFrom 0 _ (nodes (GLTF.scene g)) (materials w)) as [ns h].
  cbn [fst snd] in *. subst h.
  apply checkAllLoaded_current.
  match goal with |- accessoriesCurrent (set_loadingStatus ?l ?x) =>
    change (accessoriesCurrent x) end.
  split; [exact Hcur|]. split.
  - intros name0 o0 nm r cnt Ho0 Hin.
    cbn [accessories materials set_materials set_accessories] in *.
    apply lookup_insert_Some in Ho0 as [[_ <-]|[_ Ho0]].
    + exact (Hnew nm r cnt Hin).
    + destruct (Hm name0 o0 nm r cnt Ho0 Hin) as (m & Hr & Hf).
      exists m. split; [|done]. rewrite lookup_app_l; [done|]. by eapply lookup_lt_Some.
  - intros name0 o0 Ho0 Hvis.
    cbn [accessories materials state set_materials set_accessories] in *.
    apply lookup_insert_Some in Ho0 as [[_ <-]|[_ Ho0]]; [done|].
    destruct (Hshown name0 o0 Ho0 Hvis) as [Hsel Hcol]. split; [done|].
    eapply carriesColor_step; [apply repaints_app|exact Hm|exact Ho0|done|done].
Qed.

Lemma handle_current e w :
  pageEvent e = true -> accessoriesCurrent w -> accessoriesCurrent (handle e w).
Proof.
  intros He Hw. destruct e as [g|name g| |s|p c|v|v|c|]; unfold handle.
  - by apply onBearLoaded_current.
  - by apply onAccessoryLoaded_current.
  - by apply onTimeout_current.
  - by apply updateBearSkin_current.
  - by apply updatePartColor_current.
  - apply updateHat_current; [|done]. by apply bool_decide_eq_true in He.
  - by apply toggleScarf_current.
  - by apply updateCurrentAccessoryColor_current.
  - by apply resetAll_current.
Qed.

Lemma run_current es w :
  forallb pageEvent es = true -> accessoriesCurrent w -> accessoriesCurrent (run es w).
Proof.
  revert w. induction es as [|e es IH]; intros w Hes Hw; [done|].
  cbn [forallb] in Hes. apply andb_true_iff in Hes as [He Hes].
  change (run (e :: es) w) with (run es (handle e w)).
  by apply IH, handle_current.
Qed.

Lemma init_current page : accessoriesCurrent (init page).
Proof.
  split; [right; right; left|]. split.
  - intros name o nm r cnt Ho. cbn in Ho. by rewrite lookup_empty in Ho.
  - intros name o Ho. cbn in Ho. by rewrite lookup_empty in Ho.
Qed.

End AccessoryColor.

(** X12: in every state the textured program reaches from its start, by
    any loads, the timer and any use of the controls in which the hat
    selector offers "hat", "beanie" and "none", every accessory that is
    shown carries the accessory colour selected last
    ([state.currentAccessoryColor]) on all its meshes. *)
Theorem shown_accessories_carry_selected_color
    (page : Skins.Dom) (es : list Skins.Event) (name : string) (o : Object3D) :
  forallb pageEvent es = true ->
  Skins.accessories (Skins.run es (Skins.init page)) !! name = Some o ->
  visible o = true ->
  carriesColor (Skins.materials (Skins.run es (Skins.init page))) o
    (Skins.currentAccessoryColor (Skins.state (Skins.run es (Skins.init page)))).
Proof.
  intros Hes Ho Hvis.
  destruct (run_current es (Skins.init page) Hes (init_current page)) as (_ & _ & Hshown).
  by destruct (Hshown name o Ho Hvis).
Qed.

Lemma shown_accessories_carry_selected_color_witness :
  let w := Skins.run [Skins.AccessoryLoaded "hat" Sample.topHat;
                      Skins.AccessoryLoaded "scarf" Sample.scarf;
                      Skins.HatChange "hat"; Skins.ScarfChange true;
                      Skins.AccessoryColorClick 0x4169E1%Z; Skins.HatChange "none"]
                     (Skins.init Sample.page) in
  ∃ o, Skins.accessories w !! "scarf" = Some o ∧ visible o = true ∧
       carriesColor (Skins.materials w) o 0x4169E1%Z.
Proof.
  cbv zeta. eexists. split; [vm_compute; reflexivity|]. split; [reflexivity|].
  refine (shown_accessories_carry_selected_color Sample.page _ "scarf" _ _ _ _);
    vm_compute; reflexivity.
Defined.

(** ** [resetAll()] of the second part of [script.js] *)

Section FormsReset.

Implicit Types (s : Scene.t) (a : App.t).

Lemma Forms_resetAll_scene a :
  App.sceneManager (resetAll (ops := Forms.ops) a) =
  Forms.toggleAccessory "scarf" false
    (Forms.toggleAccessory "bow" false
       (Forms.toggleAccessory "hat" false
          (Forms.updateEyeColor "black"
             (Forms.updateFurColor "brown"
                (Forms.switchBearForm "sitting" (App.sceneManager a)))))).
Proof. reflexivity. Qed.

(** A surface depends on the store and on the nodes of its object. *)
Lemma surface_ext s s' b j :
  Scene.materials s' = Scene.materials s ->
  nodes <$> Scene.objects s' !! b = nodes <$> Scene.objects s !! b ->
  Scene.surface s' b j = Scene.surface s b j.
Proof.
  intros Hm Ho. unfold Scene.surface. rewrite Hm.
  destruct (Scene.objects s' !! b) as [o'|], (Scene.objects s !! b) as [o|];
    cbn in *; try done. injection Ho as Ho. by rewrite Ho.
Qed.

Lemma nodes_alter_visible v r (os : list Object3D) b :
  nodes <$> alter (set_visible v) r os !! b = nodes <$> os !! b.
Proof.
  rewrite list_lookup_alter. case_decide; [subst|done]. by destruct (os !! b).
Qed.

Lemma nodes_placeObjs (ref : option nat) f (os : list Object3D) b :
  (∀ o, nodes (f o) = nodes o) ->
  nodes <$> placeObjs ref f os !! b = nodes <$> os !! b.
Proof.
  intros Hf. rewrite placeObjs_lookup. destruct (os !! b) as [o|]; [|done]. cbn.
  case_decide; [by rewrite Hf|done].
Qed.

Lemma nodes_reposObjs F ac (os : list Object3D) b :
  nodes <$> reposObjs F ac os !! b = nodes <$> os !! b.
Proof.
  unfold reposObjs. destruct (Forms.positions !! F) as [pos|]; [|done].
  by rewrite !nodes_placeObjs.
Qed.

(** Switching the form changes no surface. *)
Lemma surface_switchBearForm F s b j :
  Scene.surface (Forms.switchBearForm F s) b j = Scene.surface s b j.
Proof.
  apply surface_ext; rewrite Forms_switchBearForm_eq; cbv zeta;
    destruct (Scene.bearModels s !! F) as [nb|]; cbn [Scene.materials Scene.objects];
    try done.
  - rewrite nodes_reposObjs, nodes_alter_visible.
    destruct (Scene.currentBear s); [apply nodes_alter_visible|done].
  - destruct (Scene.currentBear s); [apply nodes_alter_visible|done].
Qed.

Lemma surface_toggleAccessory k v s b j :
  Scene.surface (Forms.toggleAccessory k v s) b j = Scene.surface s b j.
Proof.
  unfold Forms.toggleAccessory. destruct (Scene.accessories s !! k) as [r|]; [|done].
  apply surface_ext; [done|]. apply nodes_alter_visible.
Qed.

Lemma traverseCurrent_frame f b s :
  Scene.currentBear (Scene.traverseCurrent f b s) = Scene.currentBear s ∧
  Scene.accessories (Scene.traverseCurrent f b s) = Scene.accessories s ∧
  Scene.bearModels (Scene.traverseCurrent f b s) = Scene.bearModels s.
Proof.
  unfold Scene.traverseCurrent. destruct (Scene.objects s !! b); [|done].
  by destruct (traverse f _ _).
Qed.

Lemma Forms_updateFurColor_frame c s :
  Scene.currentBear (Forms.updateFurColor c s) = Scene.currentBear s ∧
  Scene.accessories (Forms.updateFurColor c s) = Scene.accessories s ∧
  Scene.bearModels (Forms.updateFurColor c s) = Scene.bearModels s.
Proof.
  unfold Forms.updateFurColor. destruct (Scene.currentBear s) eqn:Hb; [|done].
  rewrite <- Hb. apply traverseCurrent_frame.
Qed.

Lemma Forms_updateEyeColor_frame c s :
  Scene.currentBear (Forms.updateEyeColor c s) = Scene.currentBear s ∧
  Scene.accessories (Forms.updateEyeColor c s) = Scene.accessories s ∧
  Scene.bearModels (Forms.updateEyeColor c s) = Scene.bearModels s.
Proof.
  unfold Forms.updateEyeColor. destruct (Scene.currentBear s) eqn:Hb; [|done].
  rewrite <- Hb. apply traverseCurrent_frame.
Qed.

Lemma Forms_toggleAccessory_frame k v s :
  Scene.currentBear (Forms.toggleAccessory k v s) = Scene.currentBear s ∧
  Scene.accessories (Forms.toggleAccessory k v s) = Scene.accessories s ∧
  Scene.bearModels (Forms.toggleAccessory k v s) = Scene.bearModels s.
Proof. unfold Forms.toggleAccessory. by destruct (Scene.accessories s !! k). Qed.

Lemma toggle_hides k s r o :
  Scene.accessories s !! k = Some r ->
  Scene.objects (Forms.toggleAccessory k false s) !! r = Some o -> visible o = false.
Proof.
  intros Hk. unfold Forms.toggleAccessory. rewrite Hk. cbn.
  rewrite list_lookup_alter_eq. destruct (Scene.objects s !! r); [|done].
  cbn. by intros [= <-].
Qed.

Lemma toggle_keeps_hidden k s r :
  (∀ o, Scene.objects s !! r = Some o -> visible o = false) ->
  ∀ o, Scene.objects (Forms.toggleAccessory k false s) !! r = Some o -> visible o = false.
Proof.
  intros H o. unfold Forms.toggleAccessory.
  destruct (Scene.accessories s !! k) as [r'|]; [|apply H]. cbn.
  rewrite list_lookup_alter. case_decide; [subst|apply H].
  destruct (Scene.objects s !! r); [|done]. cbn. by intros [= <-].
Qed.

Lemma toggles_hide s k r o :
  k ∈ ["hat"; "bow"; "scarf"] ->
  let s' := Forms.toggleAccessory "scarf" false
              (Forms.toggleAccessory "bow" false (Forms.toggleAccessory "hat" false s)) in
  Scene.accessories s' !! k = Some r -> Scene.objects s' !! r = Some o ->
  visible o = false.
Proof.
  intros Hk. cbv zeta.
  rewrite !(proj1 (proj2 (Forms_toggleAccessory_frame _ _ _))). intros Hr.
  apply elem_of_cons in Hk as [->|Hk];
    [|apply elem_of_cons in Hk as [->|Hk]; [|apply list_elem_of_singleton in Hk as ->]].
  - apply toggle_keeps_hidden, toggle_keeps_hidden. intros o'. by apply toggle_hides.
  - apply toggle_keeps_hidden. intros o'. apply toggle_hides.
    by rewrite (proj1 (proj2 (Forms_toggleAccessory_frame _ _ _))).
  - apply toggle_hides.
    by rewrite !(proj1 (proj2 (Forms_toggleAccessory_frame _ _ _))).
Qed.

End FormsReset.

(** X13: in the second part of [script.js], when the sitting model is
    registered, [resetAll()] makes it the current bear, leaves every
    surface of it whose material is named "EyeBlack" black (0x000000) and
    every other surface brown (0x8B4513), and leaves the hat, the bow and
    the scarf hidden. *)
Theorem resetAll_restores_default_look (a : App.t) (b j : nat) (m : Material.t) :
  Scene.bearModels (App.sceneManager a) !! "sitting" = Some b ->
  Scene.surface (App.sceneManager a) b j = Some m ->
  Scene.currentBear (App.sceneManager (resetAll (ops := Forms.ops) a)) = Some b ∧
  Scene.surfaceColor (App.sceneManager (resetAll (ops := Forms.ops) a)) b j =
    Some (if String.eqb (Material.name m) "EyeBlack" then 0x000000%Z else 0x8B4513%Z) ∧
  (∀ k r o, k ∈ ["hat"; "bow"; "scarf"] ->
     Scene.accessories (App.sceneManager (resetAll (ops := Forms.ops) a)) !! k = Some r ->
     Scene.objects (App.sceneManager (resetAll (ops := Forms.ops) a)) !! r = Some o ->
     visible o = false).
Proof.
  intros Hb Hj. rewrite Forms_resetAll_scene.
  set (s1 := Forms.switchBearForm "sitting" (App.sceneManager a)).
  assert (Hb1 : Scene.currentBear s1 = Some b).
  { unfold s1. rewrite Forms_switchBearForm_eq. cbv zeta. by rewrite Hb. }
  assert (Hj1 : Scene.surface s1 b j = Some m)
    by (unfold s1; by rewrite surface_switchBearForm).
  set (s2 := Forms.updateFurColor "brown" s1).
  assert (Hb2 : Scene.currentBear s2 = Some b)
    by (unfold s2; by rewrite (proj1 (Forms_updateFurColor_frame _ _))).
  set (s3 := Forms.updateEyeColor "black" s2).
  assert (Hb3 : Scene.currentBear s3 = Some b)
    by (unfold s3; by rewrite (proj1 (Forms_updateEyeColor_frame _ _))).
  split; [|split].
  - by rewrite !(proj1 (Forms_toggleAccessory_frame _ _ _)).
  - unfold Scene.surfaceColor. rewrite !surface_toggleAccessory. subst s3.
    destruct (String.eqb (Material.name m) "EyeBlack") eqn:E.
    + apply String.eqb_eq in E.
      assert (Hj2 : Scene.surface s2 b j = Some m)
        by (by apply Forms_updateFurColor_exempt).
      destruct (Forms_updateEyeColor_paints "black" s2 b j m Hb2 Hj2 E)
        as (m' & -> & _ & Hc). cbn. rewrite Hc. reflexivity.
    + apply String.eqb_neq in E.
      destruct (Forms_updateFurColor_paints "brown" s1 b j m Hb1 Hj1 E)
        as (m' & Hj2 & Hn & Hc).
      fold s2 in Hj2.
      rewrite (Forms_updateEyeColor_exempt "black" s2 b j m' Hb2 Hj2) by congruence.
      cbn. rewrite Hc. reflexivity.
  - intros k r o Hk. by apply toggles_hide.
Qed.

Lemma resetAll_restores_default_look_witness :
  let a' := resetAll (ops := Forms.ops) Sample.configured in
  Scene.surfaceColor (App.sceneManager Sample.configured) 0 1 = Some 0xFFB6C1%Z ∧
  Scene.currentBear (App.sceneManager a') = Some 0 ∧
  Scene.surfaceColor (App.sceneManager a') 0 1 = Some 0x8B4513%Z.
Proof.
  cbv zeta. split; [vm_compute; reflexivity|].
  assert (Hb : Scene.bearModels (App.sceneManager Sample.configured) !! "sitting" = Some 0)
    by (vm_compute; reflexivity).
  assert (Hj : Scene.surface (App.sceneManager Sample.configured) 0 1
               = Some (Material.mk "Fur" 0xFFB6C1%Z None (UserData.mk true false false)))
    by (vm_compute; reflexivity).
  destruct (resetAll_restores_default_look Sample.configured 0 1 _ Hb Hj) as (H1 & H2 & _).
  split; [exact H1|exact H2].
Defined.

(** ** Which bear variants are shown, across a run of the second part *)

Section LoaderRun.

Implicit Types (s : Scene.t) (os : list Object3D).

Local Ltac scene_fields :=
  cbn [Scene.objects Scene.set_objects Scene.set_accessories Scene.set_bearModels
       Scene.set_currentBear Scene.bearModels Scene.accessories Scene.currentBear
       Scene.materials] in *.

Lemma isVisible_shownIn s r : Scene.isVisible s r = shownIn (Scene.objects s) r.
Proof. reflexivity. Qed.

Lemma shownIn_alter_visible v r os r' :
  shownIn (alter (set_visible v) r os) r' =
  if decide (r = r') then (if decide (r < length os) then v else false) else shownIn os r'.
Proof.
  unfold shownIn. destruct (decide (r = r')) as [<-|Hne].
  - rewrite list_lookup_alter_eq.
    destruct (decide (r < length os)) as [Hlt|Hge].
    + by destruct (lookup_lt_is_Some_2 _ _ Hlt) as [o ->].
    + by rewrite lookup_ge_None_2 by lia.
  - by rewrite list_lookup_alter_ne.
Qed.

Lemma shownIn_alter f r os r' :
  (∀ o, visible (f o) = visible o) -> shownIn (alter f r os) r' = shownIn os r'.
Proof.
  intros Hf. unfold shownIn. rewrite list_lookup_alter. case_decide; [subst|done].
  destruct (os !! r'); [apply Hf|done].
Qed.

Lemma shownIn_placeObjs (ref : option nat) f os r' :
  (∀ o, visible (f o) = visible o) -> shownIn (placeObjs ref f os) r' = shownIn os r'.
Proof. intros Hf. destruct ref; [by apply shownIn_alter|done]. Qed.

Lemma shownIn_reposObjs F ac os r' : shownIn (reposObjs F ac os) r' = shownIn os r'.
Proof.
  unfold reposObjs. destruct (Forms.positions !! F) as [pos|]; [|done].
  by rewrite !shownIn_placeObjs.
Qed.

Lemma length_placeObjs (ref : option nat) f os : length (placeObjs ref f os) = length os.
Proof. destruct ref; [apply length_alter|done]. Qed.

Lemma length_reposObjs F ac os : length (reposObjs F ac os) = length os.
Proof.
  unfold reposObjs. destruct (Forms.positions !! F) as [pos|]; [|done].
  by rewrite !length_placeObjs.
Qed.

Lemma shownIn_app_l os extra r : r < length os -> shownIn (os ++ extra) r = shownIn os r.
Proof. intros Hr. unfold shownIn. by rewrite lookup_app_l. Qed.

Lemma shownIn_snoc os o : shownIn (os ++ [o]) (length os) = visible o.
Proof. unfold shownIn. by rewrite lookup_app_r, Nat.sub_diag. Qed.

Lemma shownIn_lt os r : shownIn os r = true -> r < length os.
Proof.
  unfold shownIn. destruct (os !! r) eqn:E; [|done]. intros _. by eapply lookup_lt_Some.
Qed.

(** An operation that keeps the registries, the current bear and the
    visibility of every bear variant. *)
Lemma shown_frame s s' :
  Scene.bearModels s' = Scene.bearModels s ->
  Scene.accessories s' = Scene.accessories s ->
  Scene.currentBear s' = Scene.currentBear s ->
  length (Scene.objects s') = length (Scene.objects s) ->
  (∀ k r, Scene.bearModels s !! k = Some r -> Scene.isVisible s' r = Scene.isVisible s r) ->
  refsValid s ∧ onlyCurrentShown s -> refsValid s' ∧ onlyCurrentShown s'.
Proof.
  intros Hb Ha Hc Hl Hv [(V1 & V2 & V3) Hs]. split.
  - unfold refsValid. rewrite Hb, Ha, Hl. done.
  - intros k r Hk. rewrite Hb in Hk. rewrite (Hv k r Hk), Hc. exact (Hs k r Hk).
Qed.

Lemma switchBearForm_shown F s :
  refsValid s ∧ onlyCurrentShown s ->
  refsValid (Forms.switchBearForm F s) ∧ onlyCurrentShown (Forms.switchBearForm F s).
Proof.
  intros [(V1 & V2 & V3) Hs]. rewrite Forms_switchBearForm_eq. cbv zeta.
  set (os1 := match Scene.currentBear s with
              | Some b => alter (set_visible false) b (Scene.objects s)
              | None => Scene.objects s
              end).
  assert (Hl1 : length os1 = length (Scene.objects s))
    by (unfold os1; destruct (Scene.currentBear s); by rewrite ?length_alter).
  assert (Hv1 : ∀ k r, Scene.bearModels s !! k = Some r -> shownIn os1 r = false).
  { intros k r Hk. unfold os1. destruct (Scene.currentBear s) as [b|] eqn:Hb.
    - rewrite shownIn_alter_visible. destruct (decide (b = r)) as [->|Hne].
      + by destruct (decide _).
      + destruct (shownIn (Scene.objects s) r) eqn:E; [|done].
        specialize (Hs k r Hk E). congruence.
    - destruct (shownIn (Scene.objects s) r) eqn:E; [|done].
      specialize (Hs k r Hk E). congruence. }
  destruct (Scene.bearModels s !! F) as [nb|] eqn:HF.
  - split.
    + unfold refsValid. cbn [Scene.bearModels Scene.accessories Scene.objects].
      by rewrite length_reposObjs, length_alter, Hl1.
    + intros k r Hk.
      cbn [Scene.bearModels Scene.currentBear] in *.
      rewrite isVisible_shownIn. cbn [Scene.objects].
      rewrite shownIn_reposObjs, shownIn_alter_visible.
      destruct (decide (nb = r)) as [->|Hne]; [done|].
      by rewrite (Hv1 k r Hk).
  - split.
    + unfold refsValid. cbn [Scene.bearModels Scene.accessories Scene.objects].
      by rewrite Hl1.
    + intros k r Hk. cbn [Scene.bearModels] in Hk.
      rewrite isVisible_shownIn. cbn [Scene.objects]. by rewrite (Hv1 k r Hk).
Qed.

Lemma traverseCurrent_objects f b s :
  length (Scene.objects (Scene.traverseCurrent f b s)) = length (Scene.objects s) ∧
  ∀ r, Scene.isVisible (Scene.traverseCurrent f b s) r = Scene.isVisible s r.
Proof.
  unfold Scene.traverseCurrent. destruct (Scene.objects s !! b) as [o|] eqn:Ho; [|done].
  destruct (traverse f _ _) as [ns h]. cbn [Scene.objects Scene.set_materials Scene.set_objects].
  split; [by rewrite length_insert|].
  intros r. unfold Scene.isVisible.
  cbn [Scene.objects Scene.set_materials Scene.set_objects].
  destruct (decide (b = r)) as [<-|Hne].
  - rewrite list_lookup_insert_eq by (by eapply lookup_lt_Some). by rewrite Ho.
  - by rewrite list_lookup_insert_ne.
Qed.

Lemma updateFurColor_shown c s :
  refsValid s ∧ onlyCurrentShown s ->
  refsValid (Forms.updateFurColor c s) ∧ onlyCurrentShown (Forms.updateFurColor c s).
Proof.
  destruct (Forms_updateFurColor_frame c s) as (Hc & Ha & Hb).
  apply shown_frame; try done; unfold Forms.updateFurColor;
    destruct (Scene.currentBear s); try done.
  - apply traverseCurrent_objects.
  - intros k r _. apply traverseCurrent_objects.
Qed.

Lemma updateEyeColor_shown c s :
  refsValid s ∧ onlyCurrentShown s ->
  refsValid (Forms.updateEyeColor c s) ∧ onlyCurrentShown (Forms.updateEyeColor c s).
Proof.
  destruct (Forms_updateEyeColor_frame c s) as (Hc & Ha & Hb).
  apply shown_frame; try done; unfold Forms.updateEyeColor;
    destruct (Scene.currentBear s); try done.
  - apply traverseCurrent_objects.
  - intros k r _. apply traverseCurrent_objects.
Qed.

Lemma toggleAccessory_shown k v s :
  refsValid s ∧ onlyCurrentShown s ->
  refsValid (Forms.toggleAccessory k v s) ∧ onlyCurrentShown (Forms.toggleAccessory k v s).
Proof.
  intros H. pose proof H as [(V1 & V2 & V3) Hs]. revert H.
  destruct (Forms_toggleAccessory_frame k v s) as (Hc & Ha & Hb).
  apply shown_frame; try done; unfold Forms.toggleAccessory;
    destruct (Scene.accessories s !! k) as [a|] eqn:Hk; try done.
  - cbn. by rewrite length_alter.
  - intros k0 r Hr. rewrite isVisible_setVisible.
    rewrite decide_False; [done|]. intros ->. by apply (V3 k0 r k).
Qed.

Lemma handle_scene e (a : App.t) :
  App.sceneManager (handle (ops := Forms.ops) e a) =
  match e with
  | FormClick f => Forms.switchBearForm f (App.sceneManager a)
  | ColorClick c => Forms.updateFurColor c (App.sceneManager a)
  | EyeClick c => Forms.updateEyeColor c (App.sceneManager a)
  | AccessoryChange k v => Forms.toggleAccessory k v (App.sceneManager a)
  | ResetAllClick =>
      Forms.toggleAccessory "scarf" false
        (Forms.toggleAccessory "bow" false
           (Forms.toggleAccessory "hat" false
              (Forms.updateEyeColor "black"
                 (Forms.updateFurColor "brown"
                    (Forms.switchBearForm "sitting" (App.sceneManager a))))))
  end.
Proof. by destruct e. Qed.

Lemma handle_shown e (a : App.t) :
  refsValid (App.sceneManager a) ∧ onlyCurrentShown (App.sceneManager a) ->
  refsValid (App.sceneManager (handle (ops := Forms.ops) e a)) ∧
  onlyCurrentShown (App.sceneManager (handle (ops := Forms.ops) e a)).
Proof.
  intros H. rewrite handle_scene. destruct e as [f|c|c|k v|].
  - by apply switchBearForm_shown.
  - by apply updateFurColor_shown.
  - by apply updateEyeColor_shown.
  - by apply toggleAccessory_shown.
  - by apply toggleAccessory_shown, toggleAccessory_shown, toggleAccessory_shown,
      updateEyeColor_shown, updateFurColor_shown, switchBearForm_shown.
Qed.

(** The scene right after [loadModel]'s callback has added the model. *)
Lemma loadModel_shown g s :
  refsValid s ∧ onlyCurrentShown s ->
  (Loader.loadModel g s).1 = length (Scene.objects s) ∧
  length (Scene.objects (Loader.loadModel g s).2) = S (length (Scene.objects s)) ∧
  Scene.bearModels (Loader.loadModel g s).2 = Scene.bearModels s ∧
  Scene.accessories (Loader.loadModel g s).2 = Scene.accessories s ∧
  Scene.currentBear (Loader.loadModel g s).2 = Scene.currentBear s ∧
  Scene.isVisible (Loader.loadModel g s).2 (length (Scene.objects s)) = false ∧
  (∀ r, r < length (Scene.objects s) ->
        Scene.isVisible (Loader.loadModel g s).2 r = Scene.isVisible s r).
Proof.
  intros _. unfold Loader.loadModel. cbn [fst snd Scene.objects Scene.bearModels
    Scene.accessories Scene.currentBear].
  repeat split.
  - rewrite length_app. cbn. lia.
  - rewrite isVisible_shownIn. cbn [Scene.objects]. by rewrite shownIn_snoc.
  - intros r Hr. rewrite !isVisible_shownIn. cbn [Scene.objects]. by rewrite shownIn_app_l.
Qed.

Lemma registerBear_shown nm g s :
  refsValid s ∧ onlyCurrentShown s ->
  refsValid (Loader.registerBear nm (length (Scene.objects s)) (Loader.loadModel g s).2) ∧
  onlyCurrentShown
    (Loader.registerBear nm (length (Scene.objects s)) (Loader.loadModel g s).2).
Proof.
  intros H. pose proof H as [(V1 & V2 & V3) Hs].
  destruct (loadModel_shown g s H) as (_ & Hl & Hb & Ha & Hc & Hnew & Hold).
  unfold Loader.registerBear. split; [split; [|split]|].
  - intros k r Hk. scene_fields.
    rewrite Hl. rewrite Hb in Hk.
    apply lookup_insert_Some in Hk as [[_ <-]|[_ Hk]]; [lia|]. specialize (V1 k r Hk). lia.
  - intros k r Hk. scene_fields.
    rewrite Hl. rewrite Ha in Hk. specialize (V2 k r Hk). lia.
  - intros k r k' Hk Hk'. scene_fields.
    rewrite Hb in Hk. rewrite Ha in Hk'.
    apply lookup_insert_Some in Hk as [[_ <-]|[_ Hk]]; [|by eapply V3].
    specialize (V2 k' _ Hk'). lia.
  - intros k r Hk.
    change (Scene.isVisible (Scene.set_bearModels ?m ?x) r) with (Scene.isVisible x r).
    scene_fields.
    rewrite Hb in Hk. rewrite Hc.
    apply lookup_insert_Some in Hk as [[_ <-]|[_ Hk]]; [by rewrite Hnew|].
    rewrite Hold by eauto. exact (Hs k r Hk).
Qed.

Lemma registerAccessory_shown nm g s f :
  (∀ o, visible (f o) = visible o) ->
  refsValid s ∧ onlyCurrentShown s ->
  let n := length (Scene.objects s) in
  let s1 := Scene.setVisible n false (Loader.registerAccessory nm n (Loader.loadModel g s).2) in
  refsValid (Scene.set_objects (alter f n (Scene.objects s1)) s1) ∧
  onlyCurrentShown (Scene.set_objects (alter f n (Scene.objects s1)) s1).
Proof.
  intros Hf H. pose proof H as [(V1 & V2 & V3) Hs]. cbv zeta.
  destruct (loadModel_shown g s H) as (_ & Hl & Hb & Ha & Hc & Hnew & Hold).
  unfold Loader.registerAccessory, Scene.setVisible.
  scene_fields.
  split; [split; [|split]|].
  - intros k r Hk. scene_fields.
    rewrite !length_alter, Hl. rewrite Hb in Hk. specialize (V1 k r Hk). lia.
  - intros k r Hk. scene_fields.
    rewrite !length_alter, Hl. rewrite Ha in Hk.
    apply lookup_insert_Some in Hk as [[_ <-]|[_ Hk]]; [lia|]. specialize (V2 k r Hk). lia.
  - intros k r k' Hk Hk'. scene_fields.
    rewrite Hb in Hk. rewrite Ha in Hk'.
    apply lookup_insert_Some in Hk' as [[_ Heq]|[_ Hk']]; [|by eapply V3].
    specialize (V1 k r Hk). lia.
  - intros k r Hk. scene_fields.
    rewrite Hb in Hk. rewrite Hc. rewrite isVisible_shownIn. scene_fields.
    assert (Hr : r < length (Scene.objects s)) by eauto.
    rewrite shownIn_alter by done. rewrite shownIn_alter_visible.
    rewrite decide_False by lia. rewrite <- isVisible_shownIn, Hold by done.
    exact (Hs k r Hk).
Qed.

Lemma sitting_shown g s :
  Scene.currentBear s = None ->
  refsValid s ∧ onlyCurrentShown s ->
  let n := length (Scene.objects s) in
  let s2 := Scene.setVisible n true
              (Scene.set_currentBear (Some n)
                 (Loader.registerBear "sitting" n (Loader.loadModel g s).2)) in
  refsValid s2 ∧ onlyCurrentShown s2.
Proof.
  intros Hnone H. pose proof H as [(V1 & V2 & V3) Hs]. cbv zeta.
  destruct (loadModel_shown g s H) as (_ & Hl & Hb & Ha & Hc & Hnew & Hold).
  unfold Loader.registerBear, Scene.setVisible.
  scene_fields.
  split; [split; [|split]|].
  - intros k r Hk. scene_fields.
    rewrite length_alter, Hl. rewrite Hb in Hk.
    apply lookup_insert_Some in Hk as [[_ <-]|[_ Hk]]; [lia|]. specialize (V1 k r Hk). lia.
  - intros k r Hk. scene_fields.
    rewrite length_alter, Hl. rewrite Ha in Hk. specialize (V2 k r Hk). lia.
  - intros k r k' Hk Hk'. scene_fields.
    rewrite Hb in Hk. rewrite Ha in Hk'.
    apply lookup_insert_Some in Hk as [[_ <-]|[_ Hk]]; [|by eapply V3].
    specialize (V2 k' _ Hk'). lia.
  - intros k r Hk. scene_fields.
    rewrite Hb in Hk.
    apply lookup_insert_Some in Hk as [[_ <-]|[_ Hk]]; [done|].
    rewrite isVisible_shownIn. scene_fields.
    assert (Hr : r < length (Scene.objects s)) by eauto.
    rewrite shownIn_alter_visible. rewrite decide_False by lia.
    rewrite <- isVisible_shownIn, Hold by done.
    intros Hvis. specialize (Hs k r Hk Hvis). congruence.
Qed.

Lemma onLoad_scene what g (a : App.t) :
  App.sceneManager (Loader.onLoad what g a) =
  let n := length (Scene.objects (App.sceneManager a)) in
  let s := (Loader.loadModel g (App.sceneManager a)).2 in
  match what with
  | Loader.sitting =>
      Forms.updateEyeColor (BearState.eyeColor (App.bearState a))
        (Forms.updateFurColor (BearState.furColor (App.bearState a))
           (Scene.setVisible n true
              (Scene.set_currentBear (Some n) (Loader.registerBear "sitting" n s))))
  | Loader.standing => Loader.registerBear "standing" n s
  | Loader.compact => Loader.registerBear "compact" n s
  | Loader.hat =>
      let s1 := Scene.setVisible n false (Loader.registerAccessory "hat" n s) in
      Scene.set_objects (alter (set_position (vec3 0 1.7 0)) n (Scene.objects s1)) s1
  | Loader.bow =>
      let s1 := Scene.setVisible n false (Loader.registerAccessory "bow" n s) in
      Scene.set_objects
        (alter (λ o, set_scale (vec3 0.8 0.8 0.8) (set_position (vec3 0.3 1.6 0) o))
               n (Scene.objects s1)) s1
  | Loader.scarf =>
      let s1 := Scene.setVisible n false (Loader.registerAccessory "scarf" n s) in
      Scene.set_objects (alter (set_position (vec3 0 1.0 0)) n (Scene.objects s1)) s1
  end.
Proof. by destruct what. Qed.

Lemma step_shown e (a : App.t) :
  isSittingLoad e = false ->
  refsValid (App.sceneManager a) ∧ onlyCurrentShown (App.sceneManager a) ->
  refsValid (App.sceneManager (Loader.step e a)) ∧
  onlyCurrentShown (App.sceneManager (Loader.step e a)).
Proof.
  intros He H. destruct e as [what g|e]; unfold Loader.step; [|by apply handle_shown].
  rewrite onLoad_scene. cbv zeta. destruct what; try done.
  - by apply registerBear_shown.
  - by apply registerBear_shown.
  - by apply (registerAccessory_shown "hat" g _ (set_position (vec3 0 1.7 0))).
  - by apply (registerAccessory_shown "bow" g _
                (λ o, set_scale (vec3 0.8 0.8 0.8) (set_position (vec3 0.3 1.6 0) o))).
  - by apply (registerAccessory_shown "scarf" g _ (set_position (vec3 0 1.0 0))).
Qed.

Lemma run_shown es (a : App.t) :
  forallb (λ e, negb (isSittingLoad e)) es = true ->
  refsValid (App.sceneManager a) ∧ onlyCurrentShown (App.sceneManager a) ->
  refsValid (App.sceneManager (Loader.run es a)) ∧
  onlyCurrentShown (App.sceneManager (Loader.run es a)).
Proof.
  revert a. induction es as [|e es IH]; intros a Hes H; [done|].
  cbn [forallb] in Hes. apply andb_true_iff in Hes as [He Hes].
  change (Loader.run (e :: es) a) with (Loader.run es (Loader.step e a)).
  apply IH; [done|]. apply step_shown; [|done]. by destruct (isSittingLoad e).
Qed.

Lemma sitting_first_shown g :
  refsValid (App.sceneManager (Loader.onLoad Loader.sitting g App.new)) ∧
  onlyCurrentShown (App.sceneManager (Loader.onLoad Loader.sitting g App.new)).
Proof.
  rewrite onLoad_scene. cbv zeta.
  apply updateEyeColor_shown, updateFurColor_shown.
  apply (sitting_shown g Scene.new); [done|]. split; [split; [|split]|].
  - intros k r Hk. cbn in Hk. by rewrite lookup_empty in Hk.
  - intros k r Hk. cbn in Hk. by rewrite lookup_empty in Hk.
  - intros k r k' Hk. cbn in Hk. by rewrite lookup_empty in Hk.
  - intros k r Hk. cbn in Hk. by rewrite lookup_empty in Hk.
Qed.

Lemma onlyCurrentShown_variants s :
  onlyCurrentShown s ->
  Scene.visibleVariants s = [] ∨
  ∃ b, Scene.currentBear s = Some b ∧ Scene.visibleVariants s = [b].
Proof.
  intros Hs.
  assert (Hin : ∀ r, r ∈ Scene.visibleVariants s ->
            (∃ k, Scene.bearModels s !! k = Some r) ∧ Scene.isVisible s r = true).
  { intros r Hr. unfold Scene.visibleVariants in Hr.
    apply list_elem_of_filter in Hr as [Hv Hr].
    by apply elem_of_elements, elem_of_map_img in Hr. }
  destruct (Scene.visibleVariants s) as [|r l] eqn:E; [by left|right].
  destruct (Hin r) as [[k Hk] Hv]; [left|].
  pose proof (Hs k r Hk Hv) as Hc.
  exists r. split; [done|]. rewrite <- E. apply visibleVariants_singleton.
  split; [eauto|]. split; [done|].
  intros k' r' Hk' Hv'. specialize (Hs k' r' Hk' Hv'). congruence.
Qed.

End LoaderRun.

(** X14: in the second part of [script.js], when the sitting bear is the
    first asset to arrive and arrives once, then at any later time,
    whatever else has loaded and whatever the user has clicked, every
    registered model reference is valid and at most one registered variant
    is shown; if one is shown it is the current bear. *)
Theorem at_most_the_current_bear_is_shown (g : GLTF.Gltf) (es : list Loader.Event) :
  forallb (λ e, negb (isSittingLoad e)) es = true ->
  registryValid
    (App.sceneManager (Loader.run (Loader.Loaded Loader.sitting g :: es) App.new)) ∧
  (Scene.visibleVariants
     (App.sceneManager (Loader.run (Loader.Loaded Loader.sitting g :: es) App.new)) = [] ∨
   ∃ b, Scene.currentBear
          (App.sceneManager (Loader.run (Loader.Loaded Loader.sitting g :: es) App.new))
        = Some b ∧
        Scene.visibleVariants
          (App.sceneManager (Loader.run (Loader.Loaded Loader.sitting g :: es) App.new))
        = [b]).
Proof.
  intros Hes.
  change (Loader.run (Loader.Loaded Loader.sitting g :: es) App.new)
    with (Loader.run es (Loader.onLoad Loader.sitting g App.new)).
  destruct (run_shown es _ Hes (sitting_first_shown g)) as [(V1 & _ & _) Hs].
  split; [exact V1|]. by apply onlyCurrentShown_variants.
Qed.

Lemma at_most_the_current_bear_is_shown_witness :
  let s := App.sceneManager
             (Loader.run [Loader.Loaded Loader.sitting Sample.bear;
                          Loader.Loaded Loader.standing Sample.bear;
                          Loader.UI (FormClick "standing");
                          Loader.Loaded Loader.hat Sample.topHat;
                          Loader.UI (AccessoryChange "hat" true)] App.new) in
  Scene.visibleVariants s = [1] ∧
  (Scene.visibleVariants s = [] ∨
   ∃ b, Scene.currentBear s = Some b ∧ Scene.visibleVariants s = [b]).
Proof.
  cbv zeta. split; [vm_compute; reflexivity|].
  refine (proj2 (at_most_the_current_bear_is_shown Sample.bear _ _)).
  vm_compute. reflexivity.
Defined.

(** ** The bear that arrives shows the current selection *)

Section Arrival.

Import Skins.

Implicit Types (w : World) (g : GLTF.Gltf).

(** The bear as [loadBear()] has it before the defaults are applied. *)
Lemma installed_ownsClones g (h : Materials) :
  cleanGltf g = true ->
  ownsClones (GLTF.relocate (length h) <$> nodes (GLTF.scene g), h ++ GLTF.fileMaterials g).
Proof.
  intros Hg. apply andb_true_iff in Hg as [Hrefs Hclean].
  assert (Hclean' : ∀ m, m ∈ GLTF.fileMaterials g -> flagged m = false).
  { intros m Hm. rewrite forallb_forall in Hclean.
    apply list_elem_of_In in Hm. specialize (Hclean _ Hm).
    by apply negb_true_iff in Hclean. }
  assert (Hnode : ∀ i nm r cnt,
    (GLTF.relocate (length h) <$> nodes (GLTF.scene g)) !! i = Some (Mesh nm r cnt) ->
    ∃ r0, r = length h + r0 ∧ r0 < length (GLTF.fileMaterials g)).
  { intros i nm r cnt Hi. rewrite list_lookup_fmap in Hi.
    destruct (nodes (GLTF.scene g) !! i) as [[nm0|nm0 r0 cnt0]|] eqn:Hn; [done| |done].
    cbn in Hi. injection Hi as <- <- <-. exists r0. split; [done|].
    eapply meshRefsBelow_spec; [exact Hrefs|].
    eapply list_elem_of_lookup_2; eauto. }
  split.
  - intros i nm r cnt Hi. cbn [fst snd] in *.
    destruct (Hnode _ _ _ _ Hi) as (r0 & -> & Hr0). rewrite length_app. lia.
  - intros i j nm r cnt nm' cnt' m Hij Hi Hj Hm. cbn [fst snd] in *.
    destruct (Hnode _ _ _ _ Hi) as (r0 & -> & Hr0).
    rewrite lookup_app_r in Hm by lia.
    replace (length h + r0 - length h) with r0 in Hm by lia.
    eapply Hclean', list_elem_of_lookup_2; eauto.
Qed.

Lemma set_skin_same (st : State) : set_skin (skin st) st = st.
Proof. by destruct st. Qed.

Lemma set_eyeColor_same (st : State) : set_eyeColor (eyeColor st) st = st.
Proof. by destruct st. Qed.

Lemma set_noseColor_same (st : State) : set_noseColor (noseColor st) st = st.
Proof. by destruct st. Qed.

(** Applying the selection that is already recorded changes no record. *)
Lemma updateBearSkin_current_state w :
  state (updateBearSkin (skin (state w)) w) = state w.
Proof.
  destruct (updateBearSkin_state_cases (skin (state w)) w) as [-> | ->]; [done|].
  apply set_skin_same.
Qed.

Lemma updatePartColor_eyes_current_state w :
  state (updatePartColor "eyes" (eyeColor (state w)) w) = state w.
Proof.
  destruct (updatePartColor_state_cases "eyes" (eyeColor (state w)) w)
    as [->|[[_ ->]|[? _]]]; [done|apply set_eyeColor_same|done].
Qed.

Lemma updatePartColor_nose_current_state w :
  state (updatePartColor "nose" (noseColor (state w)) w) = state w.
Proof.
  destruct (updatePartColor_state_cases "nose" (noseColor (state w)) w)
    as [->|[[? _]|[_ ->]]]; [done|done|apply set_noseColor_same].
Qed.

Lemma checkAllLoaded_state w : state (checkAllLoaded w).2 = state w.
Proof. unfold checkAllLoaded. cbn [snd]. by destruct (allLoaded _). Qed.

Lemma onBearLoaded_state g w : state (onBearLoaded g w) = state w.
Proof.
  unfold onBearLoaded. cbv zeta. rewrite checkAllLoaded_state.
  change (state (set_loadingStatus ?l ?x)) with (state x).
  by rewrite updatePartColor_nose_current_state, updatePartColor_eyes_current_state,
    updateBearSkin_current_state.
Qed.

(** An eye found by the search is not the nose it found. *)
Lemma found_eye_not_nose g w j :
  bearParts w = mkParts None None None ->
  isEye (bearParts (onBearLoaded g w)) j = true ->
  isNose (bearParts (onBearLoaded g w)) j = false.
Proof.
  intros Hw He. rewrite onBearLoaded_bearParts, Hw in *.
  set (ns := nodes (GLTF.install (length (materials w)) g)) in *.
  destruct (findPart_fold ns ns [] (eq_sym (app_nil_r ns))) as (Heye & Hnose & _).
  apply Heye in He as (_ & nm & r & cnt & Hj & Hen).
  unfold isNose. apply bool_decide_eq_false. intros Hn.
  apply Hnose in Hn as (_ & (nm' & r' & cnt' & Hj' & Hnn) & _).
  rewrite Hj in Hj'. simplify_eq. unfold eyeName in Hen. by rewrite Hnn in Hen.
Qed.

Lemma arriving_bear_look g w tex j nm r cnt m :
  cleanGltf g = true ->
  bearParts w = mkParts None None None ->
  textures !! skin (state w) = Some tex ->
  nodes (GLTF.scene g) !! j = Some (Mesh nm r cnt) ->
  GLTF.fileMaterials g !! r = Some m ->
  ∃ m', surface (onBearLoaded g w) j = Some m' ∧
        if isEye (bearParts (onBearLoaded g w)) j
        then Material.color m' = eyeColor (state w)
        else if isNose (bearParts (onBearLoaded g w)) j
             then Material.color m' = noseColor (state w)
             else Material.map m' = Some (skin (state w)).
Proof.
  intros Hg Hw Htex Hj Hr.
  pose proof (found_eye_not_nose g w j Hw) as Hexcl.
  rewrite onBearLoaded_bearParts in *.
  rewrite Skins_surface_shown. unfold onBearLoaded. cbv zeta.
  rewrite checkAllLoaded_bearScene, bearScene_loadingStatus.
  set (b := GLTF.install (length (materials w)) g) in *.
  set (parts := foldl (findPart (nodes b)) (bearParts w) (imap pair (nodes b))) in *.
  set (w1 := mkWorld (materials w ++ GLTF.fileMaterials g) (Some b) parts
               (accessories w) (state w) (loadingStatus w) (dom w)).
  assert (Hown1 : ownsClones (bearScene w1)) by (by apply installed_ownsClones).
  assert (Hj1 : surface w1 j = Some m).
  { unfold surface, bearNodes, w1, b, GLTF.install. cbn [bear materials nodes set_nodes].
    rewrite (lookup_relocate _ _ _ _ _ _ Hj). cbn.
    rewrite lookup_app_r by lia.
    by replace (length (materials w) + r - length (materials w)) with r by lia. }
  set (w2 := updateBearSkin (skin (state w1)) w1).
  assert (Hp2 : bearParts w2 = parts) by (unfold w2; by rewrite updateBearSkin_bearParts).
  assert (Hs2 : state w2 = state w) by (unfold w2; by rewrite updateBearSkin_current_state).
  assert (Hown2 : ownsClones (bearScene w2)) by (by apply updateBearSkin_ownsClones).
  set (w3 := updatePartColor "eyes" (eyeColor (state w2)) w2).
  assert (Hp3 : bearParts w3 = parts) by (unfold w3; by rewrite updatePartColor_bearParts).
  assert (Hs3 : state w3 = state w)
    by (unfold w3; by rewrite updatePartColor_eyes_current_state).
  assert (Hown3 : ownsClones (bearScene w3)) by (by apply updatePartColor_ownsClones).
  rewrite <- !Skins_surface_shown.
  destruct (isEye parts j) eqn:He.
  - (* an eye: kept by the skin, painted by the eye colour, kept by the nose colour *)
    assert (H2 : surface w2 j = Some m).
    { unfold w2. rewrite Skins_updateBearSkin_exempt; [done|done|].
      change (bearParts w1) with parts. by rewrite He. }
    assert (Hes : ∃ e es, eyes (bearParts w2) = Some (e :: es) ∧ j ∈ e :: es).
    { rewrite Hp2. unfold isEye in He.
      destruct (eyes parts) as [[|e es]|]; [|  |done].
      - apply bool_decide_eq_true in He. by apply elem_of_nil in He.
      - apply bool_decide_eq_true in He. eauto. }
    destruct Hes as (e & es & Hes & Hin).
    destruct (colorMesh_paints UserData.isEyeCloned UserData.set_isEyeCloned
                (eyeColor (state w2)) (e :: es) (bearScene w2) j m Hin H2)
      as (m3 & H3 & Hc3 & _).
    rewrite <- (proj1 (updatePartColor_eyes_known (eyeColor (state w2)) w2 e es Hes)) in H3.
    fold w3 in H3. rewrite <- Skins_surface_shown in H3.
    exists m3. split; [|by rewrite Hc3, Hs2].
    rewrite Skins_updatePartColor_nose_exempt; [done|done|].
    rewrite Hp3. by apply Hexcl.
  - assert (H3 : surface w3 j = surface w2 j).
    { unfold w3. apply Skins_updatePartColor_eyes_exempt; [done|]. by rewrite Hp2. }
    destruct (isNose parts j) eqn:Hn.
    + (* the nose: kept by the skin and the eye colour, painted by the nose colour *)
      assert (H2 : surface w2 j = Some m).
      { unfold w2. rewrite Skins_updateBearSkin_exempt; [done|done|].
        change (bearParts w1) with parts. by rewrite Hn, orb_true_r. }
      rewrite H2 in H3.
      assert (Hnp : nose (bearParts w3) = Some j)
        by (rewrite Hp3; unfold isNose in Hn; by apply bool_decide_eq_true in Hn).
      destruct (colorMesh_paints UserData.isNoseCloned UserData.set_isNoseCloned
                  (noseColor (state w3)) [j] (bearScene w3) j m) as (m4 & H4 & Hc4 & _);
        [left|done|].
      cbn [foldl] in H4.
      rewrite <- (proj1 (updatePartColor_nose_known (noseColor (state w3)) w3 j Hnp)) in H4.
      exists m4. split; [exact H4|by rewrite Hc4, Hs3].
    + (* another mesh: textured by the skin, kept by both colours *)
      destruct (updateBearSkin_paints (skin (state w1)) tex w1 j m Htex Hj1)
        as (m2 & H2 & Hmap & _).
      { change (bearParts w1) with parts. by rewrite He, Hn. }
      fold w2 in H2. exists m2. split; [|exact Hmap].
      rewrite Skins_updatePartColor_nose_exempt; [by rewrite H3|done|by rewrite Hp3].
Qed.

End Arrival.

(** X15: when the bear arrives (first load, from a file whose meshes
    refer to the file's own materials, none with a clone mark) while
    [state.skin] names a texture of the table, then every mesh of it that
    has a material shows the current selection: the eyes [state.eyeColor],
    the nose [state.noseColor], every other mesh the texture of
    [state.skin]; and [state] is as it was. *)
Theorem arriving_bear_shows_current_selection
    (g : GLTF.Gltf) (w : Skins.World) (tex : string)
    (j : nat) (nm : string) (r cnt : nat) (m : Material.t) :
  cleanGltf g = true ->
  Skins.bearParts w = Skins.mkParts None None None ->
  Skins.textures !! Skins.skin (Skins.state w) = Some tex ->
  nodes (GLTF.scene g) !! j = Some (Mesh nm r cnt) ->
  GLTF.fileMaterials g !! r = Some m ->
  (∃ m', Skins.surface (Skins.onBearLoaded g w) j = Some m' ∧
         if Skins.isEye (Skins.bearParts (Skins.onBearLoaded g w)) j
         then Material.color m' = Skins.eyeColor (Skins.state w)
         else if Skins.isNose (Skins.bearParts (Skins.onBearLoaded g w)) j
              then Material.color m' = Skins.noseColor (Skins.state w)
              else Material.map m' = Some (Skins.skin (Skins.state w))) ∧
  Skins.state (Skins.onBearLoaded g w) = Skins.state w.
Proof.
  intros Hg Hw Htex Hj Hr. split; [by eapply arriving_bear_look|apply onBearLoaded_state].
Qed.

Lemma arriving_bear_shows_current_selection_witness :
  let w := Skins.run [Skins.Timeout; Skins.SkinClick "panda";
                      Skins.PartClick "eyes" 0x4169E1%Z] (Skins.init Sample.page) in
  Skins.skin (Skins.state w) = "brown" ∧
  ∃ m', Skins.surface (Skins.onBearLoaded Sample.bear w) 1 = Some m' ∧
        Material.map m' = Some "brown".
Proof.
  cbv zeta. split; [vm_compute; reflexivity|].
  refine (proj1 (arriving_bear_shows_current_selection Sample.bear _
                   "textures/bear_brown.png" 1 "Body" 0 1200 Sample.fur _ _ _ _ _));
    vm_compute; reflexivity.
Defined.

(** ** The recorded skin is a skin of the table *)

Section KnownSkin.

Import Skins.

Implicit Types (w : World).





End KnownSkin.


(** ** Recolouring by mesh name, first part of [script.js] *)

Section DraftRecolor.

Implicit Types (s : Scene.t) (ns : list Node) (h : Materials).

Section ByName.

(** A callback that writes the colour [c] to the material of every mesh
    whose name satisfies [sel]. *)
Variables (sel : string -> bool) (c : Z) (f : Node -> Materials -> Node * Materials).

Hypothesis f_eq : ∀ child h,
  f child h =
  match child with
  | Mesh nm r _ => if sel nm then (child, alter (Material.set_color c) r h) else (child, h)
  | Group _ => (child, h)
  end.

Lemma byName_nodes k ns h : (traverseFrom k (λ _, f) ns h).1 = ns.
Proof.
  revert k h. induction ns as [|n ns IH]; intros k h; cbn [traverseFrom]; [done|].
  rewrite f_eq. destruct n as [nm|nm r cnt].
  - specialize (IH (S k) h). destruct (traverseFrom (S k) _ ns h). cbn in *. by rewrite IH.
  - destruct (sel nm).
    + specialize (IH (S k) (alter (Material.set_color c) r h)).
      destruct (traverseFrom (S k) _ ns _). cbn in *. by rewrite IH.
    + specialize (IH (S k) h). destruct (traverseFrom (S k) _ ns h). cbn in *. by rewrite IH.
Qed.

Lemma set_color_twice (x : option Material.t) :
  Material.set_color c <$> (Material.set_color c <$> x) = Material.set_color c <$> x.
Proof. by destruct x. Qed.

Lemma byName_store k ns h r :
  (traverseFrom k (λ _, f) ns h).2 !! r =
  if usedBy sel ns r then Material.set_color c <$> h !! r else h !! r.
Proof.
  revert k h. induction ns as [|n ns IH]; intros k h; cbn [traverseFrom]; [done|].
  rewrite f_eq. unfold usedBy in *. cbn [existsb]. destruct n as [nm|nm r' cnt].
  - specialize (IH (S k) h). destruct (traverseFrom (S k) _ ns h). exact IH.
  - destruct (sel nm); cbn [andb orb].
    + specialize (IH (S k) (alter (Material.set_color c) r' h)).
      destruct (traverseFrom (S k) _ ns _). cbn [snd] in *. rewrite IH.
      rewrite list_lookup_alter. destruct (r' =? r)%nat eqn:E.
      * apply Nat.eqb_eq in E as ->. rewrite decide_True by done. cbn [orb].
        destruct (existsb _ ns); by rewrite ?set_color_twice.
      * apply Nat.eqb_neq in E. by rewrite decide_False.
    + specialize (IH (S k) h). destruct (traverseFrom (S k) _ ns h). exact IH.
Qed.

Lemma byName_traverseCurrent b s o r :
  Scene.objects s !! b = Some o ->
  Scene.materials (Scene.traverseCurrent f b s) !! r =
    (if usedBy sel (nodes o) r then Material.set_color c <$> Scene.materials s !! r
     else Scene.materials s !! r) ∧
  Scene.objects (Scene.traverseCurrent f b s) = Scene.objects s.
Proof.
  intros Ho. unfold Scene.traverseCurrent, traverse. rewrite Ho.
  pose proof (byName_nodes 0 (nodes o) (Scene.materials s)) as Hn.
  pose proof (byName_store 0 (nodes o) (Scene.materials s) r) as Hs.
  destruct (traverseFrom 0 _ (nodes o) (Scene.materials s)) as [ns h'].
  cbn [fst snd Scene.materials Scene.objects Scene.set_materials Scene.set_objects] in *.
  split; [exact Hs|]. subst ns. rewrite set_nodes_id. by apply list_insert_id.
Qed.

End ByName.

Lemma Draft_furCallback_eq c child h :
  Draft.furCallback c child h =
  match child with
  | Mesh nm r _ =>
      if JS.includes nm "Body" then (child, alter (Material.set_color c) r h) else (child, h)
  | Group _ => (child, h)
  end.
Proof. reflexivity. Qed.

Lemma Draft_eyeCallback_eq c child h :
  Draft.eyeCallback c child h =
  match child with
  | Mesh nm r _ =>
      if JS.includes nm "Eye" then (child, alter (Material.set_color c) r h) else (child, h)
  | Group _ => (child, h)
  end.
Proof. reflexivity. Qed.

End DraftRecolor.

(** X17: in the first part of [script.js], [updateFurColor] leaves the
    models as they are and writes the colour to exactly the materials that
    some mesh of the current bear with "Body" in its name refers to; every
    other material is untouched.  [updateEyeColor] does the same with
    "Eye".  (So a material shared with a mesh of another name is written
    too.) *)
Theorem Draft_recolor_writes_materials_of_named_meshes
    (s : Scene.t) (b : nat) (o : Object3D) (furName eyeName : string) (r : nat) :
  Scene.currentBear s = Some b ->
  Scene.objects s !! b = Some o ->
  (Scene.materials (Draft.updateFurColor furName s) !! r =
     (if usedBy (λ nm, JS.includes nm "Body") (nodes o) r
      then Material.set_color (Color (Config.colors_fur !! furName)) <$> Scene.materials s !! r
      else Scene.materials s !! r) ∧
   Scene.objects (Draft.updateFurColor furName s) = Scene.objects s) ∧
  (Scene.materials (Draft.updateEyeColor eyeName s) !! r =
     (if usedBy (λ nm, JS.includes nm "Eye") (nodes o) r
      then Material.set_color (Color (Config.colors_eyes !! eyeName)) <$> Scene.materials s !! r
      else Scene.materials s !! r) ∧
   Scene.objects (Draft.updateEyeColor eyeName s) = Scene.objects s).
Proof.
  intros Hb Ho. unfold Draft.updateFurColor, Draft.updateEyeColor. rewrite Hb. cbv zeta.
  split.
  - apply (byName_traverseCurrent (λ nm, JS.includes nm "Body") _ _
             (Draft_furCallback_eq _) b s o r Ho).
  - apply (byName_traverseCurrent (λ nm, JS.includes nm "Eye") _ _
             (Draft_eyeCallback_eq _) b s o r Ho).
Qed.

Lemma Draft_recolor_writes_materials_of_named_meshes_witness :
  Scene.materials (Draft.updateFurColor "pink" Sample.draftBear) !! 0
    = Some (Material.mk "Fur" 0xFFB6C1%Z None UserData.empty) ∧
  Scene.materials (Draft.updateFurColor "pink" Sample.draftBear) !! 1
    = Some Sample.eyeBlack.
Proof.
  assert (Hb : Scene.currentBear Sample.draftBear = Some 0) by reflexivity.
  assert (Ho : Scene.objects Sample.draftBear !! 0
               = Some (set_visible true (GLTF.scene Sample.bear))) by reflexivity.
  split.
  - rewrite (proj1 (proj1 (Draft_recolor_writes_materials_of_named_meshes
                             Sample.draftBear 0 _ "pink" "blue" 0 Hb Ho))).
    vm_compute. reflexivity.
  - rewrite (proj1 (proj1 (Draft_recolor_writes_materials_of_named_meshes
                             Sample.draftBear 0 _ "pink" "blue" 1 Hb Ho))).
    vm_compute. reflexivity.
Defined.

(** ** The sitting bear arrives, second part of [script.js] *)

Section SittingArrives.

Implicit Types (s : Scene.t) (a : App.t) (g : GLTF.Gltf).

(** The scene when the sitting bear has been registered and shown, before
    the colours are applied. *)
Lemma sitting_installed g s j nm r cnt m :
  nodes (GLTF.scene g) !! j = Some (Mesh nm r cnt) ->
  GLTF.fileMaterials g !! r = Some m ->
  let n := length (Scene.objects s) in
  let s2 := Scene.setVisible n true
              (Scene.set_currentBear (Some n)
                 (Loader.registerBear "sitting" n (Loader.loadModel g s).2)) in
  Scene.currentBear s2 = Some n ∧ Scene.bearModels s2 !! "sitting" = Some n ∧
  Scene.isVisible s2 n = true ∧ Scene.surface s2 n j = Some m.
Proof.
  intros Hj Hr. cbv zeta.
  unfold Loader.registerBear, Scene.setVisible, Loader.loadModel.
  cbn [snd Scene.objects Scene.set_objects Scene.set_bearModels Scene.set_currentBear
       Scene.bearModels Scene.accessories Scene.currentBear Scene.materials].
  split; [done|]. split; [by rewrite lookup_insert_eq|]. split.
  - rewrite isVisible_shownIn.
    cbn [Scene.objects Scene.set_objects Scene.set_bearModels Scene.set_currentBear].
    rewrite shownIn_alter_visible, decide_True by done.
    rewrite decide_True; [done|]. rewrite length_app. cbn. lia.
  - unfold Scene.surface.
    cbn [Scene.objects Scene.materials Scene.set_objects Scene.set_bearModels
         Scene.set_currentBear].
    rewrite list_lookup_alter_eq, lookup_app_r, Nat.sub_diag by done. cbn.
    rewrite (lookup_relocate _ _ _ _ _ _ Hj). cbn.
    rewrite lookup_app_r by lia.
    by replace (length (Scene.materials s) + r - length (Scene.materials s)) with r by lia.
Qed.

End SittingArrives.

(** X18: in the second part of [script.js], when the sitting bear
    arrives it is registered, made the current bear and shown, and every
    mesh of it that has a material shows the colours chosen so far: the
    eye colour of [bearState] on the "EyeBlack" material, its fur colour
    on every other. *)
Theorem arriving_sitting_bear_shows_chosen_colors
    (g : GLTF.Gltf) (a : App.t) (j : nat) (nm : string) (r cnt : nat) (m : Material.t) :
  nodes (GLTF.scene g) !! j = Some (Mesh nm r cnt) ->
  GLTF.fileMaterials g !! r = Some m ->
  Scene.currentBear (App.sceneManager (Loader.onLoad Loader.sitting g a))
    = Some (length (Scene.objects (App.sceneManager a))) ∧
  Scene.bearModels (App.sceneManager (Loader.onLoad Loader.sitting g a)) !! "sitting"
    = Some (length (Scene.objects (App.sceneManager a))) ∧
  Scene.isVisible (App.sceneManager (Loader.onLoad Loader.sitting g a))
    (length (Scene.objects (App.sceneManager a))) = true ∧
  Scene.surfaceColor (App.sceneManager (Loader.onLoad Loader.sitting g a))
    (length (Scene.objects (App.sceneManager a))) j =
    Some (if String.eqb (Material.name m) "EyeBlack"
          then Color (Config.colors_eyes !! BearState.eyeColor (App.bearState a))
          else Color (Config.colors_fur !! BearState.furColor (App.bearState a))).
Proof.
  intros Hj Hr. rewrite onLoad_scene. cbv zeta.
  destruct (sitting_installed g (App.sceneManager a) j nm r cnt m Hj Hr)
    as (Hb2 & Hreg2 & Hv2 & Hj2).
  set (n := length (Scene.objects (App.sceneManager a))) in *.
  set (s2 := Scene.setVisible n true _) in *.
  set (s3 := Forms.updateFurColor (BearState.furColor (App.bearState a)) s2).
  destruct (Forms_updateFurColor_frame (BearState.furColor (App.bearState a)) s2)
    as (Hc3 & _ & Hbm3).
  fold s3 in Hc3, Hbm3.
  destruct (Forms_updateEyeColor_frame (BearState.eyeColor (App.bearState a)) s3)
    as (Hc4 & _ & Hbm4).
  assert (Hb3 : Scene.currentBear s3 = Some n) by congruence.
  split; [congruence|]. split; [congruence|]. split.
  - unfold Forms.updateEyeColor. rewrite Hb3.
    rewrite (proj2 (traverseCurrent_objects _ _ _)).
    unfold s3, Forms.updateFurColor. rewrite Hb2.
    by rewrite (proj2 (traverseCurrent_objects _ _ _)).
  - unfold Scene.surfaceColor.
    destruct (String.eqb (Material.name m) "EyeBlack") eqn:E.
    + apply String.eqb_eq in E.
      assert (Hj3 : Scene.surface s3 n j = Some m)
        by (by apply Forms_updateFurColor_exempt).
      destruct (Forms_updateEyeColor_paints (BearState.eyeColor (App.bearState a))
                  s3 n j m Hb3 Hj3 E) as (m' & -> & _ & Hc). cbn. by rewrite Hc.
    + apply String.eqb_neq in E.
      destruct (Forms_updateFurColor_paints (BearState.furColor (App.bearState a))
                  s2 n j m Hb2 Hj2 E) as (m' & Hj3 & Hn & Hc).
      fold s3 in Hj3.
      rewrite (Forms_updateEyeColor_exempt _ s3 n j m' Hb3 Hj3) by congruence.
      cbn. by rewrite Hc.
Qed.

Lemma arriving_sitting_bear_shows_chosen_colors_witness :
  let a := Loader.run [Loader.UI (ColorClick "pink")] App.new in
  Scene.surfaceColor (App.sceneManager (Loader.onLoad Loader.sitting Sample.bear a)) 0 1
    = Some 0xFFB6C1%Z.
Proof.
  cbv zeta.
  refine (proj2 (proj2 (proj2 (arriving_sitting_bear_shows_chosen_colors Sample.bear _
            1 "Body" 0 1200 Sample.fur _ _)))); reflexivity.
Defined.

(** ** [resetAll()] of the textured bear restores the default look *)

Section SkinsReset.

Import Skins.

Implicit Types (w : World).

Lemma updateAccessoryColor_bear name c w : bear (updateAccessoryColor name c w) = bear w.
Proof. by rewrite updateAccessoryColor_eq. Qed.

Lemma updateHat_bear v w : bear (updateHat v w) = bear w.
Proof.
  unfold updateHat. cbv zeta.
  change (bear (updateAccessoryColorSection ?x)) with (bear x).
  change (bear (set_state ?st ?x)) with (bear x).
  destruct (negb (String.eqb v "none") && _); [|done].
  by rewrite updateAccessoryColor_bear.
Qed.

Lemma toggleScarf_bear v w : bear (toggleScarf v w) = bear w.
Proof.
  unfold toggleScarf. cbv zeta.
  change (bear (updateAccessoryColorSection ?x)) with (bear x).
  change (bear (set_state ?st ?x)) with (bear x).
  destruct (accessories w !! "scarf"); [|done].
  destruct v; [|done]. by rewrite updateAccessoryColor_bear.
Qed.

(** With no hat selected and the scarf off, a change of the accessory
    colour writes to no material. *)
Lemma updateCurrentAccessoryColor_idle c w :
  currentHat (state w) = "none" -> scarfVisible (state w) = false ->
  materials (updateCurrentAccessoryColor c w) = materials w ∧
  bear (updateCurrentAccessoryColor c w) = bear w.
Proof.
  intros Hh Hs. unfold updateCurrentAccessoryColor. cbv zeta.
  cbn [state set_state currentHat scarfVisible set_currentAccessoryColor].
  rewrite Hh. change (negb (String.eqb "none" "none")) with false. cbv iota.
  cbn [state set_state currentHat scarfVisible set_currentAccessoryColor].
  by rewrite Hs.
Qed.

(** The accessory part of [resetAll()] leaves the bear alone. *)
Lemma resetAll_bearScene w :
  bearScene (resetAll w) =
  bearScene (updatePartColor "nose" (noseColor defaults)
               (updatePartColor "eyes" (eyeColor defaults)
                  (updateBearSkin (skin defaults) (resetState w)))).
Proof.
  unfold resetAll. cbv zeta. rewrite bearScene_section.
  set (w3 := updatePartColor "nose" _ _).
  set (w5 := toggleScarf false (updateHat "none" w3)).
  assert (Hh : currentHat (state w5) = "none")
    by (unfold w5; by rewrite toggleScarf_state, updateHat_state).
  assert (Hs : scarfVisible (state w5) = false)
    by (unfold w5; by rewrite toggleScarf_state).
  destruct (updateCurrentAccessoryColor_idle (currentAccessoryColor defaults) w5 Hh Hs)
    as [Hm Hb].
  unfold bearScene, bearNodes. rewrite Hm, Hb. unfold w5.
  by rewrite toggleScarf_false_materials, updateHat_none_materials, toggleScarf_bear,
    updateHat_bear.
Qed.

Lemma skin_step s tex w j m :
  textures !! s = Some tex -> ownsClones (bearScene w) -> surface w j = Some m ->
  ∃ m', surface (updateBearSkin s w) j = Some m' ∧
        (isEye (bearParts w) j || isNose (bearParts w) j = false -> Material.map m' = Some s) ∧
        (isEye (bearParts w) j || isNose (bearParts w) j = true -> m' = m).
Proof.
  intros Htex Hown Hj. destruct (isEye (bearParts w) j || isNose (bearParts w) j) eqn:E.
  - exists m. rewrite Skins_updateBearSkin_exempt by done. done.
  - destruct (updateBearSkin_paints s tex w j m Htex Hj E) as (m' & H' & Hmap & _).
    exists m'. done.
Qed.

Lemma eyes_step c w j m :
  ownsClones (bearScene w) -> surface w j = Some m ->
  ∃ m', surface (updatePartColor "eyes" c w) j = Some m' ∧
        (isEye (bearParts w) j = true -> Material.color m' = c) ∧
        (isEye (bearParts w) j = false -> m' = m).
Proof.
  intros Hown Hj. destruct (isEye (bearParts w) j) eqn:E.
  - unfold isEye in E.
    destruct (eyes (bearParts w)) as [[|e es]|] eqn:Hes; [|  |done].
    { apply bool_decide_eq_true in E. by apply elem_of_nil in E. }
    apply bool_decide_eq_true in E.
    destruct (colorMesh_paints UserData.isEyeCloned UserData.set_isEyeCloned c
                (e :: es) (bearScene w) j m E Hj) as (m' & H' & Hc & _).
    rewrite <- (proj1 (updatePartColor_eyes_known c w e es Hes)) in H'.
    exists m'. done.
  - exists m. rewrite Skins_updatePartColor_eyes_exempt by done. done.
Qed.

Lemma nose_step c w j m :
  ownsClones (bearScene w) -> surface w j = Some m ->
  ∃ m', surface (updatePartColor "nose" c w) j = Some m' ∧
        (isNose (bearParts w) j = true -> Material.color m' = c) ∧
        (isNose (bearParts w) j = false -> m' = m).
Proof.
  intros Hown Hj. destruct (isNose (bearParts w) j) eqn:E.
  - unfold isNose in E. apply bool_decide_eq_true in E.
    destruct (colorMesh_paints UserData.isNoseCloned UserData.set_isNoseCloned c
                [j] (bearScene w) j m) as (m' & H' & Hc & _); [left|done|].
    cbn [foldl] in H'.
    rewrite <- (proj1 (updatePartColor_nose_known c w j E)) in H'.
    exists m'. done.
  - exists m. rewrite Skins_updatePartColor_nose_exempt by done. done.
Qed.

End SkinsReset.

(** X19: when no marked material of the bear is shared, after [resetAll()]
    of the textured program every eye and nose mesh of the bear is black
    (0x000000) and every other mesh shows the "brown" texture, whatever
    they showed before. *)
Theorem Skins_resetAll_restores_default_look (w : Skins.World) (j : nat) (m : Material.t) :
  ownsClones (bearScene w) ->
  Skins.surface w j = Some m ->
  ∃ m', Skins.surface (Skins.resetAll w) j = Some m' ∧
        if Skins.isEye (Skins.bearParts w) j || Skins.isNose (Skins.bearParts w) j
        then Material.color m' = 0x000000%Z
        else Material.map m' = Some "brown".
Proof.
  intros Hown Hj. rewrite Skins_surface_shown, resetAll_bearScene.
  rewrite <- Skins_surface_shown.
  set (w0 := Skins.resetState w).
  assert (Hown0 : ownsClones (bearScene w0)) by done.
  assert (Hj0 : Skins.surface w0 j = Some m) by done.
  destruct (skin_step (Skins.skin Skins.defaults) "textures/bear_brown.png" w0 j m
              eq_refl Hown0 Hj0) as (m1 & Hj1 & Hs1 & Hs1').
  set (w1 := Skins.updateBearSkin (Skins.skin Skins.defaults) w0) in *.
  assert (Hown1 : ownsClones (bearScene w1)) by (by apply updateBearSkin_ownsClones).
  assert (Hp1 : Skins.bearParts w1 = Skins.bearParts w)
    by (unfold w1; by rewrite updateBearSkin_bearParts).
  destruct (eyes_step (Skins.eyeColor Skins.defaults) w1 j m1 Hown1 Hj1)
    as (m2 & Hj2 & He2 & He2').
  set (w2 := Skins.updatePartColor "eyes" (Skins.eyeColor Skins.defaults) w1) in *.
  assert (Hown2 : ownsClones (bearScene w2)) by (by apply updatePartColor_ownsClones).
  assert (Hp2 : Skins.bearParts w2 = Skins.bearParts w)
    by (unfold w2; by rewrite updatePartColor_bearParts).
  destruct (nose_step (Skins.noseColor Skins.defaults) w2 j m2 Hown2 Hj2)
    as (m3 & Hj3 & Hn3 & Hn3').
  rewrite Hp1 in He2, He2'. rewrite Hp2 in Hn3, Hn3'.
  change (Skins.bearParts w0) with (Skins.bearParts w) in Hs1, Hs1'.
  exists m3. split; [exact Hj3|].
  destruct (Skins.isEye (Skins.bearParts w) j) eqn:He,
           (Skins.isNose (Skins.bearParts w) j) eqn:Hn; cbn [orb].
  - by apply Hn3.
  - rewrite (Hn3' eq_refl). by apply He2.
  - by apply Hn3.
  - rewrite (Hn3' eq_refl), (He2' eq_refl). by apply Hs1.
Qed.

Lemma Skins_resetAll_restores_default_look_witness :
  let w := Skins.run [Skins.BearLoaded Sample.bear; Skins.Timeout;
                      Skins.SkinClick "panda"; Skins.PartClick "eyes" 0x4169E1%Z]
                     (Skins.init Sample.page) in
  (Material.map <$> Skins.surface w 1 = Some (Some "panda") ∧
   Material.color <$> Skins.surface w 3 = Some 0x4169E1%Z) ∧
  (∃ m', Skins.surface (Skins.resetAll w) 1 = Some m' ∧ Material.map m' = Some "brown") ∧
  (∃ m', Skins.surface (Skins.resetAll w) 3 = Some m' ∧ Material.color m' = 0x000000%Z).
Proof.
  cbv zeta. split; [split; vm_compute; reflexivity|].
  assert (Hown : ownsClones (bearScene
            (Skins.run [Skins.BearLoaded Sample.bear; Skins.Timeout;
                        Skins.SkinClick "panda"; Skins.PartClick "eyes" 0x4169E1%Z]
                       (Skins.init Sample.page))))
    by (apply reachable_ownsClones; vm_compute; reflexivity).
  split.
  - refine (Skins_resetAll_restores_default_look _ 1
              (Material.mk "Fur" 0xFFFFFF%Z (Some "panda") (UserData.mk true false false))
              Hown _).
    vm_compute. reflexivity.
  - refine (Skins_resetAll_restores_default_look _ 3
              (Material.mk "EyeBlack" 0x4169E1%Z None (UserData.mk false true false))
              Hown _).
    vm_compute. reflexivity.
Defined.

(** ** Bear and accessories share no material *)

Section Apart.

Import Skins.

Implicit Types (w : World) (h : Materials) (ns : list Node) (acc : list Node * Materials).

(** After a step, a mesh refers to what it referred to or to a material
    that is new. *)
Lemma touch_refs P i acc acc' j nm r cnt :
  Touch P i acc acc' -> acc'.1 !! j = Some (Mesh nm r cnt) ->
  acc.1 !! j = Some (Mesh nm r cnt) ∨ length acc.2 ≤ r.
Proof.
  intros [acc0|ns h nm0 r0 cnt0 m m' Hi Hr HP Hf Hn Hu|ns h nm0 r0 cnt0 m m' Hi Hr HP Hf Hn];
    cbn [fst snd]; [by left|by left|].
  intros Hj. destruct (decide (i = j)) as [->|Hne].
  - rewrite list_lookup_insert_eq in Hj by (by eapply lookup_lt_Some).
    injection Hj as _ <- _. by right.
  - rewrite list_lookup_insert_ne in Hj by done. by left.
Qed.

Lemma fold_touch_refs P st (idx : list nat) acc j nm r cnt :
  (∀ acc0 i, Touch P i acc0 (st acc0 i)) ->
  (foldl st acc idx).1 !! j = Some (Mesh nm r cnt) ->
  acc.1 !! j = Some (Mesh nm r cnt) ∨ length acc.2 ≤ r.
Proof.
  intros Hst. revert acc. induction idx as [|i idx IH]; intros acc; cbn [foldl]; [by left|].
  intros Hj. destruct (IH _ Hj) as [Hj'|Hlen].
  - eapply touch_refs; [apply Hst|done].
  - right. pose proof (touch_store_length _ _ _ _ (Hst acc i)). lia.
Qed.

(** The same for the two bear operations. *)
Lemma updateBearSkin_refs s w j nm r cnt :
  bearNodes (updateBearSkin s w) !! j = Some (Mesh nm r cnt) ->
  bearNodes w !! j = Some (Mesh nm r cnt) ∨ length (materials w) ≤ r.
Proof.
  change (bearNodes (updateBearSkin s w)) with (bearScene (updateBearSkin s w)).1.
  destruct (bearScene_updateBearSkin s w) as [-> | ->]; [by left|].
  apply fold_touch_refs with (P := λ _, True). apply Skins_skin_touch.
Qed.

Lemma updatePartColor_refs p c w j nm r cnt :
  bearNodes (updatePartColor p c w) !! j = Some (Mesh nm r cnt) ->
  bearNodes w !! j = Some (Mesh nm r cnt) ∨ length (materials w) ≤ r.
Proof.
  assert (Hmarks : ∀ flag setFlag,
    (flag = UserData.isEyeCloned ∧ setFlag = UserData.set_isEyeCloned) ∨
    (flag = UserData.isNoseCloned ∧ setFlag = UserData.set_isNoseCloned) ->
    ∀ acc0 i, Touch (λ _, True) i acc0 (colorMesh flag setFlag c acc0 i)).
  { intros flag setFlag Hfs acc0 i.
    apply Skins_colorMesh_touch; destruct Hfs as [[-> ->]|[-> ->]];
      intros m0; unfold flagged; destruct m0 as [? ? ? [[] [] []]]; cbn; done. }
  change (bearNodes (updatePartColor p c w)) with (bearScene (updatePartColor p c w)).1.
  unfold updatePartColor.
  destruct (String.eqb p "eyes").
  - destruct (eyes (bearParts w)) as [[|e es]|]; [by left| |by left].
    pose proof (fold_colorMesh_length UserData.isEyeCloned UserData.set_isEyeCloned c
                  (e :: es) (bearScene w)) as Hlen.
    pose proof (fold_touch_refs (λ _, True) _ (e :: es) (bearScene w) j nm r cnt
                  (Hmarks _ _ (or_introl (conj eq_refl eq_refl)))) as Hrefs.
    change (bearNodes w, materials w) with (bearScene w).
    destruct (foldl _ (bearScene w) (e :: es)) as [ns h] eqn:Hfold.
    change (bearScene (set_state ?st ?x)) with (bearScene x).
    rewrite bearScene_set_eq by done. exact Hrefs.
  - destruct (String.eqb p "nose"); [|by left].
    destruct (nose (bearParts w)) as [n|]; [|by left].
    pose proof (fold_colorMesh_length UserData.isNoseCloned UserData.set_isNoseCloned c
                  [n] (bearScene w)) as Hlen.
    pose proof (touch_refs _ _ _ _ j nm r cnt
                  (Hmarks _ _ (or_intror (conj eq_refl eq_refl)) (bearScene w) n)) as Hrefs.
    change (bearNodes w, materials w) with (bearScene w).
    cbn [foldl] in Hlen.
    destruct (colorMesh _ _ c (bearScene w) n) as [ns h] eqn:Hstep.
    change (bearScene (set_state ?st ?x)) with (bearScene x).
    rewrite bearScene_set_eq by done. exact Hrefs.
Qed.

Lemma present_below w name o nm r cnt :
  accessoriesPresent w -> accessories w !! name = Some o -> Mesh nm r cnt ∈ nodes o ->
  r < length (materials w).
Proof. intros Hp Ho Hin. eapply meshRefsBelow_spec; [by apply (Hp name o)|done]. Qed.

(** A bear operation keeps bear and accessories apart. *)
Lemma bearApart_bear_op w w' :
  accessories w' = accessories w ->
  (∀ j nm r cnt, bearNodes w' !! j = Some (Mesh nm r cnt) ->
     bearNodes w !! j = Some (Mesh nm r cnt) ∨ length (materials w) ≤ r) ->
  accessoriesPresent w -> bearApart w -> bearApart w'.
Proof.
  intros Ha Hrefs Hp Hap j nm r cnt name o nm' cnt' Hj Ho Hin. rewrite Ha in Ho.
  destruct (Hrefs j nm r cnt Hj) as [Hj'|Hlen].
  - by eapply (Hap j nm r cnt name o nm' cnt').
  - pose proof (present_below w name o nm' r cnt' Hp Ho Hin). lia.
Qed.

(** An accessory operation keeps them apart. *)
Lemma bearApart_accessory_op w w' :
  bearNodes w' = bearNodes w -> extends w w' -> bearApart w -> bearApart w'.
Proof.
  intros Hb [_ Hext] Hap j nm r cnt name o' nm' cnt' Hj Ho' Hin. rewrite Hb in Hj.
  destruct (Hext name o' Ho') as (o & Ho & Hn). rewrite Hn in Hin.
  by eapply (Hap j nm r cnt name o nm' cnt').
Qed.

Lemma updateBearSkin_apart s w :
  accessoriesPresent w -> bearApart w -> bearApart (updateBearSkin s w).
Proof.
  apply bearApart_bear_op; [apply updateBearSkin_accessories|].
  intros j nm r cnt. apply updateBearSkin_refs.
Qed.

Lemma updatePartColor_apart p c w :
  accessoriesPresent w -> bearApart w -> bearApart (updatePartColor p c w).
Proof.
  apply bearApart_bear_op; [apply updatePartColor_accessories|].
  intros j nm r cnt. apply updatePartColor_refs.
Qed.

Lemma bearNodes_bear w w' : bear w' = bear w -> bearNodes w' = bearNodes w.
Proof. unfold bearNodes. by intros ->. Qed.

Lemma updateCurrentAccessoryColor_bear c w : bear (updateCurrentAccessoryColor c w) = bear w.
Proof.
  unfold updateCurrentAccessoryColor. cbv zeta.
  set (w1 := set_state (set_currentAccessoryColor c (state w)) w).
  set (w2 := if negb (String.eqb (currentHat (state w1)) "none")
             then updateAccessoryColor (currentHat (state w1)) c w1 else w1).
  assert (H2 : bear w2 = bear w).
  { unfold w2. destruct (negb _); [|done]. by rewrite updateAccessoryColor_bear. }
  destruct (scarfVisible (state w2)); [|done].
  by rewrite updateAccessoryColor_bear.
Qed.

Lemma updateHat_apart v w : bearApart w -> bearApart (updateHat v w).
Proof.
  apply bearApart_accessory_op; [apply bearNodes_bear, updateHat_bear|apply updateHat_extends].
Qed.

Lemma toggleScarf_apart v w : bearApart w -> bearApart (toggleScarf v w).
Proof.
  apply bearApart_accessory_op;
    [apply bearNodes_bear, toggleScarf_bear|apply toggleScarf_extends].
Qed.

Lemma updateCurrentAccessoryColor_apart c w :
  bearApart w -> bearApart (updateCurrentAccessoryColor c w).
Proof.
  apply bearApart_accessory_op;
    [apply bearNodes_bear, updateCurrentAccessoryColor_bear
    |apply updateCurrentAccessoryColor_extends].
Qed.

Lemma section_apart w : bearApart w -> bearApart (updateAccessoryColorSection w).
Proof. intros H. exact H. Qed.

Lemma loadingStatus_apart l w : bearApart w -> bearApart (set_loadingStatus l w).
Proof. intros H. exact H. Qed.

Lemma resetAll_apart w : accessoriesPresent w -> bearApart w -> bearApart (resetAll w).
Proof.
  intros Hp Hap. unfold resetAll. cbv zeta.
  apply section_apart.
  apply updateCurrentAccessoryColor_apart, toggleScarf_apart, updateHat_apart.
  set (w0 := resetState w).
  assert (Hp0 : accessoriesPresent w0) by done.
  assert (Hap0 : bearApart w0) by done.
  apply updatePartColor_apart.
  - eapply extends_present; [|exact Hp0].
    eapply extends_trans; [apply updateBearSkin_extends|apply updatePartColor_extends].
  - apply updatePartColor_apart.
    + eapply extends_present; [apply updateBearSkin_extends|exact Hp0].
    + by apply updateBearSkin_apart.
Qed.

Lemma checkAllLoaded_apart w : bearApart w -> bearApart (checkAllLoaded w).2.
Proof. unfold checkAllLoaded. cbn [snd]. by destruct (allLoaded _). Qed.

Lemma onTimeout_apart w : bearApart w -> bearApart (onTimeout w).
Proof. unfold onTimeout, checkAllLoaded. by destruct (allLoaded _). Qed.

Lemma onBearLoaded_apart g w : accessoriesPresent w -> bearApart (onBearLoaded g w).
Proof.
  intros Hp. unfold onBearLoaded. cbv zeta. apply checkAllLoaded_apart.
  apply loadingStatus_apart.
  set (b := GLTF.install (length (materials w)) g).
  set (parts := foldl (findPart (nodes b)) (bearParts w) (imap pair (nodes b))).
  set (w1 := mkWorld (materials w ++ GLTF.fileMaterials g) (Some b) parts
               (accessories w) (state w) (loadingStatus w) (dom w)).
  assert (Hext1 : extends w w1).
  { split; [cbn; rewrite length_app; lia|]. cbn. eauto. }
  assert (Hp1 : accessoriesPresent w1) by (by eapply extends_present).
  assert (Hap1 : bearApart w1).
  { intros j nm r cnt name o nm' cnt' Hj Ho Hin.
    pose proof (present_below w name o nm' r cnt' Hp Ho Hin) as Hlt.
    unfold bearNodes, w1, b, GLTF.install in Hj. cbn [bear nodes set_nodes] in Hj.
    rewrite list_lookup_fmap in Hj.
    destruct (nodes (GLTF.scene g) !! j) as [[gnm|nm0 r0 cnt0]|]; cbn in Hj; [done| |done].
    injection Hj as _ <- _. lia. }
  apply updatePartColor_apart.
  - eapply extends_present; [|exact Hp1].
    eapply extends_trans; [apply updateBearSkin_extends|apply updatePartColor_extends].
  - apply updatePartColor_apart.
    + eapply extends_present; [apply updateBearSkin_extends|exact Hp1].
    + by apply updateBearSkin_apart.
Qed.

(** The meshes of a loaded accessory refer to new materials. *)
Lemma freshMaterial_refs k ns h nm r cnt :
  Mesh nm r cnt ∈ (traverseFrom k (λ _, freshMaterial) ns h).1 -> length h ≤ r.
Proof.
  revert k h. induction ns as [|n ns IH]; intros k h; cbn [traverseFrom].
  - intros Hin. by apply elem_of_nil in Hin.
  - destruct n as [gnm|nm0 r0 cnt0]; cbn [freshMaterial].
    + specialize (IH (S k) h).
      destruct (traverseFrom (S k) _ ns h) as [ns' h']. cbn [fst snd] in *.
      intros Hin. apply elem_of_cons in Hin as [?|Hin]; [done|]. by apply IH.
    + specialize (IH (S k) (h ++ [MeshStandardMaterial (currentAccessoryColor defaults)])).
      destruct (traverseFrom (S k) _ ns _) as [ns' h']. cbn [fst snd] in *.
      intros Hin. apply elem_of_cons in Hin as [Heq|Hin].
      * injection Heq as -> -> ->. done.
      * specialize (IH Hin). rewrite length_app in IH. cbn in IH. lia.
Qed.

Lemma onAccessoryLoaded_apart name g w :
  ownsClones (bearScene w) -> bearApart w -> bearApart (onAccessoryLoaded name g w).
Proof.
  intros [Hwf _] Hap. unfold onAccessoryLoaded. cbv zeta.
  pose proof (freshMaterial_refs 0 (nodes (GLTF.scene g)) (materials w)) as Hnew.
  unfold traverse.
  destruct (traverseFrom 0 _ (nodes (GLTF.scene g)) (materials w)) as [ns h].
  cbn [fst snd] in *.
  apply checkAllLoaded_apart.
  apply loadingStatus_apart.
  intros j nm r cnt name0 o nm' cnt' Hj Ho Hin.
  cbn [accessories set_materials set_accessories] in Ho.
  change (bearNodes (set_materials ?h0 (set_accessories ?a w))) with (bearNodes w) in Hj.
  apply lookup_insert_Some in Ho as [[_ <-]|[_ Ho]].
  - cbn [nodes] in Hin. specialize (Hnew nm' r cnt' Hin).
    specialize (Hwf j nm r cnt Hj). unfold bearScene in Hwf. cbn [snd] in Hwf. lia.
  - by eapply (Hap j nm r cnt name0 o nm' cnt').
Qed.

Lemma handle_apart e w :
  ownsClones (bearScene w) -> accessoriesPresent w -> bearApart w ->
  bearApart (handle e w).
Proof.
  intros Hown Hp Hap. destruct e as [g|name g| |s|p c|v|v|c|]; unfold handle.
  - by apply onBearLoaded_apart.
  - by apply onAccessoryLoaded_apart.
  - by apply onTimeout_apart.
  - by apply updateBearSkin_apart.
  - by apply updatePartColor_apart.
  - by apply updateHat_apart.
  - by apply toggleScarf_apart.
  - by apply updateCurrentAccessoryColor_apart.
  - by apply resetAll_apart.
Qed.

Lemma run_apart es w :
  forallb cleanEvent es = true ->
  ownsClones (bearScene w) -> accessoriesPresent w -> bearApart w ->
  bearApart (run es w).
Proof.
  revert w. induction es as [|e es IH]; intros w Hes Hown Hp Hap; [done|].
  cbn [forallb] in Hes. apply andb_true_iff in Hes as [He Hes].
  change (run (e :: es) w) with (run es (handle e w)).
  apply IH; [done|by apply handle_ownsClones|by apply handle_present|by apply handle_apart].
Qed.

Lemma reachable_apart page es :
  forallb cleanEvent es = true -> bearApart (run es (init page)).
Proof.
  intros Hes. apply run_apart; [done| | |].
  - split; intros i; intros; cbn in *; by rewrite lookup_nil in *.
  - intros name o Ho. cbn in Ho. by rewrite lookup_empty in Ho.
  - intros j nm r cnt name o nm' cnt' Hj. cbn in Hj. by rewrite lookup_nil in Hj.
Qed.

(** *** What follows for the operations *)

Lemma accessory_traverse_other c k ns h r :
  (∀ nm cnt, Mesh nm r cnt ∉ ns) ->
  (traverseFrom k (λ _, accessoryCallback c) ns h).2 !! r = h !! r.
Proof.
  revert k h. induction ns as [|n ns IH]; intros k h Hno; cbn [traverseFrom]; [done|].
  assert (Hno' : ∀ nm cnt, Mesh nm r cnt ∉ ns).
  { intros nm cnt Hin. apply (Hno nm cnt). by right. }
  destruct n as [gnm|nm0 r0 cnt0]; cbn [accessoryCallback].
  - specialize (IH (S k) h Hno'). by destruct (traverseFrom (S k) _ ns h).
  - specialize (IH (S k) (alter (Material.set_color c) r0 h) Hno').
    destruct (traverseFrom (S k) _ ns _). cbn [snd] in *. rewrite IH.
    apply list_lookup_alter_ne. intros ->. apply (Hno nm0 cnt0). left.
Qed.

Lemma surface_same w w' j :
  bear w' = bear w ->
  (∀ nm r cnt, bearNodes w !! j = Some (Mesh nm r cnt) ->
     materials w' !! r = materials w !! r) ->
  surface w' j = surface w j.
Proof.
  intros Hb Hm. unfold surface. rewrite (bearNodes_bear _ _ Hb).
  destruct (bearNodes w !! j) as [[gnm|nm r cnt]|] eqn:Hj; [done| |done].
  cbn. eauto.
Qed.

Lemma updateAccessoryColor_surface name c w j :
  bearApart w -> surface (updateAccessoryColor name c w) j = surface w j.
Proof.
  intros Hap. apply surface_same; [apply updateAccessoryColor_bear|].
  intros nm r cnt Hj. rewrite updateAccessoryColor_materials.
  destruct (accessories w !! name) as [o|] eqn:Ho; [|done].
  apply accessory_traverse_other. intros nm' cnt'.
  by apply (Hap j nm r cnt name o nm' cnt').
Qed.

Lemma setVisible_apart k v w : bearApart w -> bearApart (setVisible k v w).
Proof. apply bearApart_accessory_op; [done|apply setVisible_extends]. Qed.

Lemma surface_section w j : surface (updateAccessoryColorSection w) j = surface w j.
Proof. reflexivity. Qed.

Lemma surface_set_state st w j : surface (set_state st w) j = surface w j.
Proof. reflexivity. Qed.

Lemma surface_setVisible k v w j : surface (setVisible k v w) j = surface w j.
Proof. reflexivity. Qed.

Lemma updateHat_surface v w j : bearApart w -> surface (updateHat v w) j = surface w j.
Proof.
  intros Hap. unfold updateHat. cbv zeta. rewrite surface_section, surface_set_state.
  destruct (negb (String.eqb v "none") && _); [|done].
  rewrite updateAccessoryColor_surface; [done|].
  by apply setVisible_apart, setVisible_apart, setVisible_apart.
Qed.

Lemma toggleScarf_surface v w j : bearApart w -> surface (toggleScarf v w) j = surface w j.
Proof.
  intros Hap. unfold toggleScarf. cbv zeta. rewrite surface_section, surface_set_state.
  destruct (accessories w !! "scarf"); [|done].
  destruct v; [|done].
  rewrite updateAccessoryColor_surface; [done|]. by apply setVisible_apart.
Qed.

Lemma updateCurrentAccessoryColor_surface c w j :
  bearApart w -> surface (updateCurrentAccessoryColor c w) j = surface w j.
Proof.
  intros Hap. unfold updateCurrentAccessoryColor. cbv zeta.
  set (w1 := set_state (set_currentAccessoryColor c (state w)) w).
  assert (Hap1 : bearApart w1) by done.
  set (w2 := if negb (String.eqb (currentHat (state w1)) "none")
             then updateAccessoryColor (currentHat (state w1)) c w1 else w1).
  assert (H2 : surface w2 j = surface w j).
  { unfold w2. destruct (negb _); [|done]. by rewrite updateAccessoryColor_surface. }
  assert (Hap2 : bearApart w2).
  { unfold w2. destruct (negb _); [|done].
    revert Hap1. apply bearApart_accessory_op;
      [apply bearNodes_bear, updateAccessoryColor_bear|apply updateAccessoryColor_extends]. }
  destruct (scarfVisible (state w2)); [|done].
  by rewrite updateAccessoryColor_surface.
Qed.

(** A step on the bear leaves a material alone that no mesh of the bear
    refers to. *)
Lemma touch_other P i acc acc' r :
  Touch P i acc acc' -> r < length acc.2 ->
  (∀ j nm cnt, acc.1 !! j ≠ Some (Mesh nm r cnt)) ->
  acc'.2 !! r = acc.2 !! r ∧ (∀ j nm cnt, acc'.1 !! j ≠ Some (Mesh nm r cnt)).
Proof.
  intros [acc0|ns h nm0 r0 cnt0 m m' Hi Hr HP Hf Hn Hu|ns h nm0 r0 cnt0 m m' Hi Hr HP Hf Hn];
    cbn [fst snd]; intros Hlt Hno; [done| |].
  - split; [|done]. apply list_lookup_insert_ne. intros ->. by apply (Hno i nm0 cnt0).
  - split; [by apply lookup_app_l|].
    intros j nm cnt Hj. destruct (decide (i = j)) as [->|Hne].
    + rewrite list_lookup_insert_eq in Hj by (by eapply lookup_lt_Some).
      injection Hj as _ <- _. lia.
    + rewrite list_lookup_insert_ne in Hj by done. by apply (Hno j nm cnt).
Qed.

Lemma fold_touch_other P st (idx : list nat) acc r :
  (∀ acc0 i, Touch P i acc0 (st acc0 i)) -> r < length acc.2 ->
  (∀ j nm cnt, acc.1 !! j ≠ Some (Mesh nm r cnt)) ->
  (foldl st acc idx).2 !! r = acc.2 !! r.
Proof.
  intros Hst. revert acc. induction idx as [|i idx IH]; intros acc Hlt Hno; cbn [foldl];
    [done|].
  destruct (touch_other P i acc (st acc i) r (Hst acc i) Hlt Hno) as [Heq Hno'].
  rewrite IH; [done| |done].
  pose proof (touch_store_length _ _ _ _ (Hst acc i)). lia.
Qed.

Lemma updateBearSkin_other s w r :
  r < length (materials w) ->
  (∀ j nm cnt, bearNodes w !! j ≠ Some (Mesh nm r cnt)) ->
  materials (updateBearSkin s w) !! r = materials w !! r.
Proof.
  intros Hlt Hno.
  change (materials (updateBearSkin s w)) with (bearScene (updateBearSkin s w)).2.
  destruct (bearScene_updateBearSkin s w) as [-> | ->]; [done|].
  apply fold_touch_other with (P := λ _, True); [apply Skins_skin_touch|done|done].
Qed.

Lemma updatePartColor_other p c w r :
  r < length (materials w) ->
  (∀ j nm cnt, bearNodes w !! j ≠ Some (Mesh nm r cnt)) ->
  materials (updatePartColor p c w) !! r = materials w !! r.
Proof.
  intros Hlt Hno.
  assert (Hmarks : ∀ flag setFlag,
    (flag = UserData.isEyeCloned ∧ setFlag = UserData.set_isEyeCloned) ∨
    (flag = UserData.isNoseCloned ∧ setFlag = UserData.set_isNoseCloned) ->
    ∀ acc0 i, Touch (λ _, True) i acc0 (colorMesh flag setFlag c acc0 i)).
  { intros flag setFlag Hfs acc0 i.
    apply Skins_colorMesh_touch; destruct Hfs as [[-> ->]|[-> ->]];
      intros m0; unfold flagged; destruct m0 as [? ? ? [[] [] []]]; cbn; done. }
  unfold updatePartColor.
  destruct (String.eqb p "eyes").
  - destruct (eyes (bearParts w)) as [[|e es]|]; [done| |done].
    pose proof (fold_touch_other (λ _, True) _ (e :: es) (bearNodes w, materials w) r
                  (Hmarks _ _ (or_introl (conj eq_refl eq_refl))) Hlt Hno) as Hsame.
    destruct (foldl _ _ (e :: es)) as [ns h]. exact Hsame.
  - destruct (String.eqb p "nose"); [|done].
    destruct (nose (bearParts w)) as [n|]; [|done].
    pose proof (touch_other _ _ _ _ r
                  (Hmarks _ _ (or_intror (conj eq_refl eq_refl)) (bearNodes w, materials w) n)
                  Hlt Hno) as [Hsame _].
    destruct (colorMesh _ _ c _ n) as [ns h]. exact Hsame.
Qed.

End Apart.

(** X20: in every state the textured program reaches from its start (by
    loads of files whose meshes refer to the file's own materials, none
    with a clone mark, the timer and any use of the controls), no material
    is referred to by a mesh of the bear and by a mesh of an accessory.
    Hence choosing a hat, switching the scarf or changing the accessory
    colour changes no surface of the bear, and changing the skin or a part
    colour changes no material of an accessory. *)
Theorem bear_and_accessories_share_no_material
    (page : Skins.Dom) (es : list Skins.Event) :
  forallb cleanEvent es = true ->
  bearApart (Skins.run es (Skins.init page)) ∧
  (∀ (v : string) (b : bool) (c : Z) (j : nat),
     Skins.surface (Skins.updateHat v (Skins.run es (Skins.init page))) j
       = Skins.surface (Skins.run es (Skins.init page)) j ∧
     Skins.surface (Skins.toggleScarf b (Skins.run es (Skins.init page))) j
       = Skins.surface (Skins.run es (Skins.init page)) j ∧
     Skins.surface (Skins.updateCurrentAccessoryColor c (Skins.run es (Skins.init page))) j
       = Skins.surface (Skins.run es (Skins.init page)) j) ∧
  (∀ (s p : string) (c : Z) (name : string) (o : Object3D) (nm : string) (r cnt : nat),
     Skins.accessories (Skins.run es (Skins.init page)) !! name = Some o ->
     Mesh nm r cnt ∈ nodes o ->
     Skins.materials (Skins.updateBearSkin s (Skins.run es (Skins.init page))) !! r
       = Skins.materials (Skins.run es (Skins.init page)) !! r ∧
     Skins.materials (Skins.updatePartColor p c (Skins.run es (Skins.init page))) !! r
       = Skins.materials (Skins.run es (Skins.init page)) !! r).
Proof.
  intros Hes. pose proof (reachable_apart page es Hes) as Hap.
  pose proof (reachable_accessoriesPresent page es) as Hp.
  split; [exact Hap|]. split.
  - intros v b c j. split; [|split].
    + by apply updateHat_surface.
    + by apply toggleScarf_surface.
    + by apply updateCurrentAccessoryColor_surface.
  - intros s p c name o nm r cnt Ho Hin.
    assert (Hlt : r < length (Skins.materials (Skins.run es (Skins.init page))))
      by (by eapply present_below).
    assert (Hno : ∀ j nm0 cnt0,
              Skins.bearNodes (Skins.run es (Skins.init page)) !! j ≠ Some (Mesh nm0 r cnt0)).
    { intros j nm0 cnt0 Hj. by apply (Hap j nm0 r cnt0 name o nm cnt). }
    split; [by apply updateBearSkin_other|by apply updatePartColor_other].
Qed.

Lemma bear_and_accessories_share_no_material_witness :
  Skins.surface (Skins.updateCurrentAccessoryColor 0x228B22%Z Sample.hatOn) 1
    = Skins.surface Sample.hatOn 1.
Proof.
  refine (proj2 (proj2 (proj1 (proj2 (bear_and_accessories_share_no_material Sample.page
            [Skins.BearLoaded Sample.bear; Skins.AccessoryLoaded "hat" Sample.topHat;
             Skins.AccessoryLoaded "scarf" Sample.scarf;
             Skins.AccessoryColorClick 0x4169E1%Z; Skins.HatChange "hat"] _))
            "hat" true 0x228B22%Z 1))).
  vm_compute. reflexivity.
Defined.

(** ** What [switchBearForm] moves *)

Section Placement.

Implicit Types (s : Scene.t) (os : list Object3D).

Lemma switchBearForm_lookup F s r :
  Scene.objects (Forms.switchBearForm F s) !! r =
  let hide := if decide (Scene.currentBear s = Some r) then set_visible false else id in
  match Scene.bearModels s !! F with
  | None => hide <$> Scene.objects s !! r
  | Some nb =>
      let show := if decide (nb = r) then set_visible true else id in
      match Forms.positions !! F with
      | None => show <$> (hide <$> Scene.objects s !! r)
      | Some pos =>
          (if decide (Scene.accessories s !! "scarf" = Some r)
           then λ o, set_scale (setScalar (Forms.scarf_scale pos))
                       (set_position (Forms.set_y (Forms.scarf_y pos) (position o)) o)
           else id) <$>
          ((if decide (Scene.accessories s !! "bow" = Some r)
            then λ o, set_scale (setScalar (Forms.bow_scale pos))
                        (set_position (vec3 (Forms.bow_x pos) (Forms.bow_y pos) 0) o)
            else id) <$>
           ((if decide (Scene.accessories s !! "hat" = Some r)
             then λ o, set_scale (setScalar (Forms.hat_scale pos))
                         (set_position (Forms.set_y (Forms.hat_y pos) (position o)) o)
             else id) <$> (show <$> (hide <$> Scene.objects s !! r))))
      end
  end.
Proof.
  rewrite Forms_switchBearForm_eq. cbv zeta.
  assert (Hhide : match Scene.currentBear s with
                  | Some b => alter (set_visible false) b (Scene.objects s)
                  | None => Scene.objects s
                  end !! r =
                  (if decide (Scene.currentBear s = Some r) then set_visible false else id)
                    <$> Scene.objects s !! r).
  { destruct (Scene.currentBear s) as [b|].
    - rewrite list_lookup_alter. destruct (decide (b = r)) as [->|Hne].
      + by rewrite decide_True.
      + rewrite decide_False by congruence. by destruct (Scene.objects s !! r).
    - rewrite decide_False by done. by destruct (Scene.objects s !! r). }
  destruct (Scene.bearModels s !! F) as [nb|]; cbn [Scene.objects]; [|exact Hhide].
  assert (Hshow : ∀ os, alter (set_visible true) nb os !! r =
                        (if decide (nb = r) then set_visible true else id) <$> os !! r).
  { intros os. rewrite list_lookup_alter.
    destruct (decide (nb = r)) as [->|]; [done|by destruct (os !! r)]. }
  unfold reposObjs. destruct (Forms.positions !! F) as [pos|].
  - by rewrite !placeObjs_lookup, Hshow, Hhide.
  - by rewrite Hshow, Hhide.
Qed.

End Placement.

(** X21: [switchBearForm] of the second part of [script.js] keeps every
    loaded object and its meshes; it changes the visibility of no object
    but the previous and the requested bear; it moves or scales no object
    that is not registered as hat, bow or scarf; and when the form is
    registered and in the placement table, the hat (when no other
    accessory key holds the same object) gets the height and the scale of
    the table's row and keeps its other coordinates. *)
Theorem switchBearForm_moves_only_accessories
    (F : string) (s : Scene.t) (r : nat) (o : Object3D) :
  Scene.objects s !! r = Some o ->
  ∃ o', Scene.objects (Forms.switchBearForm F s) !! r = Some o' ∧
        nodes o' = nodes o ∧
        (Scene.currentBear s ≠ Some r -> Scene.bearModels s !! F ≠ Some r ->
         visible o' = visible o) ∧
        (Scene.accessories s !! "hat" ≠ Some r -> Scene.accessories s !! "bow" ≠ Some r ->
         Scene.accessories s !! "scarf" ≠ Some r ->
         position o' = position o ∧ scale o' = scale o) ∧
        (∀ pos nb, Forms.positions !! F = Some pos -> Scene.bearModels s !! F = Some nb ->
           Scene.accessories s !! "hat" = Some r -> Scene.accessories s !! "bow" ≠ Some r ->
           Scene.accessories s !! "scarf" ≠ Some r ->
           position o' = Forms.set_y (Forms.hat_y pos) (position o) ∧
           scale o' = setScalar (Forms.hat_scale pos)).
Proof.
  intros Ho. rewrite switchBearForm_lookup, Ho. cbv zeta.
  destruct (Scene.bearModels s !! F) as [nb|] eqn:HF;
    [destruct (Forms.positions !! F) as [pos|] eqn:HP|];
    (eexists; split; [reflexivity|]);
    (split; [by repeat case_decide|]);
    (split; [intros Hc Hnb; repeat case_decide; simplify_eq; try done;
             exfalso; by apply Hnb|]);
    (split; [intros Hh Hb Hs; repeat case_decide; simplify_eq; done|]);
    intros pos' nb' HP' HF' Hh Hb Hs; simplify_eq.
  repeat case_decide; simplify_eq; done.
Qed.

Lemma switchBearForm_moves_only_accessories_witness :
  let s := App.sceneManager
             (Loader.run [Loader.Loaded Loader.sitting Sample.bear;
                          Loader.Loaded Loader.standing Sample.bear;
                          Loader.Loaded Loader.hat Sample.topHat] App.new) in
  ∃ o', Scene.objects (Forms.switchBearForm "standing" s) !! 2 = Some o' ∧
        position o' = vec3 0 2.0 0 ∧ scale o' = setScalar 1.0.
Proof.
  cbv zeta.
  assert (Ho : Scene.objects (App.sceneManager
             (Loader.run [Loader.Loaded Loader.sitting Sample.bear;
                          Loader.Loaded Loader.standing Sample.bear;
                          Loader.Loaded Loader.hat Sample.topHat] App.new)) !! 2
           = Some (mkObject false (vec3 0 1.7 0) (vec3 1 1 1)
                     [Group "TopHat"; Mesh "Brim" 9 96; Mesh "Crown" 9 128]))
    by (vm_compute; reflexivity).
  destruct (switchBearForm_moves_only_accessories "standing" _ 2 _ Ho)
    as (o' & Ho' & _ & _ & _ & Hplace).
  exists o'. split; [exact Ho'|].
  apply (Hplace (Forms.place 2.0 1.0 0.28 1.9 0.8 1.5 1.0) 1); vm_compute;
    (reflexivity || discriminate).
Defined.

(** ** The reset button restores the default configuration state *)

Section ResetClick.

Lemma resetAll_app_state (a : App.t) :
  App.bearState (resetAll (ops := Forms.ops) a) = App.bearState (App.resetState a) ∧
  App.flags (resetAll (ops := Forms.ops) a) = App.flags (App.resetState a).
Proof. split; reflexivity. Qed.

Lemma resetState_default (a : App.t) :
  configIntact (App.flags a) ->
  BearState.isDefault (App.bearState (App.resetState a)) (App.flags (App.resetState a)).
Proof.
  intros Hc. rewrite resetState_eq. unfold BearState.isDefault.
  cbn [App.bearState App.flags BearState.currentForm BearState.furColor BearState.eyeColor
       BearState.accessories].
  repeat (split; [done|]).
  rewrite lookup_app_r, Nat.sub_diag by done.
  unfold configIntact in Hc. by rewrite Hc.
Qed.

End ResetClick.

(** X22: in the second part of [script.js], after any loads and any use
    of the controls, a click on "reset all" leaves the configuration state
    deep-equal to [CONFIG.defaultState], and [CONFIG.defaultState] itself
    as it was written. *)
Theorem resetAll_click_restores_default_state (es : list Loader.Event) :
  BearState.isDefault
    (App.bearState (Loader.run (es ++ [Loader.UI ResetAllClick]) App.new))
    (App.flags (Loader.run (es ++ [Loader.UI ResetAllClick]) App.new)) ∧
  configIntact (App.flags (Loader.run (es ++ [Loader.UI ResetAllClick]) App.new)).
Proof.
  split; [|apply Loader_reachable_configIntact].
  unfold Loader.run. rewrite foldl_app. cbn [foldl Loader.step handle].
  destruct (resetAll_app_state (foldl (λ a e, Loader.step e a) App.new es)) as [-> ->].
  apply resetState_default. apply (Loader_reachable_configIntact es).
Qed.
